(** * KrapB2Bcrypto: the analytics core, embedded and verified

    A shallow embedding of the computational core of the repository:
    - [src/utils/analytics.ts]    (candle enrichment, auction context, volume profile),
    - [src/utils/domAnalytics.ts] (order-book level analytics),
    - [src/utils/eventEngine.ts]  (persistent event state machine),
    - [src/utils/smartGrouping.ts] (zone aggregation).

    Conventions of the embedding.
    - A JavaScript [number] that carries a price, a volume or a score is an
      exact rational ([Q]); binary64 rounding, NaN and the infinities are
      outside the model.  The two divisions of the event engine whose
      denominator is not guarded are evaluated in [JS.xnum], which keeps the
      IEEE result of a division by zero.
    - Timestamps ([Date.now()], [Candle.timestamp]) and counters are integers
      ([Z]).
    - A JavaScript [Map] is an insertion-ordered association list ([JSMap]);
      keys are compared with the equality test of the key type, as
      SameValueZero does.
    - [Date.now()] and [Math.random()] are inputs of the functions that call
      them.
    - A [TypeError] raised by reading a property of [undefined] is the
      [JS.TypeError] outcome. *)

From Stdlib Require Import ZArith QArith Qround Qabs Qminmax Lia Lqa.
From Stdlib Require Import String List Bool Sorted.
Import ListNotations.

Set Implicit Arguments.

(* ===================================================================== *)
(** * JavaScript primitives *)
(* ===================================================================== *)

Module JS.

  (** Outcome of a computation that may read a property of [undefined].
      [OutOfFuel] is the exhaustion of the fuel of a [while] loop. *)
Inductive result (A : Type) : Type :=
  | Ok (a : A)
  | TypeError
  | OutOfFuel.
Arguments Ok {A} a.
Arguments TypeError {A}.
Arguments OutOfFuel {A}.

Definition bind {A B} (r : result A) (f : A -> result B) : result B :=
    match r with
    | Ok a => f a
    | TypeError => TypeError
    | OutOfFuel => OutOfFuel
    end.

  (** [o.field] where [o] may be [undefined]. *)
Definition deref {A} (o : option A) : result A :=
    match o with
    | Some a => Ok a
    | None => TypeError
    end.

  (** Numeric comparisons [<], [>], [<=], [>=], [===]. *)
Definition ltb (a b : Q) : bool := negb (Qle_bool b a).
Definition gtb (a b : Q) : bool := ltb b a.
Definition leb (a b : Q) : bool := Qle_bool a b.
Definition geb (a b : Q) : bool := Qle_bool b a.
Definition eqb (a b : Q) : bool := Qeq_bool a b.

  (** [x > y] where [y] may be [undefined]: the comparison is then false. *)
Definition gtb_undef (a : Q) (b : option Q) : bool :=
    match b with Some y => gtb a y | None => false end.
Definition ltb_undef (a : Q) (b : option Q) : bool :=
    match b with Some y => ltb a y | None => false end.

  (** [x || d] for [x : number | undefined]: [undefined] and [0] are falsy. *)
Definition or_num (x : option Q) (d : Q) : Q :=
    match x with
    | Some v => if Qeq_bool v 0 then d else v
    | None => d
    end.

  (** [x || d] for an integer-valued [x : number | undefined]. *)
Definition or_int (x : option Z) (d : Z) : Z :=
    match x with
    | Some v => if (v =? 0)%Z then d else v
    | None => d
    end.

Definition Math_floor (x : Q) : Z := Qfloor x.
Definition Math_max (a b : Q) : Q := Qmax a b.
Definition Math_min (a b : Q) : Q := Qmin a b.
Definition Math_abs (a : Q) : Q := Qabs a.

  (** [Math.max(...l)] and [Math.min(...l)] for a spread list; [d] stands for
      the result on the empty list, which no caller reaches. *)
Definition Math_max_list (l : list Q) (d : Q) : Q :=
    match l with
    | [] => d
    | x :: r => fold_left Math_max r x
    end.
Definition Math_min_list (l : list Q) (d : Q) : Q :=
    match l with
    | [] => d
    | x :: r => fold_left Math_min r x
    end.

  (** [l.length] and [l[i]] with a JavaScript index: a negative or too large
      index reads [undefined]. *)
Definition len {A} (l : list A) : Z := Z.of_nat (List.length l).

Definition at_ {A} (l : list A) (i : Z) : option A :=
    if (i <? 0)%Z then None else nth_error l (Z.to_nat i).

  (** In-place update of [l[i]] for an index in range. *)
Fixpoint update {A} (l : list A) (i : nat) (f : A -> A) : list A :=
    match l, i with
    | [], _ => []
    | x :: r, O => f x :: r
    | x :: r, S j => x :: update r j f
    end.

  (** [l.findIndex(p)]: first index whose element satisfies [p], else -1. *)
Fixpoint findIndex_from {A} (p : A -> bool) (l : list A) (i : Z) : Z :=
    match l with
    | [] => (-1)%Z
    | x :: r => if p x then i else findIndex_from p r (i + 1)%Z
    end.
Definition findIndex {A} (p : A -> bool) (l : list A) : Z :=
    findIndex_from p l 0%Z.

  (** [l.slice(-n)]: the last [n] elements. *)
Definition slice_last {A} (n : nat) (l : list A) : list A :=
    skipn (List.length l - n) l.

  (** [l.sort(cmp)]: [Array.prototype.sort] is stable; [cmp a b <= 0] keeps
      [a] before [b].  Insertion from the right end gives the stable order. *)
Section Sort.
Context {A : Type} (cmp : A -> A -> Q).
Fixpoint insert (x : A) (l : list A) : list A :=
      match l with
      | [] => [x]
      | y :: r => if Qle_bool (cmp x y) 0 then x :: y :: r else y :: insert x r
      end.
Fixpoint sort (l : list A) : list A :=
      match l with
      | [] => []
      | x :: r => insert x (sort r)
      end.
End Sort.

  (** Integers [lo, lo+1, ..., hi] (empty when [hi < lo]), the values taken
      by the counter of [for (t = lo; t <= hi; t++)]. *)
Definition upto (lo hi : Z) : list Z :=
    map (fun i => (lo + Z.of_nat i)%Z) (seq 0 (Z.to_nat (hi - lo + 1))).

  (** Integers [hi, hi-1, ..., lo], the values taken by the counter of
      [for (j = hi; j >= lo; j--)]. *)
Definition downto (hi lo : Z) : list Z :=
    map (fun i => (hi - Z.of_nat i)%Z) (seq 0 (Z.to_nat (hi - lo + 1))).

  (** Result of a division whose denominator may be zero: IEEE 754 gives an
      infinity or NaN there. *)
Inductive xnum : Type :=
  | Fin (q : Q)
  | PosInf
  | NegInf
  | NaN.

Definition div (a b : Q) : xnum :=
    if Qeq_bool b 0 then
      if Qeq_bool a 0 then NaN
      else if ltb 0 a then PosInf else NegInf
    else Fin (a / b).

  (** [1 - x]. *)
Definition one_minus (x : xnum) : xnum :=
    match x with
    | Fin q => Fin (1 - q)
    | PosInf => NegInf
    | NegInf => PosInf
    | NaN => NaN
    end.

  (** [x > c] and [x < c] against a finite constant. *)
Definition xgtb (x : xnum) (c : Q) : bool :=
    match x with
    | Fin q => gtb q c
    | PosInf => true
    | NegInf | NaN => false
    end.
Definition xltb (x : xnum) (c : Q) : bool :=
    match x with
    | Fin q => ltb q c
    | NegInf => true
    | PosInf | NaN => false
    end.

End JS.

(* ===================================================================== *)
(** * JavaScript [Map]: insertion-ordered association list *)
(* ===================================================================== *)

Module JSMap.
Section Ops.
Context {K V : Type} (keqb : K -> K -> bool).

Fixpoint get (k : K) (m : list (K * V)) : option V :=
      match m with
      | [] => None
      | (k', v) :: r => if keqb k k' then Some v else get k r
      end.

    (** [m.set(k, v)]: an existing key keeps its position, a new key goes
        to the end. *)
Fixpoint set (k : K) (v : V) (m : list (K * V)) : list (K * V) :=
      match m with
      | [] => [(k, v)]
      | (k', v') :: r =>
          if keqb k k' then (k', v) :: r else (k', v') :: set k v r
      end.

Fixpoint delete (k : K) (m : list (K * V)) : list (K * V) :=
      match m with
      | [] => []
      | (k', v') :: r =>
          if keqb k k' then r else (k', v') :: delete k r
      end.

Definition values (m : list (K * V)) : list V := map snd m.
Definition keys (m : list (K * V)) : list K := map fst m.

    (** Every key occurs once. *)
Fixpoint uniq (m : list (K * V)) : Prop :=
      match m with
      | [] => True
      | (k, _) :: r => get k r = None /\ uniq r
      end.
End Ops.
End JSMap.

(* ===================================================================== *)
(** * [src/types.ts] *)
(* ===================================================================== *)

Inductive Divergence : Type := bullish | bearish.

Module Candle.
  (** The enriched fields are optional ([None] is [undefined]); for
      [divergence], [Some None] is [null]. *)
Record t : Type := mk {
    timestamp : Z;
    open : Q;
    high : Q;
    low : Q;
    close : Q;
    volume : Q;
    takerBuyVolume : Q;
    isClosed : option bool;
    delta : option Q;
    cvd : option Q;
    vwap : option Q;
    vwapStd : option Q;
    divergence : option (option Divergence)
  }.

Definition with_divergence (d : Divergence) (c : t) : t :=
    mk (timestamp c) (open c) (high c) (low c) (close c) (volume c)
       (takerBuyVolume c) (isClosed c) (delta c) (cvd c) (vwap c) (vwapStd c)
       (Some (Some d)).
End Candle.

Module ProfileLevel.
Record t : Type := mk {
    price : Q;
    volume : Q;
    bidVol : option Q;
    askVol : option Q
  }.
End ProfileLevel.

Module ProfileMetrics.
Record t : Type := mk {
    levels : list ProfileLevel.t;
    poc : Q;
    vah : Q;
    val : Q;
    totalVolume : Q;
    sessionHigh : Q;
    sessionLow : Q
  }.
End ProfileMetrics.

Inductive AuctionMode : Type :=
| BALANCED
| ROTATIONAL
| INITIATIVE_BUY
| INITIATIVE_SELL
| FAILED_AUCTION_HIGH
| FAILED_AUCTION_LOW.

Inductive Bias : Type := bias_neutral | bias_bullish | bias_bearish.

Module AuctionContext.
Record t : Type := mk {
    mode : AuctionMode;
    confidence : Q;
    scenario : string;
    bias : Bias
  }.
End AuctionContext.

Module Trade.
Record t : Type := mk {
    id : Z;
    price : Q;
    qty : Q;
    time : Z;
    isBuyerMaker : bool;
    isLarge : bool
  }.
End Trade.

Module OrderBookLevel.
Record t : Type := mk {
    price : Q;
    qty : Q;
    total : Q;
    depthRatio : Q
  }.
End OrderBookLevel.

Inductive Side : Type := bid | ask.

Module EnrichedLevel.
  (** [EnrichedLevel extends OrderBookLevel]; [age] counts snapshots. *)
Record t : Type := mk {
    price : Q;
    qty : Q;
    total : Q;
    depthRatio : Q;
    type : Side;
    cumulativeQty : Q;
    deltaQty : Q;
    tradeVol : Q;
    absorption : Q;
    isIceberg : bool;
    icebergVol : Q;
    isSpoof : bool;
    age : Z
  }.
End EnrichedLevel.

Inductive PersistentEventType : Type :=
| T_ICE
| T_ABSORPTION
| T_STACK
| T_PULL
| T_FAIL.

Inductive PersistenceWindow : Type := W15 | W30 | W60 | SESSION.

Inductive EventState : Type :=
| NEUTRAL
| STACK
| ABSORPTION
| HOLDING
| WEAKENING
| FAIL
| BROKEN.

Module PersistentEvent.
  (** [id] is the template string [`${side}-${price}`]; it is determined by
      the side and the numeric value of the price, and is kept as that
      pair. *)
Record t : Type := mk {
    id : Side * Q;
    type : PersistentEventType;
    price : Q;
    side : Side;
    state : EventState;
    firstDetected : Z;
    lastConfirmed : Z;
    failTime : option Z;
    volume : Q;
    peakVolume : Q;
    strength : Q;
    confirmations : Z;
    failedPushes : Z;
    failConfidence : Q;
    remDropRatio : option JS.xnum;
    isActive : bool;
    isRetest : bool;
    isFailed : bool
  }.
End PersistentEvent.

Inductive NoiseFilterLevel : Type := LOW | MEDIUM | HIGH | AUTO.

Module ZoneRaw.
Record t : Type := mk {
    price : Q;
    added : Q;
    removed : Q;
    executed : Q;
    net : Q;
    lastQty : Q;
    firstSeen : Z;
    lastUpdate : Z;
    failedPushes : option Z
  }.
End ZoneRaw.

Module SmartZone.
  (** [id] is the template string [`z-${bucketKey}`], kept as the bucket
      key. *)
Record t : Type := mk {
    id : Q;
    priceStart : Q;
    priceEnd : Q;
    added : Q;
    removed : Q;
    executed : Q;
    net : Q;
    density : Z;
    avgLifetime : Z;
    lastUpdate : Z;
    noiseScore : Q;
    impactScore : Q;
    isSignificant : bool;
    volatility : Q
  }.
End SmartZone.

(* ===================================================================== *)
(** * [Date.prototype.getUTCDate] *)
(* ===================================================================== *)

Module UTC.
Local Open Scope Z_scope.

Definition msPerDay : Z := 86400000.

(** Number of the UTC day that contains the time value [t]. *)
Definition Day (t : Z) : Z := t / msPerDay.

(** Proleptic Gregorian date [(year, month, day of month)] of a day number
    counted from 1970-01-01. *)
Definition civil (d : Z) : Z * Z * Z :=
  let z := d + 719468 in
  let era := z / 146097 in
  let doe := z - era * 146097 in
  let yoe := (doe - doe / 1460 + doe / 36524 - doe / 146096) / 365 in
  let doy := doe - (365 * yoe + yoe / 4 - yoe / 100) in
  let mp := (5 * doy + 2) / 153 in
  let dom := doy - (153 * mp + 2) / 5 + 1 in
  let m := if mp <? 10 then mp + 3 else mp - 9 in
  let y := yoe + era * 400 + (if m <=? 2 then 1 else 0) in
  (y, m, dom).

(** [new Date(t).getUTCDate()]: the day of the month, 1 to 31. *)
Definition getUTCDate (t : Z) : Z := snd (civil (Day t)).

End UTC.

(* ===================================================================== *)
(** * [src/utils/analytics.ts] *)
(* ===================================================================== *)

Module Analytics.
Import JS.
Local Open Scope Q_scope.

(** ** [enrichCandlesWithContext] *)

(** The variables the [map] callback closes over. *)
Record Acc : Type := mkAcc {
  cumDelta : Q;
  cumVol : Q;
  cumPV : Q;
  sumSquaredDev : Q;
  lastTime : Z
}.

Definition acc0 : Acc := mkAcc 0 0 0 0 0%Z.

Section Enrich.
(** [Math.sqrt] has no rational value in general; it is a parameter. *)
Variable Math_sqrt : Q -> Q.

(** One call of the [map] callback. *)
Definition enrichOne (a : Acc) (c : Candle.t) : Acc * Candle.t :=
  let aggressiveBuy := Candle.takerBuyVolume c in
  let aggressiveSell := Candle.volume c - Candle.takerBuyVolume c in
  let delta := aggressiveBuy - aggressiveSell in
  let date := UTC.getUTCDate (Candle.timestamp c) in
  let prevDate := UTC.getUTCDate (lastTime a) in
  let reset := negb (lastTime a =? 0)%Z && negb (date =? prevDate)%Z in
  let cumDelta0 := if reset then 0 else cumDelta a in
  let cumVol0 := if reset then 0 else cumVol a in
  let cumPV0 := if reset then 0 else cumPV a in
  let sumSquaredDev0 := if reset then 0 else sumSquaredDev a in
  let cumDelta1 := cumDelta0 + delta in
  let cumVol1 := cumVol0 + Candle.volume c in
  let cumPV1 := cumPV0 + Candle.close c * Candle.volume c in
  let typicalPrice := (Candle.high c + Candle.low c + Candle.close c) / 3 in
  let vwap := if gtb cumVol1 0 then cumPV1 / cumVol1 else Candle.close c in
  let sumSquaredDev1 :=
    if gtb cumVol1 0 then
      let dev := typicalPrice - vwap in
      sumSquaredDev0 + (dev * dev) * Candle.volume c
    else sumSquaredDev0 in
  let variance := if gtb cumVol1 0 then sumSquaredDev1 / cumVol1 else 0 in
  let stdDev := Math_sqrt variance in
  (mkAcc cumDelta1 cumVol1 cumPV1 sumSquaredDev1 (Candle.timestamp c),
   Candle.mk (Candle.timestamp c) (Candle.open c) (Candle.high c)
     (Candle.low c) (Candle.close c) (Candle.volume c)
     (Candle.takerBuyVolume c) (Candle.isClosed c)
     (Some delta) (Some cumDelta1) (Some vwap) (Some stdDev) (Some None)).

(** [candles.map(...)], threading the closed-over variables. *)
Fixpoint enrichPass (a : Acc) (cs : list Candle.t) : list Candle.t :=
  match cs with
  | [] => []
  | c :: r => let (a', c') := enrichOne a c in c' :: enrichPass a' r
  end.

(** [enriched[j]] is a pivot high: its high exceeds both neighbours'. *)
Definition pivotHighAt (enriched : list Candle.t) (j : Z) : bool :=
  match at_ enriched j with
  | Some cj =>
      gtb_undef (Candle.high cj) (option_map Candle.high (at_ enriched (j - 1)))
      && gtb_undef (Candle.high cj) (option_map Candle.high (at_ enriched (j + 1)))
  | None => false
  end.

Definition pivotLowAt (enriched : list Candle.t) (j : Z) : bool :=
  match at_ enriched j with
  | Some cj =>
      ltb_undef (Candle.low cj) (option_map Candle.low (at_ enriched (j - 1)))
      && ltb_undef (Candle.low cj) (option_map Candle.low (at_ enriched (j + 1)))
  | None => false
  end.

(** The inner [for (j = i - 2; j >= Math.max(0, i - 15); j--)] search. *)
Definition prevPivot (isPivot : Z -> bool) (i : Z) : option Z :=
  find isPivot (downto (i - 2) (Z.max 0 (i - 15))).

(** Body of the divergence loop at index [i]; [curr.divergence] is assigned
    in place. *)
Definition divergenceAt (enriched : list Candle.t) (i : Z) : list Candle.t :=
  match at_ enriched i, at_ enriched (i - 1), at_ enriched (i + 1) with
  | Some curr, Some before, Some after =>
      let isPriceHigh :=
        gtb (Candle.high curr) (Candle.high before)
        && gtb (Candle.high curr) (Candle.high after) in
      let bear :=
        isPriceHigh &&
        match prevPivot (pivotHighAt enriched) i with
        | Some j =>
            match at_ enriched j with
            | Some prev =>
                gtb (Candle.high curr) (Candle.high prev)
                && ltb (or_num (Candle.delta curr) 0) (or_num (Candle.delta prev) 0)
            | None => false
            end
        | None => false
        end in
      let isPriceLow :=
        ltb (Candle.low curr) (Candle.low before)
        && ltb (Candle.low curr) (Candle.low after) in
      let bull :=
        isPriceLow &&
        match prevPivot (pivotLowAt enriched) i with
        | Some j =>
            match at_ enriched j with
            | Some prev =>
                ltb (Candle.low curr) (Candle.low prev)
                && gtb (or_num (Candle.delta curr) 0) (or_num (Candle.delta prev) 0)
            | None => false
            end
        | None => false
        end in
      let e1 :=
        if bear then update enriched (Z.to_nat i) (Candle.with_divergence bearish)
        else enriched in
      if bull then update e1 (Z.to_nat i) (Candle.with_divergence bullish)
      else e1
  | _, _, _ => enriched
  end.

Definition LOOKBACK : Z := 3.

(** [for (let i = LOOKBACK; i < enriched.length - 1; i++)]. *)
Definition divergencePass (enriched : list Candle.t) : list Candle.t :=
  fold_left divergenceAt (upto LOOKBACK (len enriched - 2)) enriched.

Definition enrichCandlesWithContext (candles : list Candle.t) : list Candle.t :=
  divergencePass (enrichPass acc0 candles).

End Enrich.

(** ** [calculateAuctionContext] *)

Definition neutralContext : AuctionContext.t :=
  AuctionContext.mk BALANCED 0 "Gathering data..." bias_neutral.

Definition auctionMode_eqb (a b : AuctionMode) : bool :=
  match a, b with
  | BALANCED, BALANCED | ROTATIONAL, ROTATIONAL
  | INITIATIVE_BUY, INITIATIVE_BUY | INITIATIVE_SELL, INITIATIVE_SELL
  | FAILED_AUCTION_HIGH, FAILED_AUCTION_HIGH
  | FAILED_AUCTION_LOW, FAILED_AUCTION_LOW => true
  | _, _ => false
  end.

Definition calculateAuctionContext (lastPrice : Q) (profile : ProfileMetrics.t)
    (vwap : Q) (recentCandles : list Candle.t) : AuctionContext.t :=
  if (List.length recentCandles <? 5)%nat then neutralContext
  else
    match at_ recentCandles (len recentCandles - 1) with
    | None => neutralContext
    | Some last =>
        let vah := ProfileMetrics.vah profile in
        let val := ProfileMetrics.val profile in
        let recentHighs :=
          Math_max_list (map Candle.high (slice_last 5 recentCandles)) 0 in
        let recentLows :=
          Math_min_list (map Candle.low (slice_last 5 recentCandles)) 0 in
        let mode :=
          if gtb recentHighs vah && ltb lastPrice vah
             && ltb (Candle.close last) (Candle.open last)
          then FAILED_AUCTION_HIGH
          else if ltb recentLows val && gtb lastPrice val
                  && gtb (Candle.close last) (Candle.open last)
          then FAILED_AUCTION_LOW
          else if gtb lastPrice vah then INITIATIVE_BUY
          else if ltb lastPrice val then INITIATIVE_SELL
          else
            let distToVAH := Math_abs (lastPrice - vah) in
            let distToVAL := Math_abs (lastPrice - val) in
            let range := vah - val in
            if ltb distToVAH (range * 0.1) || ltb distToVAL (range * 0.1)
            then ROTATIONAL else BALANCED in
        let delta := or_num (Candle.delta last) 0 in
        let vol := Candle.volume last in
        let c0 := 50 in
        let c1 := if auctionMode_eqb mode INITIATIVE_BUY && gtb delta 0
                     && gtb lastPrice vwap then c0 + 25 else c0 in
        let c2 := if auctionMode_eqb mode INITIATIVE_SELL && ltb delta 0
                     && ltb lastPrice vwap then c1 + 25 else c1 in
        let c3 := if auctionMode_eqb mode FAILED_AUCTION_HIGH && ltb delta 0
                  then c2 + 30 else c2 in
        let c4 := if auctionMode_eqb mode FAILED_AUCTION_LOW && gtb delta 0
                  then c3 + 30 else c3 in
        let c5 := if auctionMode_eqb mode BALANCED
                     && ltb (Math_abs delta) (vol * 0.1)
                  then c4 + 20 else c4 in
        let confidence := Math_min 100 (Math_max 0 c5) in
        match mode with
        | INITIATIVE_BUY =>
            AuctionContext.mk mode confidence
              "Acceptance above VA. Buyers chasing price. Target extension."
              bias_bullish
        | INITIATIVE_SELL =>
            AuctionContext.mk mode confidence
              "Weakness below VA. Sellers aggressive. Target lower liquidity."
              bias_bearish
        | FAILED_AUCTION_HIGH =>
            AuctionContext.mk mode confidence
              "Trap at highs. Buyers exhausted. Return to POC likely."
              bias_bearish
        | FAILED_AUCTION_LOW =>
            AuctionContext.mk mode confidence
              "Trap at lows. Demand found. Return to value expected."
              bias_bullish
        | ROTATIONAL =>
            if gtb lastPrice (ProfileMetrics.poc profile)
            then AuctionContext.mk mode confidence
                   "Testing VAH supply. Break or rotate to POC." bias_bullish
            else AuctionContext.mk mode confidence
                   "Testing VAL demand. Break or rotate to POC." bias_bearish
        | BALANCED =>
            AuctionContext.mk mode confidence
              "Market in balance. Await reaction at extremes." bias_neutral
        end
    end.

(** ** [calculateProfile] *)

Definition emptyProfile : ProfileMetrics.t :=
  ProfileMetrics.mk [] 0 0 0 0 0 0.

(** The variables the [candles.forEach] callback assigns. *)
Record ProfAcc : Type := mkProfAcc {
  volumeMap : list (Z * Q);
  sessionHigh : Q;
  sessionLow : Q;
  totalVolume : Q
}.

(** [for (let t = lowTick; t <= highTick; t++)]. *)
Definition spread (volumePerTick : Q) (lowTick highTick : Z)
    (m : list (Z * Q)) : list (Z * Q) :=
  fold_left
    (fun m t =>
       let currentVol := or_num (JSMap.get Z.eqb t m) 0 in
       JSMap.set Z.eqb t (currentVol + volumePerTick) m)
    (upto lowTick highTick) m.

(** One call of the [forEach] callback.  When [numTicks] is not positive
    the loop body never runs and [volumePerTick] is not used. *)
Definition addCandle (tickSize : Q) (a : ProfAcc) (candle : Candle.t) : ProfAcc :=
  let lowTick := Math_floor (Candle.low candle / tickSize) in
  let highTick := Math_floor (Candle.high candle / tickSize) in
  let numTicks := (highTick - lowTick + 1)%Z in
  let volumePerTick := Candle.volume candle / inject_Z numTicks in
  mkProfAcc
    (spread volumePerTick lowTick highTick (volumeMap a))
    (Math_max (sessionHigh a) (Candle.high candle))
    (Math_min (sessionLow a) (Candle.low candle))
    (totalVolume a + Candle.volume candle).

Definition toLevel (tickSize : Q) (e : Z * Q) : ProfileLevel.t :=
  ProfileLevel.mk (inject_Z (fst e) * tickSize) (snd e) None None.

Definition byPrice (a b : ProfileLevel.t) : Q :=
  ProfileLevel.price a - ProfileLevel.price b.

(** The scan for the point of control: [(poc, maxVol)] from [(0, -1)]. *)
Definition pocStep (s : Q * Q) (l : ProfileLevel.t) : Q * Q :=
  if gtb (ProfileLevel.volume l) (snd s)
  then (ProfileLevel.price l, ProfileLevel.volume l)
  else s.

Definition pocScan (levels : list ProfileLevel.t) : Q * Q :=
  fold_left pocStep levels (0, -1).

(** The variables of the value-area loop. *)
Record VA : Type := mkVA {
  upperIndex : Z;
  lowerIndex : Z;
  currentVolume : Q
}.

(** Condition of the [while]. *)
Definition va_continue (levels : list ProfileLevel.t) (targetVolume : Q)
    (s : VA) : bool :=
  ltb (currentVolume s) targetVolume
  && ((upperIndex s <? len levels - 1)%Z || (lowerIndex s >? 0)%Z).

Definition nextUpper (levels : list ProfileLevel.t) (s : VA) : result Q :=
  if (upperIndex s <? len levels - 1)%Z
  then bind (deref (at_ levels (upperIndex s + 1)))
         (fun l => Ok (ProfileLevel.volume l))
  else Ok 0.

Definition nextLower (levels : list ProfileLevel.t) (s : VA) : result Q :=
  if (lowerIndex s >? 0)%Z
  then bind (deref (at_ levels (lowerIndex s - 1)))
         (fun l => Ok (ProfileLevel.volume l))
  else Ok 0.

(** Body of the [while], up to the [break] test. *)
Definition va_step (levels : list ProfileLevel.t) (s : VA) : result VA :=
  bind (nextUpper levels s) (fun nu =>
  bind (nextLower levels s) (fun nl =>
    if gtb nu nl then
      let u := (upperIndex s + 1)%Z in
      bind (deref (at_ levels u)) (fun l =>
        Ok (mkVA u (lowerIndex s) (currentVolume s + ProfileLevel.volume l)))
    else
      let lo := (lowerIndex s - 1)%Z in
      bind (deref (at_ levels lo)) (fun l =>
        Ok (mkVA (upperIndex s) lo (currentVolume s + ProfileLevel.volume l))))).

(** [if (upperIndex === levels.length - 1 && lowerIndex === 0) break]. *)
Definition va_break (levels : list ProfileLevel.t) (s : VA) : bool :=
  (upperIndex s =? len levels - 1)%Z && (lowerIndex s =? 0)%Z.

Fixpoint va_loop (fuel : nat) (levels : list ProfileLevel.t) (targetVolume : Q)
    (s : VA) : result VA :=
  match fuel with
  | O => OutOfFuel
  | S fuel' =>
      if va_continue levels targetVolume s then
        bind (va_step levels s) (fun s' =>
          if va_break levels s' then Ok s'
          else va_loop fuel' levels targetVolume s')
      else Ok s
  end.

(** Every completed iteration lowers this measure, so [S (va_measure ..)]
    iterations are enough. *)
Definition va_measure (levels : list ProfileLevel.t) (s : VA) : nat :=
  (Z.to_nat (len levels - upperIndex s) + Z.to_nat (lowerIndex s + 1))%nat.

Definition calculateProfile (candles : list Candle.t) (tickSize : Q)
    : result ProfileMetrics.t :=
  match candles with
  | [] => Ok emptyProfile
  | first :: _ =>
      (** [Math.max(-Infinity, h)] is [h]: the scan of the session range
          starts from the first candle. *)
      let a :=
        fold_left (addCandle tickSize) candles
          (mkProfAcc [] (Candle.high first) (Candle.low first) 0) in
      let levels :=
        sort byPrice (map (toLevel tickSize) (volumeMap a)) in
      let (poc, maxVol) := pocScan levels in
      let targetVolume := totalVolume a * 0.7 in
      let pocIndex :=
        findIndex (fun l => eqb (ProfileLevel.price l) poc) levels in
      let s0 := mkVA pocIndex pocIndex maxVol in
      bind (va_loop (S (va_measure levels s0)) levels targetVolume s0)
        (fun s =>
           Ok (ProfileMetrics.mk levels poc
                 (or_num (option_map ProfileLevel.price
                            (at_ levels (upperIndex s))) poc)
                 (or_num (option_map ProfileLevel.price
                            (at_ levels (lowerIndex s))) poc)
                 (totalVolume a) (sessionHigh a) (sessionLow a)))
  end.

(** Sum of the volumes of the levels whose price lies in [[val, vah]]. *)
Definition valueAreaVolume (m : ProfileMetrics.t) : Q :=
  fold_right Qplus 0
    (map ProfileLevel.volume
       (filter
          (fun l => leb (ProfileMetrics.val m) (ProfileLevel.price l)
                    && leb (ProfileLevel.price l) (ProfileMetrics.vah m))
          (ProfileMetrics.levels m))).

End Analytics.


(* ===================================================================== *)
(** * [src/utils/domAnalytics.ts] *)
(* ===================================================================== *)

Definition side_eqb (a b : Side) : bool :=
  match a, b with
  | bid, bid | ask, ask => true
  | _, _ => false
  end.

Module DomAnalytics.
Import JS.
Local Open Scope Q_scope.

Definition SPOOF_PULL_THRESHOLD : Q := 5000.

(** Step 1: executed volume per price, for the trades that hit this side. *)
Definition addTrade (side : Side) (tradeMap : list (Q * Q)) (t : Trade.t)
    : list (Q * Q) :=
  if (side_eqb side bid && Trade.isBuyerMaker t)
     || (side_eqb side ask && negb (Trade.isBuyerMaker t))
  then
    let p := Trade.price t in
    JSMap.set Qeq_bool p (or_num (JSMap.get Qeq_bool p tradeMap) 0 + Trade.qty t)
      tradeMap
  else tradeMap.

Definition aggregateTrades (side : Side) (recentTrades : list Trade.t)
    : list (Q * Q) :=
  fold_left (addTrade side) recentTrades [].

(** One call of the [newLevels.map] callback; [cumulative] is the variable
    it closes over. *)
Definition enrichLevel (side : Side) (prevLevels : list (Q * EnrichedLevel.t))
    (tradeMap : list (Q * Q)) (cumulative : Q) (level : OrderBookLevel.t)
    : Q * EnrichedLevel.t :=
  let prev := JSMap.get Qeq_bool (OrderBookLevel.price level) prevLevels in
  let executedVol :=
    or_num (JSMap.get Qeq_bool (OrderBookLevel.price level) tradeMap) 0 in
  let cumulative' := cumulative + OrderBookLevel.qty level in
  let '(delta, isSpoof) :=
    match prev with
    | Some pv =>
        let rawDiff := OrderBookLevel.qty level - EnrichedLevel.qty pv in
        let valueRemoved :=
          (EnrichedLevel.qty pv - OrderBookLevel.qty level)
          * OrderBookLevel.price level in
        (rawDiff + executedVol,
         gtb valueRemoved SPOOF_PULL_THRESHOLD && eqb executedVol 0)
    | None => (OrderBookLevel.qty level, false)
    end in
  let icebergVol0 :=
    match prev with Some pv => EnrichedLevel.icebergVol pv | None => 0 end in
  let isIceberg := gtb executedVol 0 && geb delta 0 in
  let icebergVol := if isIceberg then icebergVol0 + executedVol else icebergVol0 in
  let absorptionScore :=
    if gtb executedVol 0 && gtb (OrderBookLevel.qty level) 0
    then executedVol / OrderBookLevel.qty level else 0 in
  let age :=
    match prev with Some pv => (EnrichedLevel.age pv + 1)%Z | None => 0%Z end in
  (cumulative',
   EnrichedLevel.mk (OrderBookLevel.price level) (OrderBookLevel.qty level)
     (OrderBookLevel.total level) (OrderBookLevel.depthRatio level)
     side cumulative' delta executedVol absorptionScore isIceberg icebergVol
     isSpoof age).

Fixpoint enrichLevels (side : Side) (prevLevels : list (Q * EnrichedLevel.t))
    (tradeMap : list (Q * Q)) (cumulative : Q)
    (newLevels : list OrderBookLevel.t) : list EnrichedLevel.t :=
  match newLevels with
  | [] => []
  | level :: r =>
      let (c, e) := enrichLevel side prevLevels tradeMap cumulative level in
      e :: enrichLevels side prevLevels tradeMap c r
  end.

Definition analyzeDOM (newLevels : list OrderBookLevel.t)
    (prevLevels : list (Q * EnrichedLevel.t)) (recentTrades : list Trade.t)
    (side : Side) : list EnrichedLevel.t :=
  enrichLevels side prevLevels (aggregateTrades side recentTrades) 0 newLevels.

End DomAnalytics.

(* ===================================================================== *)
(** * [src/utils/eventEngine.ts] *)
(* ===================================================================== *)

Module EventEngine.
Import JS.
Local Open Scope Q_scope.

Definition id_eqb (a b : Side * Q) : bool :=
  side_eqb (fst a) (fst b) && Qeq_bool (snd a) (snd b).

Definition type_eqb (a b : PersistentEventType) : bool :=
  match a, b with
  | T_ICE, T_ICE | T_ABSORPTION, T_ABSORPTION | T_STACK, T_STACK
  | T_PULL, T_PULL | T_FAIL, T_FAIL => true
  | _, _ => false
  end.

Definition state_eqb (a b : EventState) : bool :=
  match a, b with
  | NEUTRAL, NEUTRAL | STACK, STACK | ABSORPTION, ABSORPTION
  | HOLDING, HOLDING | WEAKENING, WEAKENING | FAIL, FAIL
  | BROKEN, BROKEN => true
  | _, _ => false
  end.

(** Field assignments [event.f = v]. *)
Section Assign.
Import PersistentEvent.
Definition set_type (v : PersistentEventType) (e : t) : t :=
  mk (id e) v (price e) (side e) (state e) (firstDetected e) (lastConfirmed e)
     (failTime e) (volume e) (peakVolume e) (strength e) (confirmations e)
     (failedPushes e) (failConfidence e) (remDropRatio e) (isActive e)
     (isRetest e) (isFailed e).
Definition set_state (v : EventState) (e : t) : t :=
  mk (id e) (type e) (price e) (side e) v (firstDetected e) (lastConfirmed e)
     (failTime e) (volume e) (peakVolume e) (strength e) (confirmations e)
     (failedPushes e) (failConfidence e) (remDropRatio e) (isActive e)
     (isRetest e) (isFailed e).
Definition set_lastConfirmed (v : Z) (e : t) : t :=
  mk (id e) (type e) (price e) (side e) (state e) (firstDetected e) v
     (failTime e) (volume e) (peakVolume e) (strength e) (confirmations e)
     (failedPushes e) (failConfidence e) (remDropRatio e) (isActive e)
     (isRetest e) (isFailed e).
Definition set_failTime (v : Z) (e : t) : t :=
  mk (id e) (type e) (price e) (side e) (state e) (firstDetected e)
     (lastConfirmed e) (Some v) (volume e) (peakVolume e) (strength e)
     (confirmations e) (failedPushes e) (failConfidence e) (remDropRatio e)
     (isActive e) (isRetest e) (isFailed e).
Definition set_volume (v : Q) (e : t) : t :=
  mk (id e) (type e) (price e) (side e) (state e) (firstDetected e)
     (lastConfirmed e) (failTime e) v (peakVolume e) (strength e)
     (confirmations e) (failedPushes e) (failConfidence e) (remDropRatio e)
     (isActive e) (isRetest e) (isFailed e).
Definition set_peakVolume (v : Q) (e : t) : t :=
  mk (id e) (type e) (price e) (side e) (state e) (firstDetected e)
     (lastConfirmed e) (failTime e) (volume e) v (strength e)
     (confirmations e) (failedPushes e) (failConfidence e) (remDropRatio e)
     (isActive e) (isRetest e) (isFailed e).
Definition set_strength (v : Q) (e : t) : t :=
  mk (id e) (type e) (price e) (side e) (state e) (firstDetected e)
     (lastConfirmed e) (failTime e) (volume e) (peakVolume e) v
     (confirmations e) (failedPushes e) (failConfidence e) (remDropRatio e)
     (isActive e) (isRetest e) (isFailed e).
Definition set_confirmations (v : Z) (e : t) : t :=
  mk (id e) (type e) (price e) (side e) (state e) (firstDetected e)
     (lastConfirmed e) (failTime e) (volume e) (peakVolume e) (strength e)
     v (failedPushes e) (failConfidence e) (remDropRatio e)
     (isActive e) (isRetest e) (isFailed e).
Definition set_failedPushes (v : Z) (e : t) : t :=
  mk (id e) (type e) (price e) (side e) (state e) (firstDetected e)
     (lastConfirmed e) (failTime e) (volume e) (peakVolume e) (strength e)
     (confirmations e) v (failConfidence e) (remDropRatio e)
     (isActive e) (isRetest e) (isFailed e).
Definition set_failConfidence (v : Q) (e : t) : t :=
  mk (id e) (type e) (price e) (side e) (state e) (firstDetected e)
     (lastConfirmed e) (failTime e) (volume e) (peakVolume e) (strength e)
     (confirmations e) (failedPushes e) v (remDropRatio e)
     (isActive e) (isRetest e) (isFailed e).
Definition set_remDropRatio (v : xnum) (e : t) : t :=
  mk (id e) (type e) (price e) (side e) (state e) (firstDetected e)
     (lastConfirmed e) (failTime e) (volume e) (peakVolume e) (strength e)
     (confirmations e) (failedPushes e) (failConfidence e) (Some v)
     (isActive e) (isRetest e) (isFailed e).
Definition set_isActive (v : bool) (e : t) : t :=
  mk (id e) (type e) (price e) (side e) (state e) (firstDetected e)
     (lastConfirmed e) (failTime e) (volume e) (peakVolume e) (strength e)
     (confirmations e) (failedPushes e) (failConfidence e) (remDropRatio e)
     v (isRetest e) (isFailed e).
Definition set_isRetest (v : bool) (e : t) : t :=
  mk (id e) (type e) (price e) (side e) (state e) (firstDetected e)
     (lastConfirmed e) (failTime e) (volume e) (peakVolume e) (strength e)
     (confirmations e) (failedPushes e) (failConfidence e) (remDropRatio e)
     (isActive e) v (isFailed e).
Definition set_isFailed (v : bool) (e : t) : t :=
  mk (id e) (type e) (price e) (side e) (state e) (firstDetected e)
     (lastConfirmed e) (failTime e) (volume e) (peakVolume e) (strength e)
     (confirmations e) (failedPushes e) (failConfidence e) (remDropRatio e)
     (isActive e) (isRetest e) v.
End Assign.

(** The fields of the class.  [windowMinutes] is 30 or one of 15, 30, 60
    and 480 in every engine built by the constructor and [setWindow]. *)
Record Engine : Type := mkEngine {
  events : list (Side * Q * PersistentEvent.t);
  windowMinutes : Z;
  failCooldowns : list (Z * Z)
}.

Definition new_EventEngine : Engine := mkEngine [] 30 [].

Definition setWindow (window : PersistenceWindow) (g : Engine) : Engine :=
  mkEngine (events g)
    (match window with
     | SESSION => 480
     | W15 => 15
     | W30 => 30
     | W60 => 60
     end)
    (failCooldowns g).

Definition getEvents (g : Engine) : list PersistentEvent.t :=
  JSMap.values (events g).

(** ** [processLevels] *)

(** "Basic Detection": the detected type and its strength. *)
Definition detect (lvl : EnrichedLevel.t) : option (PersistentEventType * Q) :=
  if EnrichedLevel.isIceberg lvl then Some (T_ICE, 80)
  else if gtb (EnrichedLevel.absorption lvl) 1.5 then Some (T_ABSORPTION, 80)
  else if EnrichedLevel.isSpoof lvl then Some (T_PULL, 90)
  else if gtb (EnrichedLevel.qty lvl * EnrichedLevel.price lvl) 150000
          && (EnrichedLevel.age lvl >? 5)%Z
       then Some (T_STACK, 60)
  else None.

(** "Update Existing": the assignments in source order. *)
Definition reinforce (detectedType : PersistentEventType) (now : Z)
    (lvl : EnrichedLevel.t) (existing : PersistentEvent.t) : PersistentEvent.t :=
  let e1 := set_lastConfirmed now existing in
  let e2 := set_confirmations (PersistentEvent.confirmations e1 + 1)%Z e1 in
  let e3 := set_volume (EnrichedLevel.qty lvl) e2 in
  let e4 := set_peakVolume
              (Math_max (PersistentEvent.peakVolume e3) (EnrichedLevel.qty lvl)) e3 in
  let e5 := set_strength (Math_min 100 (PersistentEvent.strength e4 + 2)) e4 in
  let e6 :=
    if type_eqb detectedType T_ICE
       && negb (type_eqb (PersistentEvent.type e5) T_ICE)
    then set_state STACK (set_type T_ICE e5)
    else e5 in
  if ((now - PersistentEvent.firstDetected e6 >? 60000)%Z
      && (now - PersistentEvent.lastConfirmed e6 >? 10000)%Z)%bool
  then set_failedPushes (PersistentEvent.failedPushes e6 + 1)%Z e6
  else e6.

(** "Create New". *)
Definition newEvent (id : Side * Q) (detectedType : PersistentEventType)
    (detectionStrength : Q) (side : Side) (now : Z) (lvl : EnrichedLevel.t)
    : PersistentEvent.t :=
  PersistentEvent.mk id detectedType (EnrichedLevel.price lvl) side
    (if type_eqb detectedType T_ABSORPTION || type_eqb detectedType T_ICE
     then ABSORPTION else STACK)
    now now None (EnrichedLevel.qty lvl) (EnrichedLevel.qty lvl)
    detectionStrength 1%Z 0%Z 0 None true false false.

(** One call of the [levels.forEach] callback. *)
Definition processLevel (side : Side) (now : Z) (lastPrice : Q)
    (evs : list (Side * Q * PersistentEvent.t)) (lvl : EnrichedLevel.t)
    : list (Side * Q * PersistentEvent.t) :=
  match detect lvl with
  | None => evs
  | Some (detectedType, detectionStrength) =>
      let id := (side, EnrichedLevel.price lvl) in
      match JSMap.get id_eqb id evs with
      | Some existing =>
          if state_eqb (PersistentEvent.state existing) FAIL
             || state_eqb (PersistentEvent.state existing) BROKEN
          then evs
          else JSMap.set id_eqb id (reinforce detectedType now lvl existing) evs
      | None =>
          let isBehind :=
            match side with
            | bid => ltb lastPrice (EnrichedLevel.price lvl)
            | ask => gtb lastPrice (EnrichedLevel.price lvl)
            end in
          if isBehind then evs
          else JSMap.set id_eqb id
                 (newEvent id detectedType detectionStrength side now lvl) evs
      end
  end.

Definition processLevels (levels : list EnrichedLevel.t) (side : Side)
    (now : Z) (lastPrice : Q) (evs : list (Side * Q * PersistentEvent.t))
    : list (Side * Q * PersistentEvent.t) :=
  fold_left (processLevel side now lastPrice) levels evs.

(** ** [calculateFailConfidence] *)

Definition calculateFailConfidence (event : PersistentEvent.t) (remDrop : xnum)
    (age : Z) : Q :=
  let s0 := 50 in
  let s1 := if state_eqb (PersistentEvent.state event) HOLDING
            then s0 + 20 else s0 in
  let s2 := if type_eqb (PersistentEvent.type event) T_ABSORPTION
               || type_eqb (PersistentEvent.type event) T_ICE
            then s1 + 15 else s1 in
  let s3 := if (age >? 300000)%Z then s2 + 15
            else if (age <? 120000)%Z then s2 - 10 else s2 in
  let s4 := if xgtb remDrop 0.5 then s3 + 25
            else if xltb remDrop 0.1 then s3 - 20 else s3 in
  let s5 := if (PersistentEvent.failedPushes event >? 2)%Z then s4 + 20
            else if (PersistentEvent.failedPushes event =? 0)%Z then s4 - 15
            else s4 in
  Math_min 100 (Math_max 0 s5).

(** ** The state machine of [process] *)

(** [Math.floor(event.price / 10) * 10]. *)
Definition bucketOf (price : Q) : Z := (Math_floor (price / 10) * 10)%Z.

Definition isBreached (event : PersistentEvent.t) (lastPrice : Q) : bool :=
  let tolerance := lastPrice * 0.0003 in
  (side_eqb (PersistentEvent.side event) bid
   && ltb lastPrice (PersistentEvent.price event - tolerance))
  || (side_eqb (PersistentEvent.side event) ask
      && gtb lastPrice (PersistentEvent.price event + tolerance)).

Definition isSignificant (s : EventState) : bool :=
  state_eqb s STACK || state_eqb s ABSORPTION
  || state_eqb s HOLDING || state_eqb s WEAKENING.

(** "Transition: FAIL (The Big One)" for a breached event that is neither
    failed nor broken. *)
Definition breach (now : Z) (age : Z) (event : PersistentEvent.t)
    (cds : list (Z * Z)) : PersistentEvent.t * list (Z * Z) :=
  let isMature := (age >? 60000)%Z in
  let bucket := bucketOf (PersistentEvent.price event) in
  let cooldown := or_int (JSMap.get Z.eqb bucket cds) 0 in
  if (isSignificant (PersistentEvent.state event) && isMature
      && (now >? cooldown)%Z)%bool
  then
    let remDrop :=
      one_minus (div (PersistentEvent.volume event)
                     (PersistentEvent.peakVolume event)) in
    let conf := calculateFailConfidence event remDrop age in
    if geb conf 70 then
      (set_remDropRatio remDrop
         (set_failConfidence conf
            (set_failTime now
               (set_isFailed true (set_type T_FAIL (set_state FAIL event))))),
       JSMap.set Z.eqb bucket (now + 300000)%Z cds)
    else (set_isFailed true (set_state BROKEN event), cds)
  else (set_isFailed true (set_state BROKEN event), cds).

(** "Transition: HOLDING". *)
Definition toHolding (age : Z) (event : PersistentEvent.t) : PersistentEvent.t :=
  if ((state_eqb (PersistentEvent.state event) STACK
       || state_eqb (PersistentEvent.state event) ABSORPTION)
      && (age >? 120000)%Z
      && (PersistentEvent.confirmations event >? 10)%Z)%bool
  then set_state HOLDING event else event.

(** "Transition: WEAKENING". *)
Definition toWeakening (event : PersistentEvent.t) : PersistentEvent.t :=
  if PersistentEvent.isActive event
     && state_eqb (PersistentEvent.state event) HOLDING
     && ltb (PersistentEvent.volume event) (PersistentEvent.peakVolume event * 0.3)
  then set_state WEAKENING event else event.

(** "Transition: FAIL": the guard around [breach]. *)
Definition toFail (now : Z) (age : Z) (lastPrice : Q)
    (event : PersistentEvent.t) (cds : list (Z * Z))
    : PersistentEvent.t * list (Z * Z) :=
  if isBreached event lastPrice && negb (PersistentEvent.isFailed event)
     && negb (state_eqb (PersistentEvent.state event) BROKEN)
  then breach now age event cds
  else (event, cds).

(** "Retest Logic". *)
Definition retest (justUpdated : bool) (age : Z) (lastPrice : Q)
    (event : PersistentEvent.t) : PersistentEvent.t :=
  if (negb justUpdated && negb (PersistentEvent.isFailed event)
      && (age >? 60000)%Z)%bool
  then
    let dist :=
      div (Math_abs (lastPrice - PersistentEvent.price event)) lastPrice in
    if xltb dist 0.0005 then set_isRetest true event else event
  else event.

(** "Decay". *)
Definition decay (age : Z) (windowMs : Z) (event : PersistentEvent.t)
    : PersistentEvent.t :=
  if negb (state_eqb (PersistentEvent.state event) FAIL) then
    let lifeRatio := 1 - inject_Z age / inject_Z windowMs in
    set_strength (Math_max 10 (PersistentEvent.strength event * lifeRatio)) event
  else event.

(** Body of [for (const [key, event] of this.events.entries())]: [None]
    when the entry is deleted. *)
Definition stepEvent (now : Z) (windowMs : Z) (lastPrice : Q)
    (event : PersistentEvent.t) (cds : list (Z * Z))
    : option PersistentEvent.t * list (Z * Z) :=
  let age := (now - PersistentEvent.firstDetected event)%Z in
  let expiry :=
    if state_eqb (PersistentEvent.state event) FAIL then 120000%Z else windowMs in
  if ((age >? expiry)%Z && negb (state_eqb (PersistentEvent.state event) FAIL))%bool
  then (None, cds)
  else if (state_eqb (PersistentEvent.state event) FAIL
           && (now - or_int (PersistentEvent.failTime event) 0 >? expiry)%Z)%bool
  then (None, cds)
  else
    let justUpdated := (now - PersistentEvent.lastConfirmed event <? 500)%Z in
    let e1 := set_isActive justUpdated event in
    let e2 := toHolding age e1 in
    let e3 := toWeakening e2 in
    let (e4, cds') := toFail now age lastPrice e3 cds in
    let e5 := retest justUpdated age lastPrice e4 in
    let e6 := decay age windowMs e5 in
    (Some e6, cds').

(** The loop over the entries of the map.  Keys are unique, so deleting
    the key of the current entry drops that entry, and assigning to the
    fields of [event] rewrites it in place. *)
Fixpoint stateMachine (now : Z) (windowMs : Z) (lastPrice : Q)
    (entries : list (Side * Q * PersistentEvent.t)) (cds : list (Z * Z))
    : list (Side * Q * PersistentEvent.t) * list (Z * Z) :=
  match entries with
  | [] => ([], cds)
  | (key, event) :: rest =>
      let (oe, cds1) := stepEvent now windowMs lastPrice event cds in
      let (rest', cds2) := stateMachine now windowMs lastPrice rest cds1 in
      (match oe with
       | Some event' => (key, event') :: rest'
       | None => rest'
       end, cds2)
  end.

(** "Cleanup Cooldowns", taken when [Math.random() > 0.95]. *)
Definition purgeCooldowns (now : Z) (cds : list (Z * Z)) : list (Z * Z) :=
  filter (fun kt => negb (now >? snd kt)%Z) cds.

(** The event map once both sides have gone through [processLevels]. *)
Definition detected (g : Engine) (bids asks : list EnrichedLevel.t)
    (lastPrice : Q) (now : Z) : list (Side * Q * PersistentEvent.t) :=
  processLevels asks ask now lastPrice
    (processLevels bids bid now lastPrice (events g)).

(** [process]: [now] is [Date.now()] and [random] is [Math.random()]; the
    result is the engine after the call and the returned array. *)
Definition process (g : Engine) (bids asks : list EnrichedLevel.t)
    (lastPrice : Q) (now : Z) (random : Q)
    : Engine * list PersistentEvent.t :=
  let windowMs := (windowMinutes g * 60 * 1000)%Z in
  let evs := detected g bids asks lastPrice now in
  let (evs', cds) := stateMachine now windowMs lastPrice evs (failCooldowns g) in
  let cds' := if gtb random 0.95 then purgeCooldowns now cds else cds in
  (mkEngine evs' (windowMinutes g) cds',
   filter (fun e => negb (state_eqb (PersistentEvent.state e) BROKEN))
     (JSMap.values evs')).

End EventEngine.

(* ===================================================================== *)
(** * [src/utils/smartGrouping.ts] *)
(* ===================================================================== *)

Module SmartGrouping.
Import JS.
Local Open Scope Q_scope.

(** The fields of the class. *)
Record Engine : Type := mkEngine {
  recentPrices : list Q;
  volatility : Q
}.

Definition new_SmartGroupingEngine : Engine := mkEngine [] 0.

Section Volatility.
Variable Math_sqrt : Q -> Q.

Definition updateVolatility (currentPrice : Q) (g : Engine) : Engine :=
  let pushed := recentPrices g ++ [currentPrice] in
  let prices := if (20 <? List.length pushed)%nat then tl pushed else pushed in
  if (List.length prices <? 5)%nat then mkEngine prices 0
  else
    let n := inject_Z (len prices) in
    let mean := fold_left Qplus prices 0 / n in
    let variance :=
      fold_left (fun a b => a + (b - mean) * (b - mean)) prices 0 / n in
    mkEngine prices (Math_sqrt variance).
End Volatility.

Definition getAdaptiveGroupSize (g : Engine) (baseGroup : Q) : Q :=
  if eqb (volatility g) 0 then baseGroup
  else if gtb (volatility g) 50 then Math_max baseGroup 100
  else if gtb (volatility g) 20 then Math_max baseGroup 50
  else if gtb (volatility g) 5 then Math_max baseGroup 10
  else baseGroup.

(** ** [aggregateZones] *)

Definition bucketKeyOf (groupSize : Q) (price : Q) : Q :=
  if eqb groupSize 0 then price
  else inject_Z (Math_floor (price / groupSize)) * groupSize.

Definition freshZone (g : Engine) (groupSize bucketKey : Q) : SmartZone.t :=
  SmartZone.mk bucketKey bucketKey
    (if eqb groupSize 0 then bucketKey else bucketKey + groupSize)
    0 0 0 0 0%Z 0%Z 0%Z 0 0 false (volatility g).

(** One call of the [rawMap.forEach] callback. *)
Definition addRaw (g : Engine) (groupSize : Q) (now validStart : Z)
    (zones : list (Q * SmartZone.t)) (raw : ZoneRaw.t)
    : list (Q * SmartZone.t) :=
  if (ZoneRaw.lastUpdate raw <? validStart)%Z then zones
  else
    let bucketKey := bucketKeyOf groupSize (ZoneRaw.price raw) in
    let zone :=
      match JSMap.get Qeq_bool bucketKey zones with
      | Some z => z
      | None => freshZone g groupSize bucketKey
      end in
    let rawLifetime := (now - ZoneRaw.firstSeen raw)%Z in
    JSMap.set Qeq_bool bucketKey
      (SmartZone.mk (SmartZone.id zone) (SmartZone.priceStart zone)
         (SmartZone.priceEnd zone)
         (SmartZone.added zone + ZoneRaw.added raw)
         (SmartZone.removed zone + ZoneRaw.removed raw)
         (SmartZone.executed zone + ZoneRaw.executed raw)
         (SmartZone.net zone + ZoneRaw.net raw)
         (SmartZone.density zone + 1)%Z
         (Z.max (SmartZone.avgLifetime zone) rawLifetime)
         (Z.max (SmartZone.lastUpdate zone) (ZoneRaw.lastUpdate raw))
         (SmartZone.noiseScore zone) (SmartZone.impactScore zone)
         (SmartZone.isSignificant zone) (SmartZone.volatility zone))
      zones.

Definition zoneVolume (z : SmartZone.t) : Q :=
  SmartZone.added z + SmartZone.removed z + SmartZone.executed z.

Definition calculateDynamicVolumeThreshold (zones : list SmartZone.t) : Q :=
  match zones with
  | [] => 1000
  | _ =>
      let volumes := sort (fun a b => a - b) (map zoneVolume zones) in
      let p80 := Math_floor (inject_Z (len volumes) * 0.8) in
      or_num (at_ volumes p80) 1000
  end.

(** The threshold selected by the [switch]. *)
Definition noiseThreshold (g : Engine) (noiseLevel : NoiseFilterLevel) : Q :=
  match noiseLevel with
  | LOW => 80
  | MEDIUM => 60
  | HIGH => 40
  | AUTO => if gtb (volatility g) 20 then 30 else 60
  end.

(** Steps A to D of the [zones.forEach] callback: the zone with its
    [noiseScore] and [impactScore] assigned. *)
Definition scoreZone (groupSize lastPrice activeVolThreshold : Q)
    (zone : SmartZone.t) : SmartZone.t :=
  let totalVol := zoneVolume zone in
  let n0 := 50 in
  let n1 := if gtb totalVol (activeVolThreshold * 2) then n0 - 30
            else if ltb totalVol (activeVolThreshold * 0.2) then n0 + 30
            else n0 in
  let n2 := if (SmartZone.avgLifetime zone <? 5000)%Z then n1 + 40 else n1 in
  let n3 := if (SmartZone.avgLifetime zone >? 60000)%Z then n2 - 20 else n2 in
  let distToPrice := Math_abs (lastPrice - SmartZone.priceStart zone) in
  let inZone := ltb distToPrice groupSize in
  let '(n4, impact) :=
    if gtb totalVol activeVolThreshold && inZone
    then (n3 - 30, 100)
    else if gtb totalVol activeVolThreshold && negb inZone
            && gtb (SmartZone.executed zone) 0
    then (n3 - 20, SmartZone.impactScore zone)
    else if ltb totalVol activeVolThreshold && negb inZone
    then (n3 + 10, SmartZone.impactScore zone)
    else (n3, SmartZone.impactScore zone) in
  SmartZone.mk (SmartZone.id zone) (SmartZone.priceStart zone)
    (SmartZone.priceEnd zone) (SmartZone.added zone) (SmartZone.removed zone)
    (SmartZone.executed zone) (SmartZone.net zone) (SmartZone.density zone)
    (SmartZone.avgLifetime zone) (SmartZone.lastUpdate zone)
    (Math_max 0 (Math_min 100 n4)) impact
    (SmartZone.isSignificant zone) (SmartZone.volatility zone).

Definition markSignificant (zone : SmartZone.t) : SmartZone.t :=
  SmartZone.mk (SmartZone.id zone) (SmartZone.priceStart zone)
    (SmartZone.priceEnd zone) (SmartZone.added zone) (SmartZone.removed zone)
    (SmartZone.executed zone) (SmartZone.net zone) (SmartZone.density zone)
    (SmartZone.avgLifetime zone) (SmartZone.lastUpdate zone)
    (SmartZone.noiseScore zone) (SmartZone.impactScore zone)
    true (SmartZone.volatility zone).

(** Step E: [processed.push(zone)] when the score is under the threshold. *)
Definition retain (threshold : Q) (processed : list SmartZone.t)
    (zone : SmartZone.t) : list SmartZone.t :=
  if ltb (SmartZone.noiseScore zone) threshold
  then processed ++ [markSignificant zone]
  else processed.

Definition byPriceStartDesc (a b : SmartZone.t) : Q :=
  SmartZone.priceStart b - SmartZone.priceStart a.

(** [now] is [Date.now()]. *)
Definition aggregateZones (g : Engine) (rawMap : list (Q * ZoneRaw.t))
    (groupSize : Q) (timeWindow : Z) (noiseLevel : NoiseFilterLevel)
    (lastPrice : Q) (now : Z) : list SmartZone.t :=
  let validStart := (now - timeWindow)%Z in
  let zones :=
    fold_left (addRaw g groupSize now validStart) (JSMap.values rawMap) [] in
  let activeVolThreshold :=
    calculateDynamicVolumeThreshold (JSMap.values zones) in
  let processed :=
    fold_left (retain (noiseThreshold g noiseLevel))
      (map (scoreZone groupSize lastPrice activeVolThreshold)
         (JSMap.values zones))
      [] in
  sort byPriceStartDesc processed.

End SmartGrouping.

(* ===================================================================== *)
(** * More JavaScript primitives *)
(* ===================================================================== *)

Module JSNum.
Import JS.
Local Open Scope Q_scope.

(** [Math.max(x, q)] and [Math.min(x, q)] for an accumulator [x] that
    starts at [-Infinity] or [Infinity]. *)
Definition xmax (x : xnum) (q : Q) : xnum :=
  match x with
  | Fin a => Fin (Math_max a q)
  | NegInf => Fin q
  | PosInf => PosInf
  | NaN => NaN
  end.

Definition xmin (x : xnum) (q : Q) : xnum :=
  match x with
  | Fin a => Fin (Math_min a q)
  | PosInf => Fin q
  | NegInf => NegInf
  | NaN => NaN
  end.

(** A loop whose body may throw: the first [TypeError] ends it. *)
Fixpoint for_each {A S : Type} (f : S -> A -> result S) (l : list A) (s : S)
    : result S :=
  match l with
  | [] => Ok s
  | x :: r => bind (f s x) (for_each f r)
  end.

(** [l.slice(lo, hi)] for [0 <= lo]. *)
Definition slice {A} (lo hi : Z) (l : list A) : list A :=
  firstn (Z.to_nat (hi - lo)) (skipn (Z.to_nat lo) l).

(** [l.reduce((sum, x) => sum + x, 0)]. *)
Definition sum (l : list Q) : Q := fold_left Qplus l 0.

End JSNum.

(* ===================================================================== *)
(** * [src/types.ts]: session, screener and order-block types *)
(* ===================================================================== *)

Module SessionLevels.
(** [ibHigh], [ibLow] and [vwap] are [number | null]; [None] is [null].
    The highs and lows are accumulated from [-Infinity] and [Infinity]. *)
Record t : Type := mk {
  ibHigh : option JS.xnum;
  ibLow : option JS.xnum;
  vwap : option Q;
  sessionHigh : JS.xnum;
  sessionLow : JS.xnum
}.
End SessionLevels.

Inductive CVDState : Type :=
| CVD_NEUTRAL
| CVD_ACCUMULATION
| CVD_DISTRIBUTION
| CVD_EXPANSION_UP
| CVD_EXPANSION_DOWN
| CVD_ABSORPTION.

Inductive SignalType : Type :=
| SIG_NONE
| SIG_AGG_BUY
| SIG_AGG_SELL
| SIG_ABSORPTION
| SIG_ICEBERG
| SIG_VACUUM
| SIG_SQUEEZE.

Inductive ContextTag : Type :=
| IN_BALANCE
| TESTING_HIGH
| TESTING_LOW
| BREAKOUT
| BREAKDOWN
| AT_VWAP
| OVEREXTENDED.

Inductive SymbolStatus : Type :=
| DISCOVERED
| INITIALIZING
| WARMING_UP
| ACTIVE.

Module ScreenerRow.
Record t : Type := mk {
  symbol : string;
  price : Q;
  status : SymbolStatus;
  chg24h : Q;
  vol24h : Q;
  tfChange : Q;
  tfVolume : Q;
  attentionScore : Q;
  volZScore : Q;
  delta1m : Q;
  deltaZScore : Q;
  ofSignal : SignalType;
  signalConfidence : Q;
  contextTag : ContextTag;
  activeDuration : Z;
  auctionStateHint : string;
  fundingRate : Q;
  fundingZScore : Q;
  sparkline : list Q;
  weekChange : Q;
  netInflow : Q;
  trendStrength : Q
}.
End ScreenerRow.

Inductive OrderBlockStatus : Type := FRESH | TESTED | FAILING.

Module OrderBlock.
(** [id] is the template string [`bull-${timestamp}`] or
    [`bear-${timestamp}`], kept as the pair it is built from. *)
Record t : Type := mk {
  id : Divergence * Z;
  type : Divergence;
  top : Q;
  bottom : Q;
  start : Z;
  mitigated : bool;
  strength : Q;
  status : OrderBlockStatus
}.

Definition set_status (v : OrderBlockStatus) (ob : t) : t :=
  mk (id ob) (type ob) (top ob) (bottom ob) (start ob) (mitigated ob)
     (strength ob) v.
End OrderBlock.

(* ===================================================================== *)
(** * [src/utils/analytics.ts]: session state *)
(* ===================================================================== *)

Module SessionAnalytics.
Import JS JSNum.
Local Open Scope Q_scope.

(** ** [isInSession] *)



(** ** [determineCVDState] *)

Definition cvdOf (c : Candle.t) : Q := or_num (Candle.cvd c) 0.

Definition determineCVDState (candles : list Candle.t) : result CVDState :=
  if (List.length candles <? 10)%nat then Ok CVD_NEUTRAL
  else
    let recent := slice_last 10 candles in
    let cvdValues := map cvdOf recent in
    (* [first] and [last] are not dereferenced: [undefined] would give a
       NaN slope, for which every comparison below is false. *)
    match at_ cvdValues 0, at_ cvdValues (len cvdValues - 1) with
    | Some first, Some last =>
        let slope := last - first in
        if ltb (Math_abs slope) 1000 then
          let range := Math_max_list cvdValues 0 - Math_min_list cvdValues 0 in
          if ltb range 2000 then Ok CVD_NEUTRAL else Ok CVD_ABSORPTION
        else if gtb slope 0 then
          bind (deref (at_ recent (len recent - 1))) (fun rl =>
          bind (deref (at_ recent 0)) (fun r0 =>
            let priceChange := Candle.close rl - Candle.close r0 in
            if gtb priceChange 0 then Ok CVD_EXPANSION_UP
            else Ok CVD_ABSORPTION))
        else
          bind (deref (at_ recent (len recent - 1))) (fun rl =>
          bind (deref (at_ recent 0)) (fun r0 =>
            let priceChange := Candle.close rl - Candle.close r0 in
            if ltb priceChange 0 then Ok CVD_EXPANSION_DOWN
            else Ok CVD_DISTRIBUTION))
    | _, _ =>
        bind (deref (at_ recent (len recent - 1))) (fun rl =>
        bind (deref (at_ recent 0)) (fun r0 =>
          let priceChange := Candle.close rl - Candle.close r0 in
          if ltb priceChange 0 then Ok CVD_EXPANSION_DOWN
          else Ok CVD_DISTRIBUTION))
    end.

(** ** [calculateSessionLevels] *)

(** The variables the [candles.forEach] callback assigns. *)
Record Levels : Type := mkLevels {
  sessionHigh : xnum;
  sessionLow : xnum;
  ibHigh : xnum;
  ibLow : xnum;
  ibEstablished : bool
}.

Definition ibDuration : Z := (60 * 60 * 1000)%Z.

Definition levels0 : Levels := mkLevels NegInf PosInf NegInf PosInf false.

(** One call of the [candles.forEach] callback. *)
Definition addLevels (start : Z) (a : Levels) (c : Candle.t) : Levels :=
  let sessionHigh' := xmax (sessionHigh a) (Candle.high c) in
  let sessionLow' := xmin (sessionLow a) (Candle.low c) in
  if (Candle.timestamp c <? start + ibDuration)%Z
  then mkLevels sessionHigh' sessionLow'
         (xmax (ibHigh a) (Candle.high c)) (xmin (ibLow a) (Candle.low c))
         (ibEstablished a)
  else mkLevels sessionHigh' sessionLow' (ibHigh a) (ibLow a) true.

(** [x || null] for [x : number | undefined]. *)
Definition or_null (x : option Q) : option Q :=
  match x with
  | Some v => if Qeq_bool v 0 then None else Some v
  | None => None
  end.

Definition calculateSessionLevels (candles : list Candle.t)
    : result SessionLevels.t :=
  match candles with
  | [] => Ok (SessionLevels.mk None None None (Fin 0) (Fin 0))
  | c0 :: _ =>
      let start := Candle.timestamp c0 in
      let a := fold_left (addLevels start) candles levels0 in
      bind (deref (at_ candles (len candles - 1))) (fun last =>
        Ok (SessionLevels.mk
              (if ibEstablished a then Some (ibHigh a) else None)
              (if ibEstablished a then Some (ibLow a) else None)
              (or_null (Candle.vwap last))
              (sessionHigh a) (sessionLow a)))
  end.

End SessionAnalytics.

(* ===================================================================== *)
(** * [src/utils/analytics.ts]: screener metrics and order blocks *)
(* ===================================================================== *)

Module Screener.
Import JS JSNum.
Local Open Scope Q_scope.

(** ** [calculateRSI] *)

(** Body of the [for] loop at index [i]; the state is [(gains, losses)]. *)
Definition rsiStep (candles : list Candle.t) (gl : Q * Q) (i : Z)
    : result (Q * Q) :=
  bind (deref (at_ candles i)) (fun ci =>
  bind (deref (at_ candles (i - 1))) (fun cp =>
    let diff := Candle.close ci - Candle.close cp in
    if geb diff 0 then Ok (fst gl + diff, snd gl)
    else Ok (fst gl, snd gl + Math_abs diff))).

(** [period] is not 0: the only call passes 14.  (With [period = 0] the
    source divides 0 by 0.) *)
Definition calculateRSI (candles : list Candle.t) (period : Z) : result Q :=
  if (len candles <? period + 1)%Z then Ok 50
  else
    bind (for_each (rsiStep candles)
            (upto (len candles - period) (len candles - 1)) (0, 0))
      (fun gl =>
         let avgGain := fst gl / inject_Z period in
         let avgLoss := snd gl / inject_Z period in
         if eqb avgLoss 0 then Ok 100
         else
           let rs := avgGain / avgLoss in
           Ok (100 - 100 / (1 + rs))).

(** ** [calculateScreenerMetrics] *)

(** The context tag and the auction hint for more than 20 candles. *)
Definition contextOf (rsi : Q) (last : Candle.t) (recent : list Candle.t)
    : result (ContextTag * string) :=
  let high20 := Math_max_list (map Candle.high recent) 0 in
  let low20 := Math_min_list (map Candle.low recent) 0 in
  let range20 := high20 - low20 in
  if gtb rsi 70 then Ok (OVEREXTENDED, "Potential Mean Reversion"%string)
  else if gtb (Candle.close last) (high20 - range20 * 0.1) then
    bind (deref (at_ recent 0)) (fun r0 =>
      if gtb (Candle.volume last) (Candle.volume r0 * 2)
      then Ok (BREAKOUT, "Price Discovery Up"%string)
      else Ok (TESTING_HIGH, "Testing Supply"%string))
  else if ltb (Candle.close last) (low20 + range20 * 0.1) then
    bind (deref (at_ recent 0)) (fun r0 =>
      if gtb (Candle.volume last) (Candle.volume r0 * 2)
      then Ok (BREAKDOWN, "Price Discovery Down"%string)
      else Ok (TESTING_LOW, "Testing Demand"%string))
  else
    let vwapApprox := sum (map Candle.close recent) / inject_Z (len recent) in
    if xltb (div (Math_abs (Candle.close last - vwapApprox)) (Candle.close last))
         0.002
    then Ok (AT_VWAP, "Equilibrium"%string)
    else Ok (IN_BALANCE, "Rotational"%string).

Definition calculateScreenerMetrics (symbol : string) (candles : list Candle.t)
    (chg24h : Q) : result ScreenerRow.t :=
  let last := at_ candles (len candles - 1) in
  bind (calculateRSI candles 14) (fun rsi =>
  let trendStrength := Math_abs (rsi - 50) * 2 in
  bind (if (20 <? List.length candles)%nat
        then bind (deref last) (fun l =>
               contextOf rsi l (slice_last 20 candles))
        else Ok (IN_BALANCE, "Balanced"%string))
    (fun ctx =>
  bind (deref last) (fun l =>
    Ok (ScreenerRow.mk symbol (Candle.close l) ACTIVE chg24h 0 0 0 0 0 0 0
          SIG_NONE 0 (fst ctx) 0%Z (snd ctx) 0 0 [] 0 0 trendStrength)))).

(** ** [findOrderBlocks] *)

Definition lookback : Z := 5.

(** Body of the detection loop at index [i]: the blocks pushed. *)
Definition blocksAt (candles : list Candle.t) (blocks : list OrderBlock.t)
    (i : Z) : result (list OrderBlock.t) :=
  bind (deref (at_ candles i)) (fun current =>
  let next := at_ candles (i + 1) in
  let before := slice (i - lookback) i candles in
  bind
    (if ltb (Candle.close current) (Candle.open current) then
       bind (deref next) (fun nx =>
         let moveUp :=
           div (Candle.close nx - Candle.high current) (Candle.high current) in
         let isExplosive := xgtb moveUp 0.005 in
         let breaksStructure :=
           gtb (Candle.close nx) (Math_max_list (map Candle.high before) 0) in
         if isExplosive || breaksStructure
         then Ok (blocks ++
                  [OrderBlock.mk (bullish, Candle.timestamp current) bullish
                     (Candle.high current) (Candle.low current)
                     (Candle.timestamp current) false
                     (if isExplosive then 80 else 50) FRESH])
         else Ok blocks)
     else Ok blocks)
    (fun blocks1 =>
       if gtb (Candle.close current) (Candle.open current) then
         bind (deref next) (fun nx =>
           let moveDown :=
             div (Candle.low current - Candle.close nx) (Candle.low current) in
           let isExplosive := xgtb moveDown 0.005 in
           let breaksStructure :=
             ltb (Candle.close nx) (Math_min_list (map Candle.low before) 0) in
           if isExplosive || breaksStructure
           then Ok (blocks1 ++
                    [OrderBlock.mk (bearish, Candle.timestamp current) bearish
                       (Candle.high current) (Candle.low current)
                       (Candle.timestamp current) false
                       (if isExplosive then 80 else 50) FRESH])
           else Ok blocks1)
       else Ok blocks1)).

(** [ob.status = 'TESTED'] when candle [c] trades into the block. *)
Definition touch (ob : OrderBlock.t) (c : Candle.t) : OrderBlock.t :=
  match OrderBlock.type ob with
  | bullish =>
      if leb (Candle.low c) (OrderBlock.top ob)
         && geb (Candle.close c) (OrderBlock.bottom ob)
      then OrderBlock.set_status TESTED ob else ob
  | bearish =>
      if geb (Candle.high c) (OrderBlock.bottom ob)
         && leb (Candle.close c) (OrderBlock.top ob)
      then OrderBlock.set_status TESTED ob else ob
  end.

(** Candle [c] closes through the block. *)
Definition breaks (ob : OrderBlock.t) (c : Candle.t) : bool :=
  match OrderBlock.type ob with
  | bullish => ltb (Candle.close c) (OrderBlock.bottom ob)
  | bearish => gtb (Candle.close c) (OrderBlock.top ob)
  end.

(** The loop [for (j = idx + 1; j < candles.length; j++)] over the later
    candles: the block as mutated, and the flag [broken]. *)
Fixpoint scanLater (ob : OrderBlock.t) (later : list Candle.t)
    : OrderBlock.t * bool :=
  match later with
  | [] => (ob, false)
  | c :: r =>
      let ob1 := touch ob c in
      if breaks ob1 c then (ob1, true) else scanLater ob1 r
  end.

(** The [filter] callback: [None] when the block is dropped. *)
Definition refine (candles : list Candle.t) (ob : OrderBlock.t)
    : option OrderBlock.t :=
  let idx :=
    findIndex (fun c => (Candle.timestamp c =? OrderBlock.start ob)%Z) candles in
  if (idx =? -1)%Z then None
  else
    let (ob', broken) := scanLater ob (skipn (Z.to_nat (idx + 1)) candles) in
    if broken then None else Some ob'.

Fixpoint refineAll (candles : list Candle.t) (blocks : list OrderBlock.t)
    : list OrderBlock.t :=
  match blocks with
  | [] => []
  | ob :: r =>
      match refine candles ob with
      | Some ob' => ob' :: refineAll candles r
      | None => refineAll candles r
      end
  end.

Definition findOrderBlocks (candles : list Candle.t)
    : result (list OrderBlock.t) :=
  if (List.length candles <? 20)%nat then Ok []
  else
    bind (for_each (blocksAt candles) (upto lookback (len candles - 6)) [])
      (fun blocks => Ok (slice_last 10 (refineAll candles blocks))).

End Screener.

(* ===================================================================== *)
(** * [src/utils/screenerUtils.ts] *)
(* ===================================================================== *)

Module ScreenerUtils.
Import JS.
Local Open Scope Q_scope.

Definition calculateZScore (value mean stdDev : Q) : Q :=
  if eqb stdDev 0 then 0 else (value - mean) / stdDev.

Definition detectSignal (priceChg volZ delta trend : Q) : SignalType * Q :=
  if gtb volZ 2.5 && ltb (Math_abs priceChg) 0.1 then (SIG_ABSORPTION, 85)
  else if gtb volZ 2.0 && gtb delta 0 && gtb priceChg 0.5 then (SIG_AGG_BUY, 90)
  else if gtb volZ 2.0 && ltb delta 0 && ltb priceChg (-0.5)
  then (SIG_AGG_SELL, 90)
  else if gtb (Math_abs priceChg) 2.0 && ltb volZ 1.0 && gtb trend 70
  then (SIG_SQUEEZE, 75)
  else if gtb (Math_abs priceChg) 1.5 && ltb volZ 0.5 then (SIG_VACUUM, 60)
  else (SIG_NONE, 0).

Definition calculateAttentionScore (volZ priceChg fundingRate deltaZ : Q)
    (hasSignal : bool) : Q :=
  let s0 := 0 in
  let s1 := s0 + Math_min (Math_abs volZ * 10) 40 in
  let s2 := s1 + Math_min (Math_abs priceChg * 5) 20 in
  let fundingScore := Math_max 0 ((Math_abs fundingRate - 0.01) * 1000) in
  let s3 := s2 + Math_min fundingScore 20 in
  let s4 := if hasSignal then s3 + 20 else s3 in
  Math_min s4 100.

(** [generateSparkline]: [random i] is the value [Math.random()] returns in
    iteration [i].  [points.unshift(price)] puts the newest point first. *)
Fixpoint sparklineLoop (random : nat -> Q) (volatility : Q) (n : nat) (i : nat)
    (price : Q) (points : list Q) : list Q :=
  match n with
  | O => points
  | S m =>
      sparklineLoop random volatility m (S i)
        (price * (1 + (random i - 0.5) * volatility)) (price :: points)
  end.

Definition generateSparkline (random : nat -> Q) (lastPrice volatility : Q)
    : list Q :=
  sparklineLoop random volatility 20 0 lastPrice [].

End ScreenerUtils.

(* ===================================================================== *)
(** * [src/components/ProfileChart.tsx]: the stability rule *)
(* ===================================================================== *)

Module ProfileChart.
Import JS.
Local Open Scope Q_scope.

(** The two refs of the component. *)
Record Refs : Type := mkRefs {
  stableContext : AuctionContext.t;
  lastStateChange : Z
}.

(** "Apply Stability Rule": one render, [now] is [Date.now()]. *)
Definition applyStabilityRule (instantContext : AuctionContext.t) (now : Z)
    (r : Refs) : Refs :=
  if negb (Analytics.auctionMode_eqb (AuctionContext.mode instantContext)
             (AuctionContext.mode (stableContext r)))
  then
    if (now - lastStateChange r >? 2000)%Z
       || gtb (AuctionContext.confidence instantContext) 80
    then mkRefs instantContext now
    else r
  else mkRefs instantContext (lastStateChange r).

(** One render, from the enriched candles on: [lastPrice] is the close of
    the last candle or 0, the session vwap falls back to [lastPrice], and
    the rule is applied to the context of the last 20 candles. *)
Definition render (candles : list Candle.t) (profile : ProfileMetrics.t)
    (now : Z) (r : Refs) : result Refs :=
  bind (SessionAnalytics.calculateSessionLevels candles) (fun sessionLevels =>
  bind (if (0 <? List.length candles)%nat
        then bind (deref (at_ candles (len candles - 1)))
               (fun c => Ok (Candle.close c))
        else Ok 0)
    (fun lastPrice =>
       let instantContext :=
         Analytics.calculateAuctionContext lastPrice profile
           (or_num (SessionLevels.vwap sessionLevels) lastPrice)
           (slice_last 20 candles) in
       Ok (applyStabilityRule instantContext now r))).

End ProfileChart.

(* ===================================================================== *)
(** * [src/components/OrderFlowDashboard.tsx]: the analytics loop *)
(* ===================================================================== *)

Module OrderFlowDashboard.
Import JS.
Local Open Scope Q_scope.

(** [new Map(enriched.map(l => [l.price, l]))]: later entries overwrite
    earlier ones under the same key. *)
Definition snapshotMap (enriched : list EnrichedLevel.t)
    : list (Q * EnrichedLevel.t) :=
  fold_left (fun m l => JSMap.set Qeq_bool (EnrichedLevel.price l) l m)
    enriched [].

End OrderFlowDashboard.

(* ===================================================================== *)
(** * The application shell: screener rows and the candle feed *)
(* ===================================================================== *)

Module App.
Import JS.
Local Open Scope Q_scope.

(** ** [enrichRowData] *)

(** The k-th and later values of a stream of [Math.random()] results. *)
Definition randomFrom (k : nat) (random : nat -> Q) : nat -> Q :=
  fun i => random (i + k)%nat.

(** [signalStartMap] maps a symbol to the type and the start time of its
    signal.  [now] is [Date.now()], and [random i] is the value of the
    i-th call of [Math.random()]: one for the simulated delta, one more
    when a fresh signal gets a demo duration, then those of
    [generateSparkline]. *)
Definition enrichRowData (row : ScreenerRow.t) (now : Z) (random : nat -> Q)
    (signalStartMap : list (string * (SignalType * Z)))
    : ScreenerRow.t * list (string * (SignalType * Z)) :=
  let volMean := ScreenerRow.vol24h row / 1440 in
  let volZ :=
    ScreenerUtils.calculateZScore (ScreenerRow.tfVolume row) volMean
      (volMean * 0.5) in
  let fundingMean := 0.01 in
  let fundingZ :=
    ScreenerUtils.calculateZScore (ScreenerRow.fundingRate row * 100)
      fundingMean 0.01 in
  let delta1m :=
    ScreenerRow.vol24h row * 0.0001
    * (if gtb (ScreenerRow.tfChange row) 0 then 1 else -1) * random 0%nat * 5 in
  let '(type, confidence) :=
    ScreenerUtils.detectSignal (ScreenerRow.tfChange row) volZ delta1m
      (ScreenerRow.trendStrength row) in
  let isNone := match type with SIG_NONE => true | _ => false end in
  let existing := JSMap.get String.eqb (ScreenerRow.symbol row) signalStartMap in
  let '(duration, signalStartMap') :=
    if negb isNone then
      match existing with
      | Some (t0, startTime) =>
          if match t0, type with
             | SIG_NONE, SIG_NONE | SIG_AGG_BUY, SIG_AGG_BUY
             | SIG_AGG_SELL, SIG_AGG_SELL | SIG_ABSORPTION, SIG_ABSORPTION
             | SIG_ICEBERG, SIG_ICEBERG | SIG_VACUUM, SIG_VACUUM
             | SIG_SQUEEZE, SIG_SQUEEZE => true
             | _, _ => false
             end
          then (((now - startTime) / 60000)%Z, signalStartMap)
          else (0%Z,
                JSMap.set String.eqb (ScreenerRow.symbol row) (type, now)
                  signalStartMap)
      | None =>
          (0%Z,
           JSMap.set String.eqb (ScreenerRow.symbol row) (type, now)
             signalStartMap)
      end
    else
      match existing with
      | Some _ =>
          (0%Z, JSMap.delete String.eqb (ScreenerRow.symbol row) signalStartMap)
      | None => (0%Z, signalStartMap)
      end in
  let override := negb isNone && (duration =? 0)%Z in
  let duration' :=
    if override then Math_floor (random 1%nat * 10) else duration in
  let used := if override then 2%nat else 1%nat in
  let attention :=
    ScreenerUtils.calculateAttentionScore volZ (ScreenerRow.tfChange row)
      (ScreenerRow.fundingRate row) 0 (negb isNone) in
  let '(attention', effectiveConfidence) :=
    match ScreenerRow.status row with
    | WARMING_UP => (Math_min attention 40, Math_min confidence 50)
    | INITIALIZING => (0, 0)
    | _ => (attention, confidence)
    end in
  (ScreenerRow.mk (ScreenerRow.symbol row) (ScreenerRow.price row)
     (ScreenerRow.status row) (ScreenerRow.chg24h row) (ScreenerRow.vol24h row)
     (ScreenerRow.tfChange row) (ScreenerRow.tfVolume row) attention' volZ
     delta1m 0 type effectiveConfidence (ScreenerRow.contextTag row) duration'
     (ScreenerRow.auctionStateHint row) (ScreenerRow.fundingRate row) fundingZ
     (if (0 <? List.length (ScreenerRow.sparkline row))%nat
      then ScreenerRow.sparkline row
      else ScreenerUtils.generateSparkline (randomFrom used random)
             (ScreenerRow.price row) 0.005)
     (ScreenerRow.weekChange row) (ScreenerRow.netInflow row)
     (ScreenerRow.trendStrength row),
   signalStartMap').

(** ** The candle feed *)



End App.


(* ===================================================================== *)
(** * [src/components/OrderBookDelta.tsx]: the raw accumulation *)
(* ===================================================================== *)

Module OrderBookDelta.
Import JS.
Local Open Scope Q_scope.




End OrderBookDelta.


(* ===================================================================== *)
(** * Predicates used in the statements *)
(* ===================================================================== *)

(** Order of two profile levels by price. *)
Definition price_le (a b : ProfileLevel.t) : Prop :=
  (ProfileLevel.price a <= ProfileLevel.price b)%Q.

(** Invariant of the value-area loop once the point of control has an
    index: both indices are in range and enclose it. *)
Definition va_inv (levels : list ProfileLevel.t) (pocIndex : Z)
    (s : Analytics.VA) : Prop :=
  (0 <= Analytics.lowerIndex s)%Z
  /\ (Analytics.lowerIndex s <= pocIndex)%Z
  /\ (pocIndex <= Analytics.upperIndex s)%Z
  /\ (Analytics.upperIndex s < JS.len levels)%Z.








(** One call of [process]: its arguments and the values it reads from
    [Date.now()] and [Math.random()]. *)
Record Tick : Type := mkTick {
  tick_bids : list EnrichedLevel.t;
  tick_asks : list EnrichedLevel.t;
  tick_lastPrice : Q;
  tick_now : Z;
  tick_random : Q
}.

(** The event map of call [c] after its detection phase. *)
Definition detectedAt (g : EventEngine.Engine) (c : Tick)
    : list (Side * Q * PersistentEvent.t) :=
  EventEngine.detected g (tick_bids c) (tick_asks c) (tick_lastPrice c)
    (tick_now c).

(** The engine after call [c], and after a sequence of calls. *)
Definition after (g : EventEngine.Engine) (c : Tick) : EventEngine.Engine :=
  fst (EventEngine.process g (tick_bids c) (tick_asks c) (tick_lastPrice c)
         (tick_now c) (tick_random c)).

Definition afterAll (g : EventEngine.Engine) (cs : list Tick)
    : EventEngine.Engine :=
  fold_left after cs g.

(** During call [c] the event under [key], at price [p], goes from a state
    other than FAIL to FAIL. *)
Definition failsIn (g : EventEngine.Engine) (c : Tick) (key : Side * Q)
    (p : Q) : Prop :=
  exists e e',
    JSMap.get EventEngine.id_eqb key (detectedAt g c) = Some e
    /\ PersistentEvent.state e <> FAIL
    /\ PersistentEvent.price e = p
    /\ JSMap.get EventEngine.id_eqb key (EventEngine.events (after g c)) = Some e'
    /\ PersistentEvent.state e' = FAIL.

(** The engines a program can hold: built by the constructor, then driven
    by [setWindow] and [process]. *)
Inductive reachable : EventEngine.Engine -> Prop :=
| reach_new : reachable EventEngine.new_EventEngine
| reach_setWindow (w : PersistenceWindow) (g : EventEngine.Engine) :
    reachable g -> reachable (EventEngine.setWindow w g)
| reach_process (g : EventEngine.Engine) (c : Tick) :
    reachable g -> reachable (after g c).

(** The deprecated flag agrees with the state: an event marked failed is
    in FAIL or in BROKEN. *)
Definition consistent (e : PersistentEvent.t) : Prop :=
  PersistentEvent.isFailed e = true ->
  PersistentEvent.state e = FAIL \/ PersistentEvent.state e = BROKEN.

(** Quantity of the trades at price [p] that hit [side]: sells for the
    bids ([isBuyerMaker]), buys for the asks. *)
Definition hits (side : Side) (p : Q) (t : Trade.t) : bool :=
  ((side_eqb side bid && Trade.isBuyerMaker t)
   || (side_eqb side ask && negb (Trade.isBuyerMaker t)))
  && Qeq_bool p (Trade.price t).

Definition hitVolume (side : Side) (p : Q) (trades : list Trade.t) : Q :=
  fold_right Qplus 0 (map Trade.qty (filter (hits side p) trades)).

(** The record of a failed zone: the type FAIL goes with the state FAIL,
    and a zone in FAIL carries the flag, a confidence of 70 to 100, the
    time of the failure and the pull ratio. *)
Definition failRecord (e : PersistentEvent.t) : Prop :=
  (PersistentEvent.type e = T_FAIL -> PersistentEvent.state e = FAIL)
  /\ (PersistentEvent.state e = BROKEN -> PersistentEvent.isFailed e = true)
  /\ (PersistentEvent.state e = FAIL ->
      PersistentEvent.type e = T_FAIL
      /\ PersistentEvent.isFailed e = true
      /\ (70 <= PersistentEvent.failConfidence e)%Q
      /\ (PersistentEvent.failConfidence e <= 100)%Q
      /\ PersistentEvent.failTime e <> None
      /\ PersistentEvent.remDropRatio e <> None).

(** An event is on the side of the market it rests on: a bid at or below
    the last price, an ask at or above it. *)
Definition notBehind (lastPrice : Q) (e : PersistentEvent.t) : Prop :=
  match PersistentEvent.side e with
  | bid => (PersistentEvent.price e <= lastPrice)%Q
  | ask => (lastPrice <= PersistentEvent.price e)%Q
  end.

(** The events [process] returns on call [c]. *)
Definition returned (g : EventEngine.Engine) (c : Tick)
    : list PersistentEvent.t :=
  snd (EventEngine.process g (tick_bids c) (tick_asks c) (tick_lastPrice c)
         (tick_now c) (tick_random c)).

(** The engines a program can hold when its clock never runs backwards:
    [T] is the time of the last call of [process]. *)
Inductive reachableAt : Z -> EventEngine.Engine -> Prop :=
| at_new (T : Z) : reachableAt T EventEngine.new_EventEngine
| at_setWindow (T : Z) (w : PersistenceWindow) (g : EventEngine.Engine) :
    reachableAt T g -> reachableAt T (EventEngine.setWindow w g)
| at_process (T : Z) (g : EventEngine.Engine) (c : Tick) :
    reachableAt T g -> (T <= tick_now c)%Z ->
    reachableAt (tick_now c) (after g c).


(** A raw entry updated within the time window. *)
Definition fresh (now timeWindow : Z) (kv : Q * ZoneRaw.t) : bool :=
  negb (ZoneRaw.lastUpdate (snd kv) <? now - timeWindow)%Z.

(** Order of two zones from the higher [priceStart] to the lower. *)
Definition priceStart_ge (a b : SmartZone.t) : Prop :=
  (SmartZone.priceStart b <= SmartZone.priceStart a)%Q.

(** The engine after [updateVolatility] was called with each price of a
    list, in order. *)
Definition fed (Math_sqrt : Q -> Q) (prices : list Q) : SmartGrouping.Engine :=
  fold_left (fun g p => SmartGrouping.updateVolatility Math_sqrt p g) prices
    SmartGrouping.new_SmartGroupingEngine.


(** The fields that no stage of the state machine assigns. *)
Definition sameCore (e e' : PersistentEvent.t) : Prop :=
  PersistentEvent.id e' = PersistentEvent.id e
  /\ PersistentEvent.price e' = PersistentEvent.price e
  /\ PersistentEvent.side e' = PersistentEvent.side e
  /\ PersistentEvent.firstDetected e' = PersistentEvent.firstDetected e
  /\ PersistentEvent.lastConfirmed e' = PersistentEvent.lastConfirmed e
  /\ PersistentEvent.volume e' = PersistentEvent.volume e
  /\ PersistentEvent.peakVolume e' = PersistentEvent.peakVolume e
  /\ PersistentEvent.confirmations e' = PersistentEvent.confirmations e
  /\ PersistentEvent.failedPushes e' = PersistentEvent.failedPushes e.


(** The raw fields of a candle, and the delta computed from them. *)
Definition rawFields (c : Candle.t) : Z * Q * Q * Q * Q * Q * Q * option bool :=
  (Candle.timestamp c, Candle.open c, Candle.high c, Candle.low c,
   Candle.close c, Candle.volume c, Candle.takerBuyVolume c, Candle.isClosed c).

(** In a list of values, index [i] holds a value above (for [gt]) or below
    both its neighbours. *)
Definition isPivot (above : Q -> Q -> Prop) (values : list Q) (i : Z) : Prop :=
  exists v b a,
    JS.at_ values i = Some v
    /\ JS.at_ values (i - 1) = Some b
    /\ JS.at_ values (i + 1) = Some a
    /\ above v b /\ above v a.

(** Candle [c'] carries a divergence mark that index [i] of [l] earns:
    bearish on a pivot high, bullish on a pivot low. *)
Definition markedAt (l : list Candle.t) (i : Z) (c' : Candle.t) : Prop :=
  (Candle.divergence c' = Some (Some bearish)
   /\ isPivot (fun v w => (w < v)%Q) (map Candle.high l) i)
  \/ (Candle.divergence c' = Some (Some bullish)
      /\ isPivot (fun v w => (v < w)%Q) (map Candle.low l) i).

(** The state of the scan after some candles: the session range is finite
    and bounds them, it is attained, and so is the range of those within
    the first hour. *)
Definition scanned (start : Z) (seen : list Candle.t)
    (a : SessionAnalytics.Levels) : Prop :=
  exists hi lo ihi ilo,
    SessionAnalytics.sessionHigh a = JS.Fin hi
    /\ SessionAnalytics.sessionLow a = JS.Fin lo
    /\ SessionAnalytics.ibHigh a = JS.Fin ihi
    /\ SessionAnalytics.ibLow a = JS.Fin ilo
    /\ (forall c, In c seen -> (Candle.high c <= hi /\ lo <= Candle.low c)%Q)
    /\ (exists c, In c seen /\ (hi == Candle.high c)%Q)
    /\ (exists c, In c seen /\ (lo == Candle.low c)%Q)
    /\ (forall c, In c seen ->
                  (Candle.timestamp c < start + SessionAnalytics.ibDuration)%Z ->
                  (Candle.high c <= ihi /\ ilo <= Candle.low c)%Q)
    /\ (ihi <= hi)%Q /\ (lo <= ilo)%Q
    /\ (SessionAnalytics.ibEstablished a = true <->
        exists c, In c seen
                  /\ (start + SessionAnalytics.ibDuration
                      <= Candle.timestamp c)%Z).


(** Everything of an order block but its status. *)
Definition blockCore (ob : OrderBlock.t)
    : Divergence * Z * Divergence * Q * Q * Z * bool * Q :=
  (OrderBlock.id ob, OrderBlock.type ob, OrderBlock.top ob,
   OrderBlock.bottom ob, OrderBlock.start ob, OrderBlock.mitigated ob,
   OrderBlock.strength ob).

(** The block was cut from a candle of the array: a red candle for a
    bullish block, a green one for a bearish block. *)
Definition cutFrom (candles : list Candle.t) (ob : OrderBlock.t) : Prop :=
  exists c,
    In c candles
    /\ Candle.timestamp c = OrderBlock.start ob
    /\ OrderBlock.top ob = Candle.high c
    /\ OrderBlock.bottom ob = Candle.low c
    /\ OrderBlock.id ob = (OrderBlock.type ob, OrderBlock.start ob)
    /\ OrderBlock.mitigated ob = false
    /\ (OrderBlock.strength ob = 80%Q \/ OrderBlock.strength ob = 50%Q)
    /\ match OrderBlock.type ob with
       | bullish => (Candle.close c < Candle.open c)%Q
       | bearish => (Candle.open c < Candle.close c)%Q
       end.

(** No candle after the first one with the block's timestamp closes
    through the block. *)
Definition unbroken (candles : list Candle.t) (ob : OrderBlock.t) : Prop :=
  let idx :=
    JS.findIndex (fun c => (Candle.timestamp c =? OrderBlock.start ob)%Z)
      candles in
  idx <> (-1)%Z
  /\ forall c, In c (skipn (Z.to_nat (idx + 1)) candles) ->
               Screener.breaks ob c = false.

(** A block as the detection loop pushes it. *)
Definition freshBlock (candles : list Candle.t) (ob : OrderBlock.t) : Prop :=
  OrderBlock.status ob = FRESH /\ cutFrom candles ob.



(* ===================================================================== *)
(** * Concrete inputs used by the examples *)
(* ===================================================================== *)

Module Samples.
Local Open Scope Q_scope.

(** A candle at time [ts] trading between [lo] and [hi]. *)
Definition candle (ts : Z) (lo hi vol takerBuy : Q) : Candle.t :=
  Candle.mk ts lo hi lo hi vol takerBuy None None None None None None.

Definition fourCandles : list Candle.t :=
  let c := candle 0 1 2 10 5 in [c; c; c; c].

(** A previous snapshot holding price 100 only, and a new snapshot that
    keeps 100 and adds 101. *)
Definition prevSnapshot : list (Q * EnrichedLevel.t) :=
  [(100, EnrichedLevel.mk 100 50 0 0 bid 50 0 0 0 false 0 false 3%Z)].

Definition newSnapshot : list OrderBookLevel.t :=
  [OrderBookLevel.mk 100 2 0 0; OrderBookLevel.mk 101 1 0 0].

(** Three levels whose outer two carry the same volume. *)
Definition tieLevels : list ProfileLevel.t :=
  [ProfileLevel.mk 1 10 None None;
   ProfileLevel.mk 2 30 None None;
   ProfileLevel.mk 3 10 None None].

(** Candles that build [tieLevels] with tick size 1: 30 spread over ticks
    1 to 3, and 20 more on tick 2. *)
Definition tieCandles : list Candle.t :=
  [candle 0 1.5 3.5 30 15; candle 60000 2.5 2.5 20 10].

(** Candles whose lowest tick is tick 0: 30 spread over ticks 0 to 2, and
    1 more on tick 1. *)
Definition zeroTickCandles : list Candle.t :=
  [candle 0 0.5 2.5 30 15; candle 60000 1.5 1.5 1 1].

(** Three one-tick candles at ticks 1, 2 and 3; the middle one did not
    trade. *)
Definition idleCandles : list Candle.t :=
  [candle 0 1.5 1.5 10 5; candle 60000 2.5 2.5 0 0; candle 120000 3.5 3.5 10 5].

(** 2024-01-05T00:00:00Z and 2024-02-05T00:00:00Z. *)
Definition jan5 : Z := 1704412800000.
Definition feb5 : Z := 1707091200000.

(** One candle on each of the two days; the deltas are 4 and 2. *)
Definition monthApart : list Candle.t :=
  [candle jan5 1 1 10 7; candle feb5 1 1 10 6].

(** A bid stack at 50000 first seen and last confirmed at time 0, and the
    same level detected again at time 100000. *)
Definition oldStack : PersistentEvent.t :=
  PersistentEvent.mk (bid, 50000) T_STACK 50000 bid STACK 0%Z 0%Z None
    4 4 60 1%Z 0%Z 0 None true false false.

Definition stackLevel : EnrichedLevel.t :=
  EnrichedLevel.mk 50000 4 0 0 bid 4 0 0 0 false 0 false 6%Z.

(** An iceberg on the bid side at price [p] showing quantity [q]. *)
Definition iceberg (p q : Q) : EnrichedLevel.t :=
  EnrichedLevel.mk p q 0 0 bid q 0 q 0 true q false 0%Z.

(** Time 1000: icebergs of 10 at 50000 and 50005, last price above both. *)
Definition firstTick : Tick :=
  mkTick [iceberg 50000 10; iceberg 50005 10] [] 50010 1000 0.

Definition engine1 : EventEngine.Engine :=
  after EventEngine.new_EventEngine firstTick.

(** Time 30000: the last price is 49000, below both levels by more than
    0.03%; the events are 29 s old. *)
Definition earlyBreach : Tick := mkTick [] [] 49000 30000 0.

(** Time 400000: both icebergs are down to 1 and the last price is 49000;
    the events are 399 s old. *)
Definition lateBreach : Tick :=
  mkTick [iceberg 50000 1; iceberg 50005 1] [] 49000 400000 0.

(** Time 500000, within 300 s of [lateBreach]. *)
Definition quietTick : Tick := mkTick [] [] 49000 500000 0.


(** A previous snapshot holding 100 at price 100, and the level that
    [analyzeDOM] returns for price 100 of [newSnapshot]: 98 were pulled
    without a trade. *)
Definition bigSnapshot : list (Q * EnrichedLevel.t) :=
  [(100, EnrichedLevel.mk 100 100 0 0 bid 100 0 0 0 false 0 false 3%Z)].

Definition pulledLevel : EnrichedLevel.t :=
  EnrichedLevel.mk 100 2 0 0 bid (0 + 2) (2 - 100 + 0) 0 0 false 0 true 4%Z.

(** Two sells and one buy at price 100, and the level that [analyzeDOM]
    returns for the bid at 100 of [newSnapshot] after them. *)
Definition threeTrades : list Trade.t :=
  [Trade.mk 1 100 3 0 true false; Trade.mk 2 100 4 0 false false;
   Trade.mk 3 100 5 0 true false].

Definition hitLevel : EnrichedLevel.t :=
  hd pulledLevel
    (DomAnalytics.analyzeDOM newSnapshot prevSnapshot threeTrades bid).

(** The event of the iceberg at 50000 after [lateBreach]: it is in FAIL. *)
Definition failedIceberg : PersistentEvent.t :=
  hd oldStack
    (snd (EventEngine.process engine1 (tick_bids lateBreach)
            (tick_asks lateBreach) (tick_lastPrice lateBreach)
            (tick_now lateBreach) (tick_random lateBreach))).

(** Time 450000, within 120 s of [lateBreach]: the iceberg at 50000 shows
    10 again, and the event under its key after the call. *)
Definition reloadTick : Tick := mkTick [iceberg 50000 10] [] 49000 450000 0.

Definition stillFailed : PersistentEvent.t :=
  match JSMap.get EventEngine.id_eqb (bid, 50000)
          (EventEngine.events (after (after engine1 lateBreach) reloadTick)) with
  | Some e => e
  | None => oldStack
  end.

(** The event of the iceberg at 50000 in [engine1]. *)
Definition freshIceberg : PersistentEvent.t :=
  match JSMap.get EventEngine.id_eqb (bid, 50000)
          (EventEngine.events engine1) with
  | Some e => e
  | None => oldStack
  end.






(** Seven candles with highs 1, 3, 1, 1, 5, 1, 1 and equal lows: the high
    of candle 4 exceeds the pivot high of candle 1 on a lower delta. *)
Definition divergentCandles : list Candle.t :=
  [candle 0 0 1 10 5; candle 60000 0 3 10 9; candle 120000 0 1 10 5;
   candle 180000 0 1 10 5; candle 240000 0 5 10 5; candle 300000 0 1 10 5;
   candle 360000 0 1 10 5].

Definition divergentCandle : Candle.t :=
  nth 4 (Analytics.enrichCandlesWithContext (fun x => x) divergentCandles)
    (candle 0 0 0 0 0).



(** Ten candles whose cvd climbs from 0 to 1800 while the close climbs
    from 1 to 10. *)
Definition trending (i : Z) : Candle.t :=
  Candle.mk (i * 60000) (inject_Z i) (inject_Z i + 1) (inject_Z i)
    (inject_Z i + 1) 10 5 None None (Some (inject_Z (i * 200))) None None None.

Definition tenCandles : list Candle.t := map trending (JS.upto 0 9).

(** Two candles 90 minutes apart. *)
Definition twoSessions : list Candle.t :=
  [candle 0 1 2 10 5; candle 5400000 3 4 10 5].

(** The enriched levels of a previous run of the analytics loop, and the
    level the next run returns for the bid at 100 of [newSnapshot]. *)
Definition prevEnriched : list EnrichedLevel.t :=
  [EnrichedLevel.mk 100 50 0 0 bid 50 0 0 0 false 0 false 3%Z].

Definition agedLevel : EnrichedLevel.t :=
  hd pulledLevel
    (DomAnalytics.analyzeDOM newSnapshot
       (OrderFlowDashboard.snapshotMap prevEnriched) [] bid).


End Samples.

(* ===================================================================== *)
(** * Properties *)
(* ===================================================================== *)

(** ** Comparisons *)

Section Comparisons.
Local Open Scope Q_scope.

Lemma ltb_lt (a b : Q) : JS.ltb a b = true <-> a < b.
Proof.
  unfold JS.ltb. rewrite negb_true_iff.
  split; intro H.
  - apply Qnot_le_lt. intro L. apply Qle_bool_iff in L. congruence.
  - destruct (Qle_bool b a) eqn:E; [|reflexivity].
    apply Qle_bool_iff in E. exfalso. apply (Qlt_not_le _ _ H E).
Qed.

Lemma ltb_ge (a b : Q) : JS.ltb a b = false <-> b <= a.
Proof.
  unfold JS.ltb. rewrite negb_false_iff. apply Qle_bool_iff.
Qed.

Lemma gtb_gt (a b : Q) : JS.gtb a b = true <-> b < a.
Proof. unfold JS.gtb. apply ltb_lt. Qed.

Lemma gtb_le (a b : Q) : JS.gtb a b = false <-> a <= b.
Proof. unfold JS.gtb. apply ltb_ge. Qed.


Lemma geb_ge (a b : Q) : JS.geb a b = true <-> b <= a.
Proof. unfold JS.geb. apply Qle_bool_iff. Qed.

Lemma eqb_eq (a b : Q) : JS.eqb a b = true <-> a == b.
Proof. unfold JS.eqb. apply Qeq_bool_iff. Qed.

Lemma ltb_trans_le (a b c : Q) : JS.ltb a b = true -> b <= c -> JS.ltb a c = true.
Proof.
  rewrite !ltb_lt. intros H1 H2. eapply Qlt_le_trans; eassumption.
Qed.

End Comparisons.

(** ** Arrays *)

Section Arrays.
Context {A : Type}.

Lemma at_Some (l : list A) (i : Z) (x : A) :
  JS.at_ l i = Some x -> (0 <= i < JS.len l)%Z.
Proof.
  unfold JS.at_, JS.len. destruct (i <? 0)%Z eqn:E; [discriminate|].
  apply Z.ltb_ge in E. intro H.
  assert (Z.to_nat i < length l)%nat by (apply nth_error_Some; congruence).
  lia.
Qed.

Lemma at_in_range (l : list A) (i : Z) :
  (0 <= i < JS.len l)%Z -> exists x, JS.at_ l i = Some x.
Proof.
  unfold JS.at_, JS.len. intros [H0 H1].
  destruct (i <? 0)%Z eqn:E; [apply Z.ltb_lt in E; lia|].
  destruct (nth_error l (Z.to_nat i)) eqn:N; [eauto|].
  apply nth_error_None in N. lia.
Qed.

Lemma at_of_nat (l : list A) (n : nat) :
  JS.at_ l (Z.of_nat n) = nth_error l n.
Proof.
  unfold JS.at_. destruct (Z.of_nat n <? 0)%Z eqn:E.
  - apply Z.ltb_lt in E. lia.
  - now rewrite Nat2Z.id.
Qed.

Variable cmp : A -> A -> Q.

Lemma insert_length (x : A) (l : list A) :
  length (JS.insert cmp x l) = S (length l).
Proof.
  induction l as [|y r IH]; simpl; [reflexivity|].
  destruct (Qle_bool (cmp x y) 0); simpl; [reflexivity|].
  now rewrite IH.
Qed.

Lemma sort_length (l : list A) : length (JS.sort cmp l) = length l.
Proof.
  induction l as [|x r IH]; simpl; [reflexivity|].
  now rewrite insert_length, IH.
Qed.

Lemma insert_In (x y : A) (l : list A) :
  In y (JS.insert cmp x l) <-> y = x \/ In y l.
Proof.
  induction l as [|z r IH]; simpl.
  - intuition.
  - destruct (Qle_bool (cmp x z) 0); simpl; [intuition|].
    rewrite IH. intuition.
Qed.

Lemma sort_In (y : A) (l : list A) : In y (JS.sort cmp l) <-> In y l.
Proof.
  induction l as [|x r IH]; simpl; [reflexivity|].
  rewrite insert_In, IH. intuition.
Qed.

End Arrays.

(** ** C9: [calculateAuctionContext] with fewer than five candles *)

(** C9.  With fewer than 5 recent candles, and whatever the last price, the
    profile and the VWAP are, [calculateAuctionContext] returns the neutral
    default: mode BALANCED, confidence 0, scenario "Gathering data...",
    bias neutral. *)
Theorem calculateAuctionContext_gathering_data :
  forall (lastPrice : Q) (profile : ProfileMetrics.t) (vwap : Q)
         (recentCandles : list Candle.t),
    (length recentCandles < 5)%nat ->
    Analytics.calculateAuctionContext lastPrice profile vwap recentCandles
    = AuctionContext.mk BALANCED 0 "Gathering data..." bias_neutral.
Proof.
  intros lastPrice profile vwap recentCandles H.
  unfold Analytics.calculateAuctionContext.
  apply Nat.ltb_lt in H. rewrite H. reflexivity.
Qed.

Lemma calculateAuctionContext_gathering_data_witness :
  (length Samples.fourCandles < 5)%nat /\
  Analytics.calculateAuctionContext 7 Analytics.emptyProfile 3
    Samples.fourCandles
  = AuctionContext.mk BALANCED 0 "Gathering data..." bias_neutral.
Proof.
  split.
  - simpl. lia.
  - apply (calculateAuctionContext_gathering_data 7 Analytics.emptyProfile 3
             Samples.fourCandles).
    simpl. lia.
Defined.

(** ** C10: [analyzeDOM] on a price absent from the previous snapshot *)

Lemma enrichLevel_new_price side prevLevels tradeMap cumulative level :
  JSMap.get Qeq_bool (OrderBookLevel.price level) prevLevels = None ->
  EnrichedLevel.isSpoof
    (snd (DomAnalytics.enrichLevel side prevLevels tradeMap cumulative level))
  = false.
Proof.
  intro H. unfold DomAnalytics.enrichLevel. rewrite H. reflexivity.
Qed.

Lemma enrichLevel_price side prevLevels tradeMap cumulative level :
  EnrichedLevel.price
    (snd (DomAnalytics.enrichLevel side prevLevels tradeMap cumulative level))
  = OrderBookLevel.price level.
Proof.
  unfold DomAnalytics.enrichLevel.
  destruct (JSMap.get Qeq_bool (OrderBookLevel.price level) prevLevels);
    reflexivity.
Qed.

Lemma enrichLevels_nth side prevLevels tradeMap :
  forall newLevels cumulative i level,
    nth_error newLevels i = Some level ->
    exists c,
      nth_error
        (DomAnalytics.enrichLevels side prevLevels tradeMap cumulative newLevels) i
      = Some (snd (DomAnalytics.enrichLevel side prevLevels tradeMap c level)).
Proof.
  induction newLevels as [|l r IH]; intros cumulative i level H.
  - destruct i; discriminate.
  - simpl.
    destruct (DomAnalytics.enrichLevel side prevLevels tradeMap cumulative l)
      as [c e] eqn:E.
    destruct i as [|i]; simpl in *.
    + inversion H; subst. exists cumulative. now rewrite E.
    + apply IH. exact H.
Qed.

(** C10.  A level of the new snapshot whose price has no entry in the
    previous enriched map comes out of [analyzeDOM] with [isSpoof = false],
    for every trade list and either side. *)
Theorem analyzeDOM_new_price_not_spoof :
  forall (newLevels : list OrderBookLevel.t)
         (prevLevels : list (Q * EnrichedLevel.t))
         (recentTrades : list Trade.t) (side : Side)
         (i : nat) (level : OrderBookLevel.t),
    nth_error newLevels i = Some level ->
    JSMap.get Qeq_bool (OrderBookLevel.price level) prevLevels = None ->
    exists e,
      nth_error (DomAnalytics.analyzeDOM newLevels prevLevels recentTrades side) i
      = Some e
      /\ EnrichedLevel.price e = OrderBookLevel.price level
      /\ EnrichedLevel.isSpoof e = false.
Proof.
  intros newLevels prevLevels recentTrades side i level Hnth Hnew.
  unfold DomAnalytics.analyzeDOM.
  destruct (enrichLevels_nth side prevLevels
              (DomAnalytics.aggregateTrades side recentTrades)
              newLevels 0 i Hnth) as [c Hc].
  eexists. split; [exact Hc|]. split.
  - apply enrichLevel_price.
  - now apply enrichLevel_new_price.
Qed.

Lemma analyzeDOM_new_price_not_spoof_witness :
  exists e,
    nth_error
      (DomAnalytics.analyzeDOM Samples.newSnapshot Samples.prevSnapshot [] bid) 1
    = Some e
    /\ EnrichedLevel.price e = 101
    /\ EnrichedLevel.isSpoof e = false.
Proof.
  apply (analyzeDOM_new_price_not_spoof Samples.newSnapshot
           Samples.prevSnapshot [] bid 1
           (level := OrderBookLevel.mk 101 1 0 0)); reflexivity.
Defined.

(** ** C8: stricter noise filters never return more zones *)

Section Strictness.
Local Open Scope Q_scope.

Lemma retain_length (threshold : Q) :
  forall (l processed : list SmartZone.t),
    length (fold_left (SmartGrouping.retain threshold) l processed)
    = (length processed
       + length (filter (fun z => JS.ltb (SmartZone.noiseScore z) threshold) l))%nat.
Proof.
  induction l as [|z r IH]; intro processed; simpl.
  - lia.
  - rewrite IH. unfold SmartGrouping.retain.
    destruct (JS.ltb (SmartZone.noiseScore z) threshold); simpl.
    + rewrite length_app. simpl. lia.
    + lia.
Qed.

Lemma filter_length_le {A : Type} (p q : A -> bool) (l : list A) :
  (forall x, p x = true -> q x = true) ->
  (length (filter p l) <= length (filter q l))%nat.
Proof.
  intro Hpq. induction l as [|x r IH]; simpl; [lia|].
  destruct (p x) eqn:P.
  - rewrite (Hpq x P). simpl. lia.
  - destruct (q x); simpl; lia.
Qed.

Lemma aggregateZones_length_le g rawMap groupSize timeWindow lastPrice now
    (strict loose : NoiseFilterLevel) :
  SmartGrouping.noiseThreshold g strict <= SmartGrouping.noiseThreshold g loose ->
  (length (SmartGrouping.aggregateZones g rawMap groupSize timeWindow strict
             lastPrice now)
   <= length (SmartGrouping.aggregateZones g rawMap groupSize timeWindow loose
                lastPrice now))%nat.
Proof.
  intro Hle. unfold SmartGrouping.aggregateZones.
  rewrite !sort_length, !retain_length. simpl.
  apply filter_length_le.
  intros z Hz. eapply ltb_trans_le; eassumption.
Qed.

End Strictness.

(** C8.  For the same raw map, group size, time window, last price, clock
    and engine volatility, [aggregateZones] returns at most as many zones
    with HIGH as with MEDIUM, and at most as many with MEDIUM as with
    LOW. *)
Theorem aggregateZones_strictness_monotone :
  forall (g : SmartGrouping.Engine) (rawMap : list (Q * ZoneRaw.t))
         (groupSize : Q) (timeWindow : Z) (lastPrice : Q) (now : Z),
    (length (SmartGrouping.aggregateZones g rawMap groupSize timeWindow HIGH
               lastPrice now)
     <= length (SmartGrouping.aggregateZones g rawMap groupSize timeWindow MEDIUM
                  lastPrice now))%nat
    /\
    (length (SmartGrouping.aggregateZones g rawMap groupSize timeWindow MEDIUM
               lastPrice now)
     <= length (SmartGrouping.aggregateZones g rawMap groupSize timeWindow LOW
                  lastPrice now))%nat.
Proof.
  intros. split; apply aggregateZones_length_le; simpl; discriminate.
Qed.

(** ** C3: the tie-break of the value-area expansion *)

(** C3, as stated, fails.  With neighbours of equal volume 10 on both
    sides of the level at index 1, the step keeps [upperIndex] and lowers
    [lowerIndex]; on the candles that build these levels the value area
    comes out as [1, 2], not [2, 3]. *)
Lemma va_step_tie_takes_lower :
  Analytics.nextUpper Samples.tieLevels (Analytics.mkVA 1 1 30) = JS.Ok 10%Q
  /\ Analytics.nextLower Samples.tieLevels (Analytics.mkVA 1 1 30) = JS.Ok 10%Q
  /\ Analytics.va_step Samples.tieLevels (Analytics.mkVA 1 1 30)
     = JS.Ok (Analytics.mkVA 1 0 (30 + 10))
  /\ exists m,
       Analytics.calculateProfile Samples.tieCandles 1 = JS.Ok m
       /\ (ProfileMetrics.poc m == 2)%Q
       /\ (ProfileMetrics.val m == 1)%Q
       /\ (ProfileMetrics.vah m == 2)%Q.
Proof.
  repeat split.
  eexists. split; [vm_compute; reflexivity|].
  repeat split.
Qed.

(** C3, amended.  At a step where both neighbours exist, the expansion
    moves to the upper side only when the upper neighbour's volume is
    strictly greater than the lower neighbour's; when the two volumes are
    equal, or the lower one is greater, the lower side is taken. *)
Theorem va_step_upper_only_when_strictly_greater :
  forall (levels : list ProfileLevel.t) (s : Analytics.VA)
         (up lo : ProfileLevel.t),
    JS.at_ levels (Analytics.upperIndex s + 1) = Some up ->
    JS.at_ levels (Analytics.lowerIndex s - 1) = Some lo ->
    ((ProfileLevel.volume lo < ProfileLevel.volume up)%Q ->
     Analytics.va_step levels s
     = JS.Ok (Analytics.mkVA (Analytics.upperIndex s + 1) (Analytics.lowerIndex s)
                (Analytics.currentVolume s + ProfileLevel.volume up)))
    /\
    ((ProfileLevel.volume up <= ProfileLevel.volume lo)%Q ->
     Analytics.va_step levels s
     = JS.Ok (Analytics.mkVA (Analytics.upperIndex s) (Analytics.lowerIndex s - 1)
                (Analytics.currentVolume s + ProfileLevel.volume lo))).
Proof.
  intros levels s up lo Hup Hlo.
  pose proof (at_Some _ _ Hup) as Ru.
  pose proof (at_Some _ _ Hlo) as Rl.
  assert (Hu : (Analytics.upperIndex s <? JS.len levels - 1)%Z = true)
    by (apply Z.ltb_lt; lia).
  assert (Hl : (Analytics.lowerIndex s >? 0)%Z = true)
    by (apply Z.gtb_lt; lia).
  unfold Analytics.va_step, Analytics.nextUpper, Analytics.nextLower.
  rewrite Hu, Hl, Hup, Hlo. cbn [JS.bind JS.deref].
  split; intro H.
  - apply gtb_gt in H. rewrite H. reflexivity.
  - apply gtb_le in H. rewrite H. reflexivity.
Qed.

Lemma va_step_upper_only_when_strictly_greater_witness :
  Analytics.va_step Samples.tieLevels (Analytics.mkVA 1 1 30)
  = JS.Ok (Analytics.mkVA 1 (1 - 1) (30 + 10)).
Proof.
  apply (va_step_upper_only_when_strictly_greater Samples.tieLevels
           (Analytics.mkVA 1 1 30)
           (up := ProfileLevel.mk 3 10 None None)
           (lo := ProfileLevel.mk 1 10 None None)).
  - reflexivity.
  - reflexivity.
  - simpl. apply Qle_refl.
Defined.

(** ** C7: the failed-push counter *)

(** [reinforce] assigns [lastConfirmed = now] before it tests
    [now - lastConfirmed > 10000], so the test never holds. *)
Lemma reinforce_failedPushes detectedType now lvl existing :
  PersistentEvent.failedPushes (EventEngine.reinforce detectedType now lvl existing)
  = PersistentEvent.failedPushes existing.
Proof.
  unfold EventEngine.reinforce.
  match goal with
  | |- context [if (?a && negb ?b)%bool then ?x else ?y] =>
      assert (E : PersistentEvent.lastConfirmed (if (a && negb b)%bool then x else y)
                  = now)
        by (destruct (a && negb b)%bool; reflexivity);
      assert (F : PersistentEvent.failedPushes (if (a && negb b)%bool then x else y)
                  = PersistentEvent.failedPushes existing)
        by (destruct (a && negb b)%bool; reflexivity)
  end.
  rewrite E. replace (now - now)%Z with 0%Z by lia.
  simpl (0 >? 10000)%Z. rewrite andb_false_r. exact F.
Qed.

(** C7, at the failing input.  The bid stack at 50000 was first detected
    and last confirmed at time 0; the same level is detected again at time
    100000, so the event has existed for more than 60000 ms and has gone
    more than 10000 ms without confirmation.  The event is reinforced
    (confirmations go from 1 to 2) and [failedPushes] is still 0. *)
Theorem processLevels_failed_push_not_counted :
  (100000 - PersistentEvent.firstDetected Samples.oldStack > 60000)%Z
  /\ (100000 - PersistentEvent.lastConfirmed Samples.oldStack > 10000)%Z
  /\ PersistentEvent.failedPushes Samples.oldStack = 0%Z
  /\ exists e,
       JSMap.get EventEngine.id_eqb (bid, 50000%Q)
         (EventEngine.processLevels [Samples.stackLevel] bid 100000 50001
            [((bid, 50000%Q), Samples.oldStack)])
       = Some e
       /\ PersistentEvent.confirmations e = 2%Z
       /\ PersistentEvent.lastConfirmed e = 100000%Z
       /\ PersistentEvent.failedPushes e = 0%Z.
Proof.
  repeat split; try reflexivity.
  eexists. split; [vm_compute; reflexivity|].
  repeat split.
Qed.

(** ** C4: the day-boundary reset of [enrichCandlesWithContext] *)

(** C4, at the failing input.  The two candles are on 2024-01-05 and
    2024-02-05: different UTC days with the same day of the month.  The
    second candle's delta is 2, and its cvd is 6: the 4 of the first day is
    carried over. *)
Theorem enrichCandlesWithContext_same_day_of_month :
  forall Math_sqrt : Q -> Q,
    UTC.civil (UTC.Day Samples.jan5) = (2024, 1, 5)%Z
    /\ UTC.civil (UTC.Day Samples.feb5) = (2024, 2, 5)%Z
    /\ UTC.Day Samples.jan5 <> UTC.Day Samples.feb5
    /\ map (fun c => option_map Qred (Candle.delta c))
         (Analytics.enrichCandlesWithContext Math_sqrt Samples.monthApart)
       = [Some 4%Q; Some 2%Q]
    /\ map (fun c => option_map Qred (Candle.cvd c))
         (Analytics.enrichCandlesWithContext Math_sqrt Samples.monthApart)
       = [Some 4%Q; Some 6%Q].
Proof.
  intro Math_sqrt. repeat split; try reflexivity.
  vm_compute. discriminate.
Qed.

(** ** What [enrichCandlesWithContext] does to the cvd *)

Section CvdReset.
Local Open Scope Q_scope.
Import Analytics.
Variable Math_sqrt : Q -> Q.






End CvdReset.

(** ** C1: the volume inside the value area *)

(** C1, at the failing input.  The levels are at prices 0, 1 and 2 with
    volumes 10, 11 and 10; the expansion from the point of control at 1
    reaches both ends, but the lower bound, read as
    [levels[lowerIndex]?.price || poc], is reported as the point of control
    because the price 0 is falsy.  The levels inside [val, vah] = [1, 2]
    hold 21 of the 31 traded, less than 70%. *)
Theorem calculateProfile_zero_price_value_area :
  exists m,
    Analytics.calculateProfile Samples.zeroTickCandles 1 = JS.Ok m
    /\ map (fun l => (Qred (ProfileLevel.price l), Qred (ProfileLevel.volume l)))
         (ProfileMetrics.levels m)
       = [(0, 10); (1, 11); (2, 10)]%Q
    /\ (ProfileMetrics.poc m == 1)%Q
    /\ (ProfileMetrics.val m == 1)%Q
    /\ (ProfileMetrics.vah m == 2)%Q
    /\ (ProfileMetrics.totalVolume m == 31)%Q
    /\ (Analytics.valueAreaVolume m == 21)%Q
    /\ (Analytics.valueAreaVolume m < 0.70 * ProfileMetrics.totalVolume m)%Q.
Proof.
  eexists. split; [vm_compute; reflexivity|].
  repeat split.
Qed.

(** ** C2: [val <= poc <= vah] *)

Section ProfileOrder.
Local Open Scope Q_scope.
Import Analytics.

(** *** The levels are sorted by price *)

Lemma byPrice_le (a b : ProfileLevel.t) :
  Qle_bool (byPrice a b) 0 = true <-> price_le a b.
Proof.
  unfold byPrice, price_le. rewrite Qle_bool_iff. split; intro H; lra.
Qed.

Lemma insert_byPrice_sorted (x : ProfileLevel.t) (l : list ProfileLevel.t) :
  StronglySorted price_le l -> StronglySorted price_le (JS.insert byPrice x l).
Proof.
  induction 1 as [|y r Hr IH Hy]; simpl.
  - repeat constructor.
  - destruct (Qle_bool (byPrice x y) 0) eqn:E.
    + apply byPrice_le in E. constructor.
      * constructor; assumption.
      * constructor; [exact E|].
        rewrite Forall_forall in *. intros z Hz.
        unfold price_le in *. specialize (Hy z Hz). lra.
    + assert (Hyx : price_le y x).
      { unfold price_le. destruct (Qlt_le_dec (ProfileLevel.price x)
                                     (ProfileLevel.price y)) as [L|L]; [|exact L].
        assert (Qle_bool (byPrice x y) 0 = true)
          by (apply byPrice_le; unfold price_le; lra).
        congruence. }
      constructor; [exact IH|].
      rewrite Forall_forall in *. intros z Hz.
      apply insert_In in Hz. destruct Hz as [->|Hz]; [exact Hyx|auto].
Qed.

Lemma sort_byPrice_sorted (l : list ProfileLevel.t) :
  StronglySorted price_le (JS.sort byPrice l).
Proof.
  induction l as [|x r IH]; simpl.
  - constructor.
  - now apply insert_byPrice_sorted.
Qed.

Lemma sorted_nth (l : list ProfileLevel.t) :
  StronglySorted price_le l ->
  forall i j a b,
    (i <= j)%nat -> nth_error l i = Some a -> nth_error l j = Some b ->
    price_le a b.
Proof.
  induction 1 as [|y r Hr IH Hy]; intros i j a b Hij Ha Hb.
  - destruct i; discriminate.
  - destruct i as [|i], j as [|j]; simpl in *.
    + inversion Ha; inversion Hb; subst. unfold price_le. lra.
    + inversion Ha; subst. rewrite Forall_forall in Hy.
      apply Hy. eapply nth_error_In; eassumption.
    + lia.
    + eapply IH; [|eassumption|eassumption]. lia.
Qed.

Lemma sorted_at (l : list ProfileLevel.t) :
  StronglySorted price_le l ->
  forall i j a b,
    (i <= j)%Z -> JS.at_ l i = Some a -> JS.at_ l j = Some b -> price_le a b.
Proof.
  intros Hs i j a b Hij Ha Hb.
  pose proof (at_Some _ _ Ha) as Ri. pose proof (at_Some _ _ Hb) as Rj.
  unfold JS.at_ in Ha, Hb.
  destruct (i <? 0)%Z; [discriminate|]. destruct (j <? 0)%Z; [discriminate|].
  eapply sorted_nth; [exact Hs| |eassumption|eassumption]. lia.
Qed.

(** *** The scan for the point of control *)

Lemma pocScan_from (levels : list ProfileLevel.t) :
  forall s,
    (fold_left pocStep levels s = s
     /\ forall l, In l levels -> ProfileLevel.volume l <= snd s)
    \/ (exists l, In l levels
                  /\ fold_left pocStep levels s
                     = (ProfileLevel.price l, ProfileLevel.volume l)).
Proof.
  induction levels as [|x r IH]; intro s; simpl.
  - left. split; [reflexivity|]. intros l [].
  - destruct (JS.gtb (ProfileLevel.volume x) (snd s)) eqn:E.
    + replace (pocStep s x) with (ProfileLevel.price x, ProfileLevel.volume x)
        by (unfold pocStep; now rewrite E).
      right. destruct (IH (ProfileLevel.price x, ProfileLevel.volume x))
        as [[H _]|[l [Hl H]]].
      * exists x. split; [now left|exact H].
      * exists l. split; [now right|exact H].
    + replace (pocStep s x) with s by (unfold pocStep; now rewrite E).
      apply gtb_le in E. destruct (IH s) as [[H Hall]|[l [Hl H]]].
      * left. split; [exact H|]. intros l [<-|Hl]; [exact E|auto].
      * right. exists l. split; [now right|exact H].
Qed.

(** *** [findIndex] *)

Lemma findIndex_from_spec {A : Type} (p : A -> bool) (l : list A) :
  forall i,
    (0 <= i)%Z ->
    (JS.findIndex_from p l i = (-1)%Z /\ forall x, In x l -> p x = false)
    \/ (exists x, (i <= JS.findIndex_from p l i)%Z
                  /\ nth_error l (Z.to_nat (JS.findIndex_from p l i - i)) = Some x
                  /\ p x = true).
Proof.
  induction l as [|y r IH]; intros i Hi; simpl.
  - left. split; [reflexivity|]. intros x [].
  - destruct (p y) eqn:E.
    + right. exists y. rewrite Z.sub_diag. simpl. repeat split; [lia|exact E].
    + destruct (IH (i + 1)%Z) as [[H Hall]|[x [Hle [Hn Hp]]]]; [lia| |].
      * left. split; [exact H|]. intros x [<-|Hx]; [exact E|auto].
      * right. exists x. split; [lia|]. split; [|exact Hp].
        replace (Z.to_nat (JS.findIndex_from p r (i + 1) - i))
          with (S (Z.to_nat (JS.findIndex_from p r (i + 1) - (i + 1)))) by lia.
        exact Hn.
Qed.

Lemma findIndex_spec {A : Type} (p : A -> bool) (l : list A) :
  (JS.findIndex p l = (-1)%Z /\ forall x, In x l -> p x = false)
  \/ (exists x, JS.at_ l (JS.findIndex p l) = Some x /\ p x = true).
Proof.
  unfold JS.findIndex.
  destruct (findIndex_from_spec p l (i := 0%Z)) as [H|[x [Hle [Hn Hp]]]]; [lia|now left|].
  right. exists x. split; [|exact Hp].
  unfold JS.at_. destruct (JS.findIndex_from p l 0 <? 0)%Z eqn:E.
  - apply Z.ltb_lt in E. lia.
  - now rewrite Z.sub_0_r in Hn.
Qed.


(** *** The value-area loop *)

Lemma va_step_cases levels s s' :
  va_step levels s = JS.Ok s' ->
  (exists l,
      upperIndex s' = (upperIndex s + 1)%Z
      /\ lowerIndex s' = lowerIndex s
      /\ JS.at_ levels (upperIndex s') = Some l
      /\ currentVolume s' = currentVolume s + ProfileLevel.volume l)
  \/ (exists l,
         upperIndex s' = upperIndex s
         /\ lowerIndex s' = (lowerIndex s - 1)%Z
         /\ JS.at_ levels (lowerIndex s') = Some l
         /\ currentVolume s' = currentVolume s + ProfileLevel.volume l).
Proof.
  unfold va_step.
  destruct (nextUpper levels s) as [nu| |]; try discriminate.
  destruct (nextLower levels s) as [nl| |]; try discriminate.
  cbn [JS.bind]. destruct (JS.gtb nu nl).
  - destruct (JS.at_ levels (upperIndex s + 1)) as [l|] eqn:E; try discriminate.
    cbn. intro H. inversion H; subst; clear H. left. exists l. cbn. auto.
  - destruct (JS.at_ levels (lowerIndex s - 1)) as [l|] eqn:E; try discriminate.
    cbn. intro H. inversion H; subst; clear H. right. exists l. cbn. auto.
Qed.

Lemma nextUpper_fuel levels s : nextUpper levels s <> JS.OutOfFuel.
Proof.
  unfold nextUpper. destruct (upperIndex s <? JS.len levels - 1)%Z; [|discriminate].
  destruct (JS.at_ levels (upperIndex s + 1)); discriminate.
Qed.

Lemma nextLower_fuel levels s : nextLower levels s <> JS.OutOfFuel.
Proof.
  unfold nextLower. destruct (lowerIndex s >? 0)%Z; [|discriminate].
  destruct (JS.at_ levels (lowerIndex s - 1)); discriminate.
Qed.

Lemma va_step_fuel levels s : va_step levels s <> JS.OutOfFuel.
Proof.
  unfold va_step.
  pose proof (nextUpper_fuel levels s). pose proof (nextLower_fuel levels s).
  destruct (nextUpper levels s) as [nu| |]; try discriminate; try congruence.
  destruct (nextLower levels s) as [nl| |]; try discriminate; try congruence.
  cbn [JS.bind]. destruct (JS.gtb nu nl).
  - destruct (JS.at_ levels (upperIndex s + 1)); discriminate.
  - destruct (JS.at_ levels (lowerIndex s - 1)); discriminate.
Qed.

Lemma va_step_inv levels pocIndex s s' :
  va_inv levels pocIndex s -> va_step levels s = JS.Ok s' ->
  va_inv levels pocIndex s'.
Proof.
  intros (H1 & H2 & H3 & H4) Hstep. unfold va_inv.
  destruct (va_step_cases _ _ Hstep) as [(l & Eu & El & Hat & _)|(l & Eu & El & Hat & _)];
    apply at_Some in Hat; rewrite ?Eu, ?El in *; lia.
Qed.

Lemma va_step_measure levels s s' :
  va_step levels s = JS.Ok s' ->
  (va_measure levels s' < va_measure levels s)%nat.
Proof.
  intro Hstep. unfold va_measure.
  destruct (va_step_cases _ _ Hstep) as [(l & Eu & El & Hat & _)|(l & Eu & El & Hat & _)];
    apply at_Some in Hat; rewrite ?Eu, ?El in *; lia.
Qed.

Lemma va_loop_inv levels pocIndex targetVolume :
  forall fuel s s',
    va_inv levels pocIndex s ->
    va_loop fuel levels targetVolume s = JS.Ok s' ->
    va_inv levels pocIndex s'.
Proof.
  induction fuel as [|fuel IH]; intros s s' Hinv Hloop; simpl in Hloop.
  - discriminate.
  - destruct (va_continue levels targetVolume s).
    + destruct (va_step levels s) as [s1| |] eqn:Hstep; try discriminate.
      cbn [JS.bind] in Hloop.
      pose proof (va_step_inv Hinv Hstep) as Hinv1.
      destruct (va_break levels s1).
      * inversion Hloop; subst. exact Hinv1.
      * eapply IH; eassumption.
    + inversion Hloop; subst. exact Hinv.
Qed.

Lemma va_loop_fuel levels targetVolume :
  forall fuel s,
    (va_measure levels s < fuel)%nat ->
    va_loop fuel levels targetVolume s <> JS.OutOfFuel.
Proof.
  induction fuel as [|fuel IH]; intros s Hm; simpl.
  - lia.
  - destruct (va_continue levels targetVolume s); [|discriminate].
    pose proof (va_step_fuel levels s) as Hf.
    destruct (va_step levels s) as [s1| |] eqn:Hstep; try discriminate; try congruence.
    cbn [JS.bind]. destruct (va_break levels s1); [discriminate|].
    apply IH. pose proof (va_step_measure _ _ Hstep). lia.
Qed.

(** Without a point of control every volume is at most -1, and the first
    iteration, if any, reads [levels[-2]]. *)
Lemma va_loop_no_poc levels targetVolume c :
  (forall l, In l levels -> ProfileLevel.volume l <= -1) ->
  forall fuel s',
    va_loop fuel levels targetVolume (mkVA (-1) (-1) c) = JS.Ok s' ->
    s' = mkVA (-1) (-1) c.
Proof.
  intros Hall fuel s' Hloop. destruct fuel as [|fuel]; simpl in Hloop.
  - discriminate.
  - destruct (va_continue levels targetVolume (mkVA (-1) (-1) c)).
    + exfalso.
      destruct (va_step levels (mkVA (-1) (-1) c)) as [s1| |] eqn:Hstep;
        try discriminate.
      revert Hstep. unfold va_step, nextUpper, nextLower.
      cbn [upperIndex lowerIndex currentVolume].
      change (-1 >? 0)%Z with false. change (-1 + 1)%Z with 0%Z.
      change (-1 - 1)%Z with (-2)%Z.
      change (JS.at_ levels (-2)) with (@None ProfileLevel.t).
      destruct (-1 <? JS.len levels - 1)%Z.
      * destruct (JS.at_ levels 0) as [l0|] eqn:E0; cbn [JS.bind JS.deref];
          [|discriminate].
        assert (Hl0 : ProfileLevel.volume l0 <= -1).
        { apply Hall. change (JS.at_ levels 0) with (nth_error levels 0) in E0.
          eapply nth_error_In; exact E0. }
        assert (G : JS.gtb (ProfileLevel.volume l0) 0 = false)
          by (apply gtb_le; lra).
        rewrite G. discriminate.
      * cbn [JS.bind JS.deref].
        assert (G : JS.gtb 0 0 = false) by reflexivity.
        rewrite G. discriminate.
    + now inversion Hloop.
Qed.

(** *** The order of the three prices *)

Lemma or_num_price_cases (lv : ProfileLevel.t) (poc : Q) :
  JS.or_num (Some (ProfileLevel.price lv)) poc = poc
  \/ JS.or_num (Some (ProfileLevel.price lv)) poc = ProfileLevel.price lv.
Proof.
  unfold JS.or_num. destruct (Qeq_bool (ProfileLevel.price lv) 0); auto.
Qed.

Lemma calculateProfile_order candles tickSize m :
  calculateProfile candles tickSize = JS.Ok m ->
  ProfileMetrics.val m <= ProfileMetrics.poc m
  /\ ProfileMetrics.poc m <= ProfileMetrics.vah m.
Proof.
  unfold calculateProfile. destruct candles as [|first rest].
  - intro H. inversion H; subst. cbn. split; apply Qle_refl.
  - set (a := fold_left (addCandle tickSize) (first :: rest) _).
    set (levels := JS.sort byPrice (map (toLevel tickSize) (volumeMap a))).
    assert (Hsorted : StronglySorted price_le levels)
      by apply sort_byPrice_sorted.
    destruct (pocScan levels) as [poc maxVol] eqn:Hscan.
    set (pocIndex := JS.findIndex (fun l => JS.eqb (ProfileLevel.price l) poc) levels).
    destruct (va_loop _ levels (totalVolume a * 0.7) (mkVA pocIndex pocIndex maxVol))
      as [s| |] eqn:Hloop; try discriminate.
    cbn [JS.bind]. intro H. inversion H; subst m; clear H. cbn.
    destruct (findIndex_spec (fun l => JS.eqb (ProfileLevel.price l) poc) levels)
      as [[Hnone Hall]|[lp [Hat Hp]]].
    + (* no level carries the price [poc] *)
      fold pocIndex in Hnone.
      assert (Hvols : forall l, In l levels -> ProfileLevel.volume l <= -1).
      { unfold pocScan in Hscan.
        destruct (pocScan_from levels (0, -1)) as [[_ Hv]|[l [Hl Hfold]]].
        - exact Hv.
        - rewrite Hscan in Hfold. inversion Hfold; subst.
          specialize (Hall l Hl). cbn in Hall.
          assert (JS.eqb (ProfileLevel.price l) (ProfileLevel.price l) = true)
            by (apply eqb_eq; reflexivity).
          congruence. }
      rewrite Hnone in Hloop.
      apply (@va_loop_no_poc levels _ _ Hvols) in Hloop. subst s. cbn.
      split; apply Qle_refl.
    + (* the point of control is the level at [pocIndex] *)
      fold pocIndex in Hat. apply eqb_eq in Hp.
      pose proof (at_Some _ _ Hat) as Rp.
      assert (Hinv0 : va_inv levels pocIndex (mkVA pocIndex pocIndex maxVol))
        by (unfold va_inv; cbn; lia).
      pose proof (va_loop_inv _ _ Hinv0 Hloop) as (I1 & I2 & I3 & I4).
      destruct (at_in_range levels (i := lowerIndex s)) as [ll Hll]; [lia|].
      destruct (at_in_range levels (i := upperIndex s)) as [lu Hlu]; [lia|].
      rewrite Hll, Hlu. cbn [option_map].
      pose proof (sorted_at Hsorted I2 Hll Hat) as Hlo.
      pose proof (sorted_at Hsorted I3 Hat Hlu) as Hhi.
      unfold price_le in Hlo, Hhi.
      split.
      * destruct (or_num_price_cases ll poc) as [->| ->]; lra.
      * destruct (or_num_price_cases lu poc) as [->| ->]; lra.
Qed.

Lemma calculateProfile_fuel candles tickSize :
  calculateProfile candles tickSize <> JS.OutOfFuel.
Proof.
  unfold calculateProfile. destruct candles as [|first rest]; [discriminate|].
  set (a := fold_left (addCandle tickSize) (first :: rest) _).
  set (levels := JS.sort byPrice (map (toLevel tickSize) (volumeMap a))).
  destruct (pocScan levels) as [poc maxVol].
  set (s0 := mkVA _ _ maxVol).
  pose proof (@va_loop_fuel levels (totalVolume a * 0.7)
                (S (va_measure levels s0)) s0 (Nat.lt_succ_diag_r _)) as Hf.
  destruct (va_loop _ levels _ s0); cbn; congruence.
Qed.


(** *** The profile of candles that all traded *)

Lemma set_values_pos (k : Z) (v : Q) (m : list (Z * Q)) :
  0 < v -> Forall (fun e => 0 < snd e) m ->
  Forall (fun e => 0 < snd e) (JSMap.set Z.eqb k v m).
Proof.
  intros Hv. induction 1 as [|[k' v'] r Hx Hr IH]; simpl.
  - repeat constructor. exact Hv.
  - destruct (k =? k')%Z; constructor; auto.
Qed.

Lemma get_values_pos (k : Z) (m : list (Z * Q)) :
  Forall (fun e => 0 < snd e) m -> 0 <= JS.or_num (JSMap.get Z.eqb k m) 0.
Proof.
  induction 1 as [|[k' v'] r Hx Hr IH]; simpl.
  - apply Qle_refl.
  - destruct (k =? k')%Z; [|exact IH].
    simpl in *. destruct (Qeq_bool v' 0); lra.
Qed.

Lemma spread_pos (volumePerTick : Q) (ticks : list Z) :
  0 < volumePerTick ->
  forall m,
    Forall (fun e => 0 < snd e) m ->
    Forall (fun e => 0 < snd e)
      (fold_left
         (fun m t =>
            JSMap.set Z.eqb t (JS.or_num (JSMap.get Z.eqb t m) 0 + volumePerTick) m)
         ticks m).
Proof.
  intro Hv. induction ticks as [|t r IH]; intros m Hm; simpl.
  - exact Hm.
  - apply IH. apply set_values_pos; [|exact Hm].
    pose proof (get_values_pos t Hm). lra.
Qed.

Lemma addCandle_pos (tickSize : Q) (a : ProfAcc) (candle : Candle.t) :
  0 < Candle.volume candle ->
  Forall (fun e => 0 < snd e) (volumeMap a) ->
  Forall (fun e => 0 < snd e) (volumeMap (addCandle tickSize a candle)).
Proof.
  intros Hvol Ha. unfold addCandle. cbn [volumeMap]. unfold spread.
  set (lowTick := JS.Math_floor (Candle.low candle / tickSize)).
  set (highTick := JS.Math_floor (Candle.high candle / tickSize)).
  destruct (Z_le_gt_dec (highTick - lowTick + 1) 0) as [Hn|Hn].
  - unfold JS.upto. replace (Z.to_nat (highTick - lowTick + 1)) with 0%nat by lia.
    exact Ha.
  - apply spread_pos; [|exact Ha].
    apply Qlt_shift_div_l.
    + replace 0 with (inject_Z 0) by reflexivity. rewrite <- Zlt_Qlt. lia.
    + lra.
Qed.

Lemma addCandles_pos (tickSize : Q) (candles : list Candle.t) :
  Forall (fun c => 0 < Candle.volume c) candles ->
  forall a,
    Forall (fun e => 0 < snd e) (volumeMap a) ->
    Forall (fun e => 0 < snd e)
      (volumeMap (fold_left (addCandle tickSize) candles a)).
Proof.
  induction 1 as [|c r Hc Hr IH]; intros a Ha; simpl.
  - exact Ha.
  - apply IH. now apply addCandle_pos.
Qed.

Lemma levels_pos (tickSize : Q) (m : list (Z * Q)) :
  Forall (fun e => 0 < snd e) m ->
  forall l, In l (JS.sort byPrice (map (toLevel tickSize) m)) ->
            0 < ProfileLevel.volume l.
Proof.
  intros Hm l Hl. apply sort_In in Hl. apply in_map_iff in Hl.
  destruct Hl as [e [<- He]]. rewrite Forall_forall in Hm.
  exact (Hm e He).
Qed.

(** With positive volumes, an iteration that the loop condition lets in
    finds the level it moves to. *)
Lemma va_step_ok levels pocIndex targetVolume s :
  (forall l, In l levels -> 0 < ProfileLevel.volume l) ->
  va_inv levels pocIndex s ->
  va_continue levels targetVolume s = true ->
  exists s', va_step levels s = JS.Ok s'.
Proof.
  intros Hpos (I1 & I2 & I3 & I4) Hc.
  unfold va_continue in Hc. apply andb_true_iff in Hc. destruct Hc as [_ Hc].
  unfold va_step, nextUpper, nextLower.
  destruct (upperIndex s <? JS.len levels - 1)%Z eqn:Eu;
    destruct (lowerIndex s >? 0)%Z eqn:El;
    try (apply Z.ltb_lt in Eu); try (apply Z.ltb_ge in Eu);
    try (apply Z.gtb_lt in El);
    try (assert (lowerIndex s = 0)%Z by
            (destruct (Z.gtb_spec (lowerIndex s) 0); [discriminate|lia]));
    try discriminate.
  - destruct (at_in_range levels (i := (upperIndex s + 1)%Z)) as [lu Hlu]; [lia|].
    destruct (at_in_range levels (i := (lowerIndex s - 1)%Z)) as [ll Hll]; [lia|].
    rewrite Hlu, Hll. cbn [JS.bind JS.deref].
    destruct (JS.gtb (ProfileLevel.volume lu) (ProfileLevel.volume ll));
      eexists; reflexivity.
  - destruct (at_in_range levels (i := (upperIndex s + 1)%Z)) as [lu Hlu]; [lia|].
    rewrite Hlu. cbn [JS.bind JS.deref].
    assert (G : JS.gtb (ProfileLevel.volume lu) 0 = true).
    { apply gtb_gt. apply Hpos. unfold JS.at_ in Hlu.
      destruct (upperIndex s + 1 <? 0)%Z; [discriminate|].
      eapply nth_error_In; exact Hlu. }
    rewrite G. eexists; reflexivity.
  - destruct (at_in_range levels (i := (lowerIndex s - 1)%Z)) as [ll Hll]; [lia|].
    rewrite Hll. cbn [JS.bind JS.deref].
    assert (G : JS.gtb 0 (ProfileLevel.volume ll) = false).
    { apply gtb_le. apply Qlt_le_weak. apply Hpos. unfold JS.at_ in Hll.
      destruct (lowerIndex s - 1 <? 0)%Z; [discriminate|].
      eapply nth_error_In; exact Hll. }
    rewrite G. eexists; reflexivity.
Qed.

Lemma va_loop_ok levels pocIndex targetVolume :
  (forall l, In l levels -> 0 < ProfileLevel.volume l) ->
  forall fuel s,
    va_inv levels pocIndex s ->
    (va_measure levels s < fuel)%nat ->
    exists s', va_loop fuel levels targetVolume s = JS.Ok s'.
Proof.
  intro Hpos. induction fuel as [|fuel IH]; intros s Hinv Hm; simpl.
  - lia.
  - destruct (va_continue levels targetVolume s) eqn:Hc; [|eauto].
    destruct (va_step_ok targetVolume Hpos Hinv Hc) as [s1 Hstep].
    rewrite Hstep. cbn [JS.bind].
    destruct (va_break levels s1); [eauto|].
    apply IH.
    + eapply va_step_inv; eassumption.
    + pose proof (va_step_measure _ _ Hstep). lia.
Qed.

Lemma va_loop_from_poc_ok levels targetVolume poc maxVol :
  (forall l, In l levels -> 0 < ProfileLevel.volume l) ->
  pocScan levels = (poc, maxVol) ->
  let pocIndex :=
    JS.findIndex (fun l => JS.eqb (ProfileLevel.price l) poc) levels in
  exists s,
    va_loop (S (va_measure levels (mkVA pocIndex pocIndex maxVol)))
      levels targetVolume (mkVA pocIndex pocIndex maxVol)
    = JS.Ok s.
Proof.
  intros Hpos Hscan pocIndex.
  assert (Hcase : levels = [] \/ exists l0, In l0 levels)
    by (destruct levels as [|l0 lr]; [now left|right; exists l0; now left]).
  destruct Hcase as [Hnil|[l0 Hl0]].
  - exists (mkVA pocIndex pocIndex maxVol). cbn [va_loop].
    replace (va_continue levels targetVolume (mkVA pocIndex pocIndex maxVol))
      with false; [reflexivity|].
    unfold va_continue. subst pocIndex. rewrite Hnil. cbn.
    now rewrite andb_false_r.
  - assert (Hin : exists l, In l levels /\ poc = ProfileLevel.price l).
    { unfold pocScan in Hscan.
      destruct (pocScan_from levels (0, -1)) as [[_ Hv]|[l [Hl Hfold]]].
      - exfalso.
        pose proof (Hv l0 Hl0). pose proof (Hpos l0 Hl0). cbn in *. lra.
      - rewrite Hscan in Hfold. inversion Hfold; subst. eauto. }
    destruct Hin as [l [Hl Hpoc]].
    destruct (findIndex_spec (fun l => JS.eqb (ProfileLevel.price l) poc) levels)
      as [[_ Hall]|[lp [Hat _]]].
    + exfalso. specialize (Hall l Hl). cbn in Hall.
      assert (JS.eqb (ProfileLevel.price l) poc = true)
        by (apply eqb_eq; rewrite Hpoc; reflexivity).
      congruence.
    + pose proof (at_Some _ _ Hat) as Hr. fold pocIndex in Hr.
      apply va_loop_ok with (pocIndex := pocIndex).
      * exact Hpos.
      * unfold va_inv. cbn [upperIndex lowerIndex]. lia.
      * lia.
Qed.

Lemma calculateProfile_returns candles tickSize :
  Forall (fun c => 0 < Candle.volume c) candles ->
  exists m, calculateProfile candles tickSize = JS.Ok m.
Proof.
  intro Hvol. unfold calculateProfile. destruct candles as [|first rest]; [eauto|].
  set (a := fold_left (addCandle tickSize) (first :: rest) _).
  assert (Hpos : forall l,
             In l (JS.sort byPrice (map (toLevel tickSize) (volumeMap a))) ->
             0 < ProfileLevel.volume l).
  { apply levels_pos. apply addCandles_pos; [exact Hvol|constructor]. }
  set (levels := JS.sort byPrice (map (toLevel tickSize) (volumeMap a))) in *.
  destruct (pocScan levels) as [poc maxVol] eqn:Hscan.
  destruct (@va_loop_from_poc_ok levels (totalVolume a * 0.7) poc maxVol Hpos Hscan)
    as [s Hs].
  rewrite Hs. cbn [JS.bind]. eauto.
Qed.

End ProfileOrder.

(** C2.  For a non-empty candle array and a positive tick size,
    [calculateProfile] never runs out of iterations, it returns a profile
    whenever every candle has traded volume, and every profile it returns
    satisfies [val <= poc <= vah]. *)
Theorem calculateProfile_val_poc_vah :
  forall (candles : list Candle.t) (tickSize : Q),
    candles <> [] ->
    (0 < tickSize)%Q ->
    Analytics.calculateProfile candles tickSize <> JS.OutOfFuel
    /\ (Forall (fun c => 0 < Candle.volume c)%Q candles ->
        exists m, Analytics.calculateProfile candles tickSize = JS.Ok m)
    /\ (forall m,
           Analytics.calculateProfile candles tickSize = JS.Ok m ->
           (ProfileMetrics.val m <= ProfileMetrics.poc m)%Q
           /\ (ProfileMetrics.poc m <= ProfileMetrics.vah m)%Q).
Proof.
  intros candles tickSize _ _. repeat split.
  - apply calculateProfile_fuel.
  - apply calculateProfile_returns.
  - eapply calculateProfile_order; eassumption.
  - eapply calculateProfile_order; eassumption.
Qed.

Lemma calculateProfile_val_poc_vah_witness :
  Samples.tieCandles <> []
  /\ (0 < 1)%Q
  /\ exists m,
       Analytics.calculateProfile Samples.tieCandles 1 = JS.Ok m
       /\ (ProfileMetrics.val m <= ProfileMetrics.poc m)%Q
       /\ (ProfileMetrics.poc m <= ProfileMetrics.vah m)%Q.
Proof.
  assert (Hne : Samples.tieCandles <> []) by discriminate.
  assert (Hpos : (0 < 1)%Q) by reflexivity.
  split; [exact Hne|]. split; [exact Hpos|].
  destruct (calculateProfile_val_poc_vah Hne Hpos) as (_ & Hret & Hord).
  destruct Hret as [m Hm].
  - repeat constructor.
  - exists m. split; [exact Hm|]. apply Hord. exact Hm.
Defined.

(** The hypothesis on the volumes cannot be dropped: next to a level of
    volume 0 the expansion steps below index 0 and reads
    [levels[-1].volume]. *)
Example calculateProfile_idle_candle_throws :
  Analytics.calculateProfile Samples.idleCandles 1 = JS.TypeError.
Proof. vm_compute. reflexivity. Qed.

(** ** Facts about [JSMap] *)

Section MapFacts.
Context {K V : Type} (keqb : K -> K -> bool).
Hypothesis keqb_refl : forall k, keqb k k = true.
Hypothesis keqb_sym : forall k k', keqb k k' = keqb k' k.
Hypothesis keqb_trans :
  forall k1 k2 k3, keqb k1 k2 = true -> keqb k2 k3 = true -> keqb k1 k3 = true.

Lemma keqb_congr (k k' k0 : K) : keqb k k' = true -> keqb k k0 = keqb k' k0.
Proof.
  intro H. destruct (keqb k' k0) eqn:E.
  - eapply keqb_trans; eassumption.
  - destruct (keqb k k0) eqn:F; [|reflexivity].
    rewrite keqb_sym in H. rewrite <- E. symmetry.
    eapply keqb_trans; eassumption.
Qed.

Lemma get_congr (k k' : K) (m : list (K * V)) :
  keqb k k' = true -> JSMap.get keqb k m = JSMap.get keqb k' m.
Proof.
  intro H. induction m as [|[k0 v0] r IH]; simpl; [reflexivity|].
  rewrite (keqb_congr k0 H). now rewrite IH.
Qed.

Lemma get_set_same (k : K) (v : V) (m : list (K * V)) :
  JSMap.get keqb k (JSMap.set keqb k v m) = Some v.
Proof.
  induction m as [|[k0 v0] r IH]; simpl.
  - now rewrite keqb_refl.
  - destruct (keqb k k0) eqn:E; simpl; rewrite E; [reflexivity|exact IH].
Qed.

Lemma get_set_other (k k' : K) (v : V) (m : list (K * V)) :
  keqb k' k = false ->
  JSMap.get keqb k' (JSMap.set keqb k v m) = JSMap.get keqb k' m.
Proof.
  intro H. induction m as [|[k0 v0] r IH]; simpl.
  - now rewrite H.
  - destruct (keqb k k0) eqn:E; simpl.
    + assert (F : keqb k' k0 = false).
      { rewrite keqb_sym in H. rewrite keqb_sym.
        rewrite <- (keqb_congr k' E). exact H. }
      now rewrite F.
    + destruct (keqb k' k0); [reflexivity|exact IH].
Qed.

Lemma set_uniq (k : K) (v : V) (m : list (K * V)) :
  JSMap.uniq keqb m -> JSMap.uniq keqb (JSMap.set keqb k v m).
Proof.
  induction m as [|[k0 v0] r IH]; simpl.
  - auto.
  - intros [Hk0 Hr]. destruct (keqb k k0) eqn:E; simpl.
    + auto.
    + split; [|auto]. rewrite get_set_other; [exact Hk0|].
      rewrite keqb_sym. exact E.
Qed.

End MapFacts.

Lemma Zgtb_false (a b : Z) : (a <= b)%Z -> (a >? b)%Z = false.
Proof. intro H. rewrite Z.gtb_ltb. apply Z.ltb_ge. exact H. Qed.

Lemma Zeqb_sym (a b : Z) : (a =? b)%Z = (b =? a)%Z.
Proof. apply Z.eqb_sym. Qed.

Lemma Zeqb_trans (a b c : Z) :
  (a =? b)%Z = true -> (b =? c)%Z = true -> (a =? c)%Z = true.
Proof. rewrite !Z.eqb_eq. congruence. Qed.

Lemma side_eqb_eq (a b : Side) : side_eqb a b = true <-> a = b.
Proof. destruct a, b; simpl; split; congruence. Qed.

Lemma id_eqb_refl (k : Side * Q) : EventEngine.id_eqb k k = true.
Proof.
  unfold EventEngine.id_eqb. apply andb_true_iff. split.
  - now apply side_eqb_eq.
  - apply Qeq_bool_iff. reflexivity.
Qed.

Lemma id_eqb_sym (k k' : Side * Q) :
  EventEngine.id_eqb k k' = EventEngine.id_eqb k' k.
Proof.
  unfold EventEngine.id_eqb. f_equal.
  - destruct (fst k), (fst k'); reflexivity.
  - destruct (Qeq_bool (snd k) (snd k')) eqn:E.
    + symmetry. apply Qeq_bool_iff. apply Qeq_bool_iff in E. now symmetry.
    + destruct (Qeq_bool (snd k') (snd k)) eqn:F; [|reflexivity].
      apply Qeq_bool_iff in F. symmetry in F. apply Qeq_bool_iff in F. congruence.
Qed.

Lemma id_eqb_trans (k1 k2 k3 : Side * Q) :
  EventEngine.id_eqb k1 k2 = true -> EventEngine.id_eqb k2 k3 = true ->
  EventEngine.id_eqb k1 k3 = true.
Proof.
  unfold EventEngine.id_eqb. rewrite !andb_true_iff, !side_eqb_eq.
  intros [S1 Q1] [S2 Q2]. split; [congruence|].
  apply Qeq_bool_iff. apply Qeq_bool_iff in Q1. apply Qeq_bool_iff in Q2.
  now rewrite Q1.
Qed.

(** ** The stages of the event state machine *)

Section Stages.
Import EventEngine.
Local Open Scope Z_scope.

Lemma state_eqb_eq (a b : EventState) : state_eqb a b = true <-> a = b.
Proof. destruct a, b; simpl; split; congruence. Qed.

Lemma state_eqb_neq (a b : EventState) : state_eqb a b = false <-> a <> b.
Proof. destruct a, b; simpl; split; congruence. Qed.

Lemma toHolding_facts age e :
  PersistentEvent.price (toHolding age e) = PersistentEvent.price e
  /\ PersistentEvent.side (toHolding age e) = PersistentEvent.side e
  /\ PersistentEvent.isFailed (toHolding age e) = PersistentEvent.isFailed e
  /\ (PersistentEvent.state (toHolding age e) = PersistentEvent.state e
      \/ (PersistentEvent.state (toHolding age e) = HOLDING
          /\ PersistentEvent.state e <> FAIL
          /\ (age >? 120000) = true)).
Proof.
  unfold toHolding.
  destruct (state_eqb (PersistentEvent.state e) STACK
            || state_eqb (PersistentEvent.state e) ABSORPTION)%bool eqn:S;
    destruct (age >? 120000) eqn:A;
    destruct (PersistentEvent.confirmations e >? 10); cbn; auto.
  repeat split; auto. right. repeat split; auto.
  intro F. rewrite F in S. discriminate.
Qed.

Lemma toWeakening_facts e :
  PersistentEvent.price (toWeakening e) = PersistentEvent.price e
  /\ PersistentEvent.side (toWeakening e) = PersistentEvent.side e
  /\ PersistentEvent.isFailed (toWeakening e) = PersistentEvent.isFailed e
  /\ (PersistentEvent.state (toWeakening e) = PersistentEvent.state e
      \/ (PersistentEvent.state (toWeakening e) = WEAKENING
          /\ PersistentEvent.state e = HOLDING)).
Proof.
  unfold toWeakening.
  destruct (PersistentEvent.isActive e); cbn; auto.
  destruct (state_eqb (PersistentEvent.state e) HOLDING) eqn:S; cbn; auto.
  destruct (JS.ltb _ _); cbn; auto.
  apply state_eqb_eq in S. auto 6.
Qed.

(** [breach] ends in BROKEN with the cooldowns untouched, or in FAIL for a
    mature event whose bucket is out of cooldown, and then arms the
    cooldown of that bucket. *)
Lemma breach_facts now age e cds :
  PersistentEvent.price (fst (breach now age e cds)) = PersistentEvent.price e
  /\ ((PersistentEvent.state (fst (breach now age e cds)) = BROKEN
       /\ snd (breach now age e cds) = cds)
      \/ (PersistentEvent.state (fst (breach now age e cds)) = FAIL
          /\ (age >? 60000) = true
          /\ (now >? JS.or_int
                       (JSMap.get Z.eqb (bucketOf (PersistentEvent.price e)) cds) 0)
             = true
          /\ snd (breach now age e cds)
             = JSMap.set Z.eqb (bucketOf (PersistentEvent.price e))
                 (now + 300000) cds)).
Proof.
  unfold breach.
  destruct (isSignificant (PersistentEvent.state e)); cbn [andb]; [|cbn; auto].
  destruct (age >? 60000); cbn [andb]; [|cbn; auto].
  destruct (now >? JS.or_int _ 0); [|cbn; auto].
  destruct (JS.geb _ 70); cbn; auto 6.
Qed.

Lemma toFail_facts now age lastPrice e cds :
  PersistentEvent.price (fst (toFail now age lastPrice e cds))
  = PersistentEvent.price e
  /\ ((toFail now age lastPrice e cds = (e, cds)
       /\ (isBreached e lastPrice && negb (PersistentEvent.isFailed e)
           && negb (state_eqb (PersistentEvent.state e) BROKEN))%bool = false)
      \/ ((isBreached e lastPrice && negb (PersistentEvent.isFailed e)
           && negb (state_eqb (PersistentEvent.state e) BROKEN))%bool = true
          /\ ((PersistentEvent.state (fst (toFail now age lastPrice e cds)) = BROKEN
               /\ snd (toFail now age lastPrice e cds) = cds)
              \/ (PersistentEvent.state (fst (toFail now age lastPrice e cds)) = FAIL
                  /\ (age >? 60000) = true
                  /\ (now >? JS.or_int
                               (JSMap.get Z.eqb
                                  (bucketOf (PersistentEvent.price e)) cds) 0)
                     = true
                  /\ snd (toFail now age lastPrice e cds)
                     = JSMap.set Z.eqb (bucketOf (PersistentEvent.price e))
                         (now + 300000) cds)))).
Proof.
  unfold toFail.
  destruct (isBreached e lastPrice && negb (PersistentEvent.isFailed e)
            && negb (state_eqb (PersistentEvent.state e) BROKEN))%bool.
  - destruct (breach_facts now age e cds) as [Hp H]. split; [exact Hp|].
    right. split; [reflexivity|exact H].
  - cbn. auto.
Qed.

Lemma retest_facts justUpdated age lastPrice e :
  PersistentEvent.price (retest justUpdated age lastPrice e)
  = PersistentEvent.price e
  /\ PersistentEvent.state (retest justUpdated age lastPrice e)
     = PersistentEvent.state e.
Proof.
  unfold retest.
  destruct (negb justUpdated && negb (PersistentEvent.isFailed e)
            && (age >? 60000))%bool; [|auto].
  destruct (JS.xltb _ _); cbn; auto.
Qed.

Lemma decay_facts age windowMs e :
  PersistentEvent.price (decay age windowMs e) = PersistentEvent.price e
  /\ PersistentEvent.state (decay age windowMs e) = PersistentEvent.state e.
Proof.
  unfold decay. destruct (negb (state_eqb (PersistentEvent.state e) FAIL));
    cbn; auto.
Qed.

Lemma isBreached_congr e e' lastPrice :
  PersistentEvent.price e' = PersistentEvent.price e ->
  PersistentEvent.side e' = PersistentEvent.side e ->
  isBreached e' lastPrice = isBreached e lastPrice.
Proof. unfold isBreached. intros -> ->. reflexivity. Qed.

(** What one pass of the loop body does to the state and the cooldowns. *)
Lemma stepEvent_spec now windowMs lastPrice e cds :
  (stepEvent now windowMs lastPrice e cds = (None, cds))
  \/ exists e',
       fst (stepEvent now windowMs lastPrice e cds) = Some e'
       /\ PersistentEvent.price e' = PersistentEvent.price e
       /\ ((snd (stepEvent now windowMs lastPrice e cds) = cds
            /\ (PersistentEvent.state e' = FAIL -> PersistentEvent.state e = FAIL))
           \/ (PersistentEvent.state e' = FAIL
               /\ PersistentEvent.state e <> FAIL
               /\ (now >? JS.or_int
                            (JSMap.get Z.eqb
                               (bucketOf (PersistentEvent.price e)) cds) 0)
                  = true
               /\ snd (stepEvent now windowMs lastPrice e cds)
                  = JSMap.set Z.eqb (bucketOf (PersistentEvent.price e))
                      (now + 300000) cds)).
Proof.
  unfold stepEvent.
  set (age := now - PersistentEvent.firstDetected e).
  destruct (_ && negb _)%bool; [now left|].
  destruct (state_eqb _ FAIL && _)%bool; [now left|].
  right.
  set (ju := now - PersistentEvent.lastConfirmed e <? 500).
  set (e1 := set_isActive ju e).
  set (e2 := toHolding age e1).
  set (e3 := toWeakening e2).
  destruct (toHolding_facts age e1) as (P2 & _ & _ & S2). fold e2 in P2, S2.
  destruct (toWeakening_facts e2) as (P3 & _ & _ & S3). fold e3 in P3, S3.
  assert (P13 : PersistentEvent.price e3 = PersistentEvent.price e)
    by (rewrite P3, P2; reflexivity).
  assert (S13 : PersistentEvent.state e3 = FAIL -> PersistentEvent.state e = FAIL).
  { intro F. destruct S3 as [S3|[S3 _]]; [|congruence].
    rewrite S3 in F. destruct S2 as [S2|[S2 _]]; [|congruence].
    rewrite S2 in F. exact F. }
  assert (S31 : PersistentEvent.state e = FAIL -> PersistentEvent.state e3 = FAIL).
  { intro F. destruct S2 as [S2|(_ & N & _)]; [|now elim N].
    destruct S3 as [S3|[_ S3]]; [|cbn in *; congruence].
    rewrite S3, S2. exact F. }
  destruct (toFail_facts now age lastPrice e3 cds) as [P4 H4].
  destruct (toFail now age lastPrice e3 cds) as [e4 cds4] eqn:T.
  cbn [fst snd] in *.
  destruct (retest_facts ju age lastPrice e4) as [P5 S5].
  destruct (decay_facts age windowMs (retest ju age lastPrice e4)) as [P6 S6].
  eexists. split; [reflexivity|]. split; [congruence|].
  rewrite S6, S5.
  destruct H4 as [[E _]|[G [[B C]|(F & _ & N & C)]]].
  - inversion E; subst. left. auto.
  - left. split; [exact C|]. congruence.
  - right. rewrite P13 in *. repeat split; auto.
    intro F0. apply S31 in F0.
    (* the guard let the event through, so it went through [isSignificant] *)
    revert T. unfold toFail. rewrite G. unfold breach. rewrite F0. cbn.
    intro T. inversion T; subst. cbn in F. discriminate.
Qed.


(** An event at most 60 s old that is breached leaves the loop body
    unexpired, not in FAIL, with the cooldowns untouched. *)
Lemma stepEvent_young now windowMs lastPrice e cds :
  now - PersistentEvent.firstDetected e <= 60000 ->
  60000 <= windowMs ->
  isBreached e lastPrice = true ->
  PersistentEvent.state e <> FAIL ->
  exists e',
    stepEvent now windowMs lastPrice e cds = (Some e', cds)
    /\ PersistentEvent.state e' <> FAIL
    /\ (PersistentEvent.isFailed e = false \/ PersistentEvent.state e = BROKEN ->
        PersistentEvent.state e' = BROKEN).
Proof.
  intros Hage Hwin Hbr Hst.
  unfold stepEvent.
  set (age := now - PersistentEvent.firstDetected e) in *.
  apply state_eqb_neq in Hst. rewrite Hst. cbn [negb andb].
  replace (age >? windowMs) with false by (symmetry; apply Zgtb_false; lia).
  cbn [andb].
  set (ju := now - PersistentEvent.lastConfirmed e <? 500).
  set (e1 := set_isActive ju e).
  assert (E2 : toHolding age e1 = e1).
  { unfold toHolding.
    replace (age >? 120000) with false by (symmetry; apply Zgtb_false; lia).
    now rewrite andb_false_r. }
  rewrite E2.
  set (e3 := toWeakening e1).
  destruct (toWeakening_facts e1) as (P3 & D3 & F3 & S3). fold e3 in P3, D3, F3, S3.
  assert (B3 : isBreached e3 lastPrice = true).
  { rewrite <- Hbr. apply isBreached_congr; [exact P3|exact D3]. }
  assert (N3 : PersistentEvent.state e3 <> FAIL).
  { apply state_eqb_neq in Hst. destruct S3 as [S3|[S3 _]]; rewrite S3.
    - exact Hst.
    - discriminate. }
  assert (T : exists e4,
             toFail now age lastPrice e3 cds = (e4, cds)
             /\ PersistentEvent.state e4 <> FAIL
             /\ (PersistentEvent.isFailed e = false
                 \/ PersistentEvent.state e = BROKEN ->
                 PersistentEvent.state e4 = BROKEN)).
  { assert (K3 : PersistentEvent.state e = BROKEN ->
                 PersistentEvent.state e3 = BROKEN).
    { intro B. change (PersistentEvent.state e1) with (PersistentEvent.state e) in S3.
      destruct S3 as [S3|[_ S3]]; congruence. }
    unfold toFail. rewrite B3. cbn [andb].
    change (PersistentEvent.isFailed e1) with (PersistentEvent.isFailed e) in F3.
    rewrite F3.
    destruct (PersistentEvent.isFailed e); cbn [negb andb].
    - exists e3. repeat split; [exact N3|]. intros [D|B]; [discriminate|auto].
    - destruct (state_eqb (PersistentEvent.state e3) BROKEN) eqn:B; cbn [negb].
      + apply state_eqb_eq in B. exists e3. repeat split; [exact N3|auto].
      + unfold breach.
        replace (age >? 60000) with false
          by (symmetry; apply Zgtb_false; lia).
        rewrite andb_false_r. cbn [andb].
        eexists. split; [reflexivity|]. cbn. split; [discriminate|auto]. }
  destruct T as (e4 & T & N4 & B4). rewrite T.
  destruct (retest_facts ju age lastPrice e4) as [_ S5].
  destruct (decay_facts age windowMs (retest ju age lastPrice e4)) as [_ S6].
  eexists. split; [reflexivity|]. rewrite S6, S5. auto.
Qed.

End Stages.

(** ** The loop over the event map *)

Section Loop.
Import EventEngine.
Local Open Scope Z_scope.
Variables (now windowMs : Z) (lastPrice : Q).

Lemma stateMachine_get_None key :
  forall entries cds,
    JSMap.get id_eqb key entries = None ->
    JSMap.get id_eqb key (fst (stateMachine now windowMs lastPrice entries cds))
    = None.
Proof.
  induction entries as [|[k e] rest IH]; intros cds H; simpl in *.
  - reflexivity.
  - destruct (id_eqb key k) eqn:E; [discriminate|].
    destruct (stepEvent now windowMs lastPrice e cds) as [oe cds1].
    specialize (IH cds1 H).
    destruct (stateMachine now windowMs lastPrice rest cds1) as [rest' cds2].
    cbn [fst] in *. destruct oe; simpl; [rewrite E|]; exact IH.
Qed.

Lemma stateMachine_uniq :
  forall entries cds,
    JSMap.uniq id_eqb entries ->
    JSMap.uniq id_eqb (fst (stateMachine now windowMs lastPrice entries cds)).
Proof.
  induction entries as [|[k e] rest IH]; intros cds H; simpl in *.
  - exact I.
  - destruct H as [Hk Hr].
    destruct (stepEvent now windowMs lastPrice e cds) as [oe cds1].
    pose proof (stateMachine_get_None k rest cds1 Hk) as Hk'.
    specialize (IH cds1 Hr).
    destruct (stateMachine now windowMs lastPrice rest cds1) as [rest' cds2].
    cbn [fst] in *. destruct oe; simpl; auto.
Qed.

(** The entry under [key] is handled by one pass of the loop body, started
    from cooldowns that satisfy any property [I] the body preserves; the
    passes that follow preserve [I] as well. *)
Lemma stateMachine_get (I : list (Z * Z) -> Prop) :
  (forall e cds, I cds -> I (snd (stepEvent now windowMs lastPrice e cds))) ->
  forall entries cds key e,
    JSMap.uniq id_eqb entries ->
    JSMap.get id_eqb key entries = Some e ->
    I cds ->
    exists cds0,
      I cds0
      /\ JSMap.get id_eqb key
           (fst (stateMachine now windowMs lastPrice entries cds))
         = fst (stepEvent now windowMs lastPrice e cds0).
Proof.
  intro Hpres.
  induction entries as [|[k e0] rest IH]; intros cds key e Hu Hget HI;
    simpl in *.
  - discriminate.
  - destruct Hu as [Hk Hr].
    destruct (id_eqb key k) eqn:E.
    + inversion Hget; subst e0. exists cds. split; [exact HI|].
      assert (Hkey : JSMap.get id_eqb key rest = None).
      { rewrite (get_congr id_eqb id_eqb_sym id_eqb_trans _ _ rest E). exact Hk. }
      destruct (stepEvent now windowMs lastPrice e cds) as [oe cds1].
      pose proof (stateMachine_get_None key rest cds1 Hkey) as Hn.
      destruct (stateMachine now windowMs lastPrice rest cds1) as [rest' cds2].
      cbn [fst] in *. destruct oe; simpl; [now rewrite E|exact Hn].
    + pose proof (Hpres e0 cds HI) as HI1.
      destruct (stepEvent now windowMs lastPrice e0 cds) as [oe cds1].
      cbn [snd] in HI1.
      destruct (IH cds1 key e Hr Hget HI1) as [cds0 [HI0 H0]].
      exists cds0. split; [exact HI0|].
      destruct (stateMachine now windowMs lastPrice rest cds1) as [rest' cds2].
      cbn [fst] in *. destruct oe; simpl; [rewrite E|]; exact H0.
Qed.

Lemma stateMachine_preserves (I : list (Z * Z) -> Prop) :
  (forall e cds, I cds -> I (snd (stepEvent now windowMs lastPrice e cds))) ->
  forall entries cds,
    I cds -> I (snd (stateMachine now windowMs lastPrice entries cds)).
Proof.
  intro Hpres. induction entries as [|[k e0] rest IH]; intros cds HI; simpl.
  - exact HI.
  - pose proof (Hpres e0 cds HI) as HI1.
    destruct (stepEvent now windowMs lastPrice e0 cds) as [oe cds1].
    cbn [snd] in HI1. specialize (IH cds1 HI1).
    destruct (stateMachine now windowMs lastPrice rest cds1) as [rest' cds2].
    exact IH.
Qed.

End Loop.

(** ** The detection phase keeps the keys unique *)

Section Detection.
Import EventEngine.

Lemma processLevel_uniq side now lastPrice evs lvl :
  JSMap.uniq id_eqb evs ->
  JSMap.uniq id_eqb (processLevel side now lastPrice evs lvl).
Proof.
  intro H. unfold processLevel.
  destruct (detect lvl) as [[ty st]|]; [|exact H].
  destruct (JSMap.get id_eqb (side, EnrichedLevel.price lvl) evs).
  - destruct (_ || _)%bool; [exact H|].
    now apply (set_uniq id_eqb id_eqb_sym id_eqb_trans).
  - destruct (match side with bid => _ | ask => _ end); [exact H|].
    now apply (set_uniq id_eqb id_eqb_sym id_eqb_trans).
Qed.

Lemma processLevels_uniq side now lastPrice :
  forall levels evs,
    JSMap.uniq id_eqb evs ->
    JSMap.uniq id_eqb (processLevels levels side now lastPrice evs).
Proof.
  unfold processLevels.
  induction levels as [|lvl r IH]; intros evs H; simpl.
  - exact H.
  - apply IH. now apply processLevel_uniq.
Qed.

Lemma detectedAt_uniq g c :
  JSMap.uniq id_eqb (events g) -> JSMap.uniq id_eqb (detectedAt g c).
Proof.
  intro H. unfold detectedAt, detected.
  now repeat apply processLevels_uniq.
Qed.

Lemma after_events g c :
  events (after g c)
  = fst (stateMachine (tick_now c) (windowMinutes g * 60 * 1000)
           (tick_lastPrice c) (detectedAt g c) (failCooldowns g)).
Proof.
  unfold after, process, detectedAt.
  destruct (stateMachine _ _ _ _ _) as [evs' cds]. reflexivity.
Qed.

Lemma after_uniq g c :
  JSMap.uniq id_eqb (events g) -> JSMap.uniq id_eqb (events (after g c)).
Proof.
  intro H. rewrite after_events. apply stateMachine_uniq.
  now apply detectedAt_uniq.
Qed.

End Detection.

(** ** The failed flag agrees with the state *)

Section Consistency.
Import EventEngine.
Context {K : Type} (keqb : K -> K -> bool).

Lemma get_Forall (P : PersistentEvent.t -> Prop) (k : K)
    (m : list (K * PersistentEvent.t)) (v : PersistentEvent.t) :
  Forall P (JSMap.values m) -> JSMap.get keqb k m = Some v -> P v.
Proof.
  induction m as [|[k0 v0] r IH]; simpl; [discriminate|].
  intros H G. inversion H; subst.
  destruct (keqb k k0); [inversion G; subst; assumption|auto].
Qed.

Lemma set_Forall (P : PersistentEvent.t -> Prop) (k : K)
    (m : list (K * PersistentEvent.t)) (v : PersistentEvent.t) :
  Forall P (JSMap.values m) -> P v -> Forall P (JSMap.values (JSMap.set keqb k v m)).
Proof.
  intros H Hv. induction m as [|[k0 v0] r IH]; simpl in *.
  - repeat constructor. exact Hv.
  - inversion H; subst. destruct (keqb k k0); simpl; constructor; auto.
Qed.

End Consistency.

Section ConsistentEngine.
Import EventEngine.
Local Open Scope Z_scope.

Lemma reinforce_consistent detectedType now lvl existing :
  (state_eqb (PersistentEvent.state existing) FAIL
   || state_eqb (PersistentEvent.state existing) BROKEN)%bool = false ->
  consistent existing ->
  consistent (reinforce detectedType now lvl existing).
Proof.
  intros Hs Hc.
  assert (F : PersistentEvent.isFailed existing = false).
  { destruct (PersistentEvent.isFailed existing) eqn:E; [|reflexivity].
    apply orb_false_iff in Hs. destruct Hs as [S1 S2].
    apply state_eqb_neq in S1, S2. destruct (Hc E); contradiction. }
  assert (F' : PersistentEvent.isFailed (reinforce detectedType now lvl existing)
               = false).
  { unfold reinforce.
    repeat match goal with
           | |- context [if ?b then _ else _] => destruct b
           end; exact F. }
  intro H. congruence.
Qed.

Lemma processLevel_consistent side now lastPrice evs lvl :
  Forall consistent (JSMap.values evs) ->
  Forall consistent (JSMap.values (processLevel side now lastPrice evs lvl)).
Proof.
  intro H. unfold processLevel.
  destruct (detect lvl) as [[ty st]|]; [|exact H].
  destruct (JSMap.get id_eqb (side, EnrichedLevel.price lvl) evs) as [ex|] eqn:G.
  - destruct (_ || _)%bool eqn:S; [exact H|].
    apply set_Forall; [exact H|].
    apply reinforce_consistent; [exact S|].
    eapply get_Forall; eassumption.
  - destruct (match side with bid => _ | ask => _ end); [exact H|].
    apply set_Forall; [exact H|]. intro F. discriminate.
Qed.

Lemma processLevels_consistent side now lastPrice :
  forall levels evs,
    Forall consistent (JSMap.values evs) ->
    Forall consistent (JSMap.values (processLevels levels side now lastPrice evs)).
Proof.
  unfold processLevels.
  induction levels as [|lvl r IH]; intros evs H; simpl.
  - exact H.
  - apply IH. now apply processLevel_consistent.
Qed.

Lemma detectedAt_consistent g c :
  Forall consistent (JSMap.values (events g)) ->
  Forall consistent (JSMap.values (detectedAt g c)).
Proof.
  intro H. unfold detectedAt, detected.
  now repeat apply processLevels_consistent.
Qed.

Lemma toHolding_consistent age e : consistent e -> consistent (toHolding age e).
Proof.
  unfold toHolding.
  destruct (_ && _ && _)%bool eqn:G; [|auto].
  intros Hc F. cbn in F. exfalso.
  destruct (Hc F) as [S|S]; rewrite S in G; discriminate.
Qed.

Lemma toWeakening_consistent e : consistent e -> consistent (toWeakening e).
Proof.
  unfold toWeakening.
  destruct (_ && _ && _)%bool eqn:G; [|auto].
  intros Hc F. cbn in F. exfalso.
  destruct (Hc F) as [S|S]; rewrite S in G; cbn in G;
    rewrite andb_false_r in G; discriminate.
Qed.

Lemma toFail_consistent now age lastPrice e cds :
  consistent e -> consistent (fst (toFail now age lastPrice e cds)).
Proof.
  intro Hc. unfold toFail.
  destruct (_ && _)%bool; [|exact Hc].
  unfold breach.
  destruct (_ && _)%bool; [destruct (JS.geb _ 70)|]; cbn; intro; auto.
Qed.

Lemma retest_consistent ju age lastPrice e :
  consistent e -> consistent (retest ju age lastPrice e).
Proof.
  unfold retest. destruct (_ && _)%bool; [|auto].
  destruct (JS.xltb _ _); auto.
Qed.

Lemma decay_consistent age windowMs e :
  consistent e -> consistent (decay age windowMs e).
Proof.
  unfold decay. destruct (negb _); auto.
Qed.

Lemma stepEvent_consistent now windowMs lastPrice e cds e' :
  consistent e ->
  fst (stepEvent now windowMs lastPrice e cds) = Some e' ->
  consistent e'.
Proof.
  intro Hc. unfold stepEvent.
  destruct (_ && negb _)%bool; [discriminate|].
  destruct (state_eqb _ FAIL && _)%bool; [discriminate|].
  set (age := now - PersistentEvent.firstDetected e).
  set (ju := now - PersistentEvent.lastConfirmed e <? 500).
  pose proof (@toFail_consistent now age lastPrice
                (toWeakening (toHolding age (set_isActive ju e))) cds) as H.
  destruct (toFail now age lastPrice _ cds) as [e4 cds4].
  cbn [fst]. intro E. inversion E; subst.
  apply decay_consistent, retest_consistent, H.
  apply toWeakening_consistent, toHolding_consistent. exact Hc.
Qed.

Lemma stateMachine_consistent now windowMs lastPrice :
  forall entries cds,
    Forall consistent (JSMap.values entries) ->
    Forall consistent
      (JSMap.values (fst (stateMachine now windowMs lastPrice entries cds))).
Proof.
  induction entries as [|[k e] rest IH]; intros cds H; simpl in *.
  - constructor.
  - inversion H; subst.
    pose proof (@stepEvent_consistent now windowMs lastPrice e cds) as Hs.
    destruct (stepEvent now windowMs lastPrice e cds) as [oe cds1].
    specialize (IH cds1 H3).
    destruct (stateMachine now windowMs lastPrice rest cds1) as [rest' cds2].
    cbn [fst] in *. destruct oe as [e'|]; simpl; [|exact IH].
    constructor; [|exact IH]. now apply Hs.
Qed.

Lemma after_consistent g c :
  Forall consistent (JSMap.values (events g)) ->
  Forall consistent (JSMap.values (events (after g c))).
Proof.
  intro H. rewrite after_events. apply stateMachine_consistent.
  now apply detectedAt_consistent.
Qed.

End ConsistentEngine.

(** ** Nothing increments the failed-push counter *)

Section FailedPushes.
Import EventEngine.

Lemma processLevel_failedPushes side now lastPrice evs lvl :
  Forall (fun e => PersistentEvent.failedPushes e = 0%Z) (JSMap.values evs) ->
  Forall (fun e => PersistentEvent.failedPushes e = 0%Z)
    (JSMap.values (processLevel side now lastPrice evs lvl)).
Proof.
  intro H. unfold processLevel.
  destruct (detect lvl) as [[ty st]|]; [|exact H].
  destruct (JSMap.get id_eqb (side, EnrichedLevel.price lvl) evs) as [ex|] eqn:G.
  - destruct (_ || _)%bool; [exact H|].
    apply set_Forall; [exact H|].
    rewrite reinforce_failedPushes.
    eapply (@get_Forall _ id_eqb
              (fun e => PersistentEvent.failedPushes e = 0%Z));
      eassumption.
  - destruct (match side with bid => _ | ask => _ end); [exact H|].
    apply set_Forall; [exact H|reflexivity].
Qed.

Lemma processLevels_failedPushes side now lastPrice :
  forall levels evs,
    Forall (fun e => PersistentEvent.failedPushes e = 0%Z) (JSMap.values evs) ->
    Forall (fun e => PersistentEvent.failedPushes e = 0%Z)
      (JSMap.values (processLevels levels side now lastPrice evs)).
Proof.
  unfold processLevels.
  induction levels as [|lvl r IH]; intros evs H; simpl.
  - exact H.
  - apply IH. now apply processLevel_failedPushes.
Qed.

Lemma stepEvent_failedPushes now windowMs lastPrice e cds e' :
  fst (stepEvent now windowMs lastPrice e cds) = Some e' ->
  PersistentEvent.failedPushes e' = PersistentEvent.failedPushes e.
Proof.
  unfold stepEvent, toFail, breach, retest, decay, toWeakening, toHolding.
  repeat match goal with
         | |- context [if ?b then _ else _] => destruct b
         end;
    cbn; intro H; inversion H; reflexivity.
Qed.

Lemma stateMachine_failedPushes now windowMs lastPrice :
  forall entries cds,
    Forall (fun e => PersistentEvent.failedPushes e = 0%Z) (JSMap.values entries) ->
    Forall (fun e => PersistentEvent.failedPushes e = 0%Z)
      (JSMap.values (fst (stateMachine now windowMs lastPrice entries cds))).
Proof.
  induction entries as [|[k e] rest IH]; intros cds H; simpl in *.
  - constructor.
  - inversion H; subst.
    pose proof (@stepEvent_failedPushes now windowMs lastPrice e cds) as Hs.
    destruct (stepEvent now windowMs lastPrice e cds) as [oe cds1].
    specialize (IH cds1 H3).
    destruct (stateMachine now windowMs lastPrice rest cds1) as [rest' cds2].
    cbn [fst] in *. destruct oe as [e'|]; simpl; [|exact IH].
    constructor; [|exact IH]. rewrite (Hs e' eq_refl). exact H2.
Qed.

(** In every engine a program can hold, every event has
    [failedPushes = 0]. *)
Lemma reachable_failedPushes g :
  reachable g ->
  Forall (fun e => PersistentEvent.failedPushes e = 0%Z) (JSMap.values (events g)).
Proof.
  induction 1 as [|w g Hg IH|g c Hg IH].
  - constructor.
  - exact IH.
  - rewrite after_events. apply stateMachine_failedPushes.
    unfold detectedAt, detected. now repeat apply processLevels_failedPushes.
Qed.

End FailedPushes.

(** ** Reachable engines *)

Section Reachable.
Import EventEngine.

Lemma after_windowMinutes g c : windowMinutes (after g c) = windowMinutes g.
Proof.
  unfold after, process. destruct (stateMachine _ _ _ _ _). reflexivity.
Qed.

Lemma reachable_uniq g : reachable g -> JSMap.uniq id_eqb (events g).
Proof.
  induction 1 as [|w g Hg IH|g c Hg IH].
  - exact I.
  - exact IH.
  - now apply after_uniq.
Qed.

Lemma reachable_consistent g :
  reachable g -> Forall consistent (JSMap.values (events g)).
Proof.
  induction 1 as [|w g Hg IH|g c Hg IH].
  - constructor.
  - exact IH.
  - now apply after_consistent.
Qed.

Lemma reachable_window g : reachable g -> (15 <= windowMinutes g)%Z.
Proof.
  induction 1 as [|w g Hg IH|g c Hg IH].
  - simpl. lia.
  - destruct w; simpl; lia.
  - now rewrite after_windowMinutes.
Qed.

End Reachable.

(** ** C5: a breached event younger than 60 s *)

(** C5.  In a call of [process] on a reachable engine, an event that
    enters the state machine at most 60000 ms after [firstDetected],
    breached by [lastPrice] beyond the 0.03% tolerance and not already in
    FAIL, does not go to FAIL: it is still in the map after the call, in
    state BROKEN. *)
Theorem process_young_breach_is_broken :
  forall (g : EventEngine.Engine) (c : Tick) (key : Side * Q)
         (event : PersistentEvent.t),
    reachable g ->
    JSMap.get EventEngine.id_eqb key (detectedAt g c) = Some event ->
    (tick_now c - PersistentEvent.firstDetected event <= 60000)%Z ->
    EventEngine.isBreached event (tick_lastPrice c) = true ->
    PersistentEvent.state event <> FAIL ->
    exists event',
      JSMap.get EventEngine.id_eqb key (EventEngine.events (after g c))
      = Some event'
      /\ PersistentEvent.state event' = BROKEN.
Proof.
  intros g c key event Hr Hget Hage Hbr Hst.
  pose proof (reachable_uniq Hr) as Hu.
  pose proof (reachable_window Hr) as Hw.
  assert (Hc : consistent event).
  { eapply get_Forall; [|exact Hget].
    apply detectedAt_consistent, reachable_consistent, Hr. }
  rewrite after_events.
  destruct (@stateMachine_get (tick_now c)
              (EventEngine.windowMinutes g * 60 * 1000) (tick_lastPrice c)
              (fun _ => True) (fun _ _ _ => I)
              (detectedAt g c) (EventEngine.failCooldowns g) key event
              (detectedAt_uniq g c Hu) Hget I) as [cds0 [_ H0]].
  destruct (@stepEvent_young (tick_now c)
              (EventEngine.windowMinutes g * 60 * 1000) (tick_lastPrice c)
              event cds0 Hage ltac:(lia) Hbr Hst) as (e' & E & N & B).
  exists e'. rewrite H0, E. split; [reflexivity|].
  apply B. destruct (PersistentEvent.isFailed event) eqn:F; [|now left].
  right. destruct (Hc F); [contradiction|assumption].
Qed.

Lemma process_young_breach_is_broken_witness :
  exists event event',
    JSMap.get EventEngine.id_eqb (bid, 50000%Q)
      (detectedAt Samples.engine1 Samples.earlyBreach)
    = Some event
    /\ JSMap.get EventEngine.id_eqb (bid, 50000%Q)
         (EventEngine.events (after Samples.engine1 Samples.earlyBreach))
       = Some event'
    /\ PersistentEvent.state event' = BROKEN.
Proof.
  eexists.
  assert (G : JSMap.get EventEngine.id_eqb (bid, 50000%Q)
                (detectedAt Samples.engine1 Samples.earlyBreach) = Some _)
    by (vm_compute; reflexivity).
  destruct (@process_young_breach_is_broken Samples.engine1 Samples.earlyBreach
              (bid, 50000%Q) _
              (reach_process Samples.firstTick reach_new) G)
    as (event' & G' & B).
  - vm_compute. discriminate.
  - reflexivity.
  - discriminate.
  - exists event'. split; [exact G|]. split; assumption.
Defined.

(** ** C6: the FAIL cooldown of a price bucket *)

Section Cooldown.
Import EventEngine.
Local Open Scope Z_scope.

Lemma cooldown_get_set_same (b v : Z) (cds : list (Z * Z)) :
  JSMap.get Z.eqb b (JSMap.set Z.eqb b v cds) = Some v.
Proof. apply get_set_same. apply Z.eqb_refl. Qed.

Lemma cooldown_get_set_other (b b' v : Z) (cds : list (Z * Z)) :
  b <> b' ->
  JSMap.get Z.eqb b (JSMap.set Z.eqb b' v cds) = JSMap.get Z.eqb b cds.
Proof.
  intro H. apply get_set_other.
  - apply Zeqb_sym.
  - apply Zeqb_trans.
  - now apply Z.eqb_neq.
Qed.

Lemma or_int_Some (c : Z) : JS.or_int (Some c) 0 = c.
Proof.
  unfold JS.or_int. destruct (c =? 0) eqn:E; [|reflexivity].
  apply Z.eqb_eq in E. now subst.
Qed.

Section OneCall.
Variables (now windowMs : Z) (lastPrice : Q).

(** While the bucket [b] is in cooldown, the loop body leaves its entry
    alone. *)
Lemma stepEvent_keeps_cooldown (b c : Z) :
  now <= c ->
  forall e cds,
    JSMap.get Z.eqb b cds = Some c ->
    JSMap.get Z.eqb b (snd (stepEvent now windowMs lastPrice e cds)) = Some c.
Proof.
  intros Hc e cds Hget.
  destruct (stepEvent_spec now windowMs lastPrice e cds)
    as [E|(e' & _ & _ & [[E _]|(_ & _ & G & E)])].
  - now rewrite E.
  - now rewrite E.
  - rewrite E.
    destruct (Z.eq_dec b (bucketOf (PersistentEvent.price e))) as [->|Hne].
    + rewrite Hget, or_int_Some in G. apply Z.gtb_lt in G. lia.
    + now rewrite cooldown_get_set_other.
Qed.

(** While its bucket is in cooldown, no event goes to FAIL. *)
Lemma stepEvent_cooled (c : Z) e cds e' :
  JSMap.get Z.eqb (bucketOf (PersistentEvent.price e)) cds = Some c ->
  now <= c ->
  PersistentEvent.state e <> FAIL ->
  fst (stepEvent now windowMs lastPrice e cds) = Some e' ->
  PersistentEvent.state e' <> FAIL.
Proof.
  intros Hget Hc Hst Hstep.
  destruct (stepEvent_spec now windowMs lastPrice e cds)
    as [E|(e1 & E1 & _ & [[_ S]|(_ & _ & G & _)])].
  - rewrite E in Hstep. discriminate.
  - rewrite E1 in Hstep. inversion Hstep; subst. auto.
  - rewrite Hget, or_int_Some in G. apply Z.gtb_lt in G. lia.
Qed.

(** A transition to FAIL arms the cooldown of the bucket of the event. *)
Lemma stepEvent_fail_arms e cds e' :
  fst (stepEvent now windowMs lastPrice e cds) = Some e' ->
  PersistentEvent.state e <> FAIL ->
  PersistentEvent.state e' = FAIL ->
  JSMap.get Z.eqb (bucketOf (PersistentEvent.price e))
    (snd (stepEvent now windowMs lastPrice e cds))
  = Some (now + 300000).
Proof.
  intros Hstep Hst Hfail.
  destruct (stepEvent_spec now windowMs lastPrice e cds)
    as [E|(e1 & E1 & _ & [[_ S]|(_ & _ & _ & E)])].
  - rewrite E in Hstep. discriminate.
  - rewrite E1 in Hstep. inversion Hstep; subst. tauto.
  - rewrite E. apply cooldown_get_set_same.
Qed.

Lemma stateMachine_keeps_cooldown (b c : Z) :
  now <= c ->
  forall entries cds,
    JSMap.get Z.eqb b cds = Some c ->
    JSMap.get Z.eqb b (snd (stateMachine now windowMs lastPrice entries cds))
    = Some c.
Proof.
  intros Hc entries cds.
  apply (@stateMachine_preserves now windowMs lastPrice
           (fun cds => JSMap.get Z.eqb b cds = Some c)).
  intros e cds0. now apply stepEvent_keeps_cooldown.
Qed.

Lemma stateMachine_cooled (c : Z) entries cds key e e' :
  JSMap.uniq id_eqb entries ->
  JSMap.get Z.eqb (bucketOf (PersistentEvent.price e)) cds = Some c ->
  now <= c ->
  JSMap.get id_eqb key entries = Some e ->
  PersistentEvent.state e <> FAIL ->
  JSMap.get id_eqb key (fst (stateMachine now windowMs lastPrice entries cds))
  = Some e' ->
  PersistentEvent.state e' <> FAIL.
Proof.
  intros Hu Hcd Hc Hget Hst Hget'.
  destruct (@stateMachine_get now windowMs lastPrice
              (fun cds => JSMap.get Z.eqb (bucketOf (PersistentEvent.price e)) cds
                          = Some c)
              (fun e0 cds0 => @stepEvent_keeps_cooldown _ c Hc e0 cds0)
              entries cds key e Hu Hget Hcd) as [cds0 [H0 E0]].
  rewrite E0 in Hget'.
  eapply stepEvent_cooled; eassumption.
Qed.

Lemma stateMachine_fail_arms :
  forall entries cds key e e',
    JSMap.uniq id_eqb entries ->
    JSMap.get id_eqb key entries = Some e ->
    PersistentEvent.state e <> FAIL ->
    JSMap.get id_eqb key (fst (stateMachine now windowMs lastPrice entries cds))
    = Some e' ->
    PersistentEvent.state e' = FAIL ->
    JSMap.get Z.eqb (bucketOf (PersistentEvent.price e))
      (snd (stateMachine now windowMs lastPrice entries cds))
    = Some (now + 300000).
Proof.
  induction entries as [|[k e0] rest IH]; intros cds key e e' Hu Hget Hst Hget' Hf;
    simpl in *.
  - discriminate.
  - destruct Hu as [Hk Hr].
    destruct (id_eqb key k) eqn:E.
    + inversion Hget; subst e0.
      assert (Hkey : JSMap.get id_eqb key rest = None).
      { rewrite (get_congr id_eqb id_eqb_sym id_eqb_trans _ _ rest E). exact Hk. }
      pose proof (@stepEvent_fail_arms e cds) as Harm.
      destruct (stepEvent now windowMs lastPrice e cds) as [oe cds1].
      pose proof (stateMachine_get_None now windowMs lastPrice key rest cds1 Hkey)
        as Hn.
      pose proof (@stateMachine_keeps_cooldown
                    (bucketOf (PersistentEvent.price e)) (now + 300000)
                    ltac:(lia) rest cds1) as Hkeep.
      destruct (stateMachine now windowMs lastPrice rest cds1) as [rest' cds2].
      cbn [fst snd] in *. destruct oe as [e1|]; simpl in Hget'.
      * rewrite E in Hget'. inversion Hget'; subst e1.
        apply Hkeep. eapply Harm; [reflexivity|exact Hst|exact Hf].
      * congruence.
    + destruct (stepEvent now windowMs lastPrice e0 cds) as [oe cds1].
      specialize (IH cds1 key e e' Hr Hget Hst).
      destruct (stateMachine now windowMs lastPrice rest cds1) as [rest' cds2].
      cbn [fst snd] in *. apply IH; [|exact Hf].
      destruct oe; simpl in Hget'; [rewrite E in Hget'|]; exact Hget'.
Qed.

(** Two entries of one bucket do not both go to FAIL in one call. *)
Lemma stateMachine_one_fail :
  forall entries cds k1 k2 e1 e2 e1' e2',
    JSMap.uniq id_eqb entries ->
    id_eqb k1 k2 = false ->
    JSMap.get id_eqb k1 entries = Some e1 ->
    JSMap.get id_eqb k2 entries = Some e2 ->
    bucketOf (PersistentEvent.price e2) = bucketOf (PersistentEvent.price e1) ->
    PersistentEvent.state e1 <> FAIL ->
    PersistentEvent.state e2 <> FAIL ->
    JSMap.get id_eqb k1 (fst (stateMachine now windowMs lastPrice entries cds))
    = Some e1' ->
    JSMap.get id_eqb k2 (fst (stateMachine now windowMs lastPrice entries cds))
    = Some e2' ->
    PersistentEvent.state e1' = FAIL ->
    PersistentEvent.state e2' = FAIL ->
    False.
Proof.
  assert (Head : forall rest cds ka kb ea eb ea' eb' oe cds1 k,
             JSMap.get id_eqb k rest = None ->
             JSMap.uniq id_eqb rest ->
             id_eqb ka k = true -> id_eqb kb k = false ->
             stepEvent now windowMs lastPrice ea cds = (oe, cds1) ->
             JSMap.get id_eqb kb rest = Some eb ->
             bucketOf (PersistentEvent.price eb)
             = bucketOf (PersistentEvent.price ea) ->
             PersistentEvent.state ea <> FAIL ->
             PersistentEvent.state eb <> FAIL ->
             JSMap.get id_eqb ka
               (match oe with
                | Some ev => (k, ev) :: fst (stateMachine now windowMs lastPrice rest cds1)
                | None => fst (stateMachine now windowMs lastPrice rest cds1)
                end) = Some ea' ->
             JSMap.get id_eqb kb (fst (stateMachine now windowMs lastPrice rest cds1))
             = Some eb' ->
             PersistentEvent.state ea' = FAIL ->
             PersistentEvent.state eb' = FAIL -> False).
  { intros rest cds ka kb ea eb ea' eb' oe cds1 k Hk Hr Ea Eb Hstep Hgb Hbk Sa Sb
           Ha' Hb' Fa Fb.
    assert (Hka : JSMap.get id_eqb ka rest = None).
    { rewrite (get_congr id_eqb id_eqb_sym id_eqb_trans _ _ rest Ea). exact Hk. }
    pose proof (stateMachine_get_None now windowMs lastPrice ka rest cds1 Hka) as Hn.
    destruct oe as [ev|]; simpl in Ha'; [rewrite Ea in Ha'|congruence].
    inversion Ha'; subst ev.
    assert (Harm : JSMap.get Z.eqb (bucketOf (PersistentEvent.price eb)) cds1
                   = Some (now + 300000)).
    { rewrite Hbk.
      pose proof (@stepEvent_fail_arms ea cds ea') as H.
      rewrite Hstep in H. cbn [fst snd] in H. now apply H. }
    apply (@stateMachine_cooled (now + 300000) rest cds1 kb eb eb');
      auto; lia. }
  induction entries as [|[k e0] rest IH];
    intros cds k1 k2 e1 e2 e1' e2' Hu Hne G1 G2 Hbk S1 S2 G1' G2' F1 F2;
    simpl in *.
  - discriminate.
  - destruct Hu as [Hk Hr].
    destruct (stepEvent now windowMs lastPrice e0 cds) as [oe cds1] eqn:Hstep.
    destruct (stateMachine now windowMs lastPrice rest cds1) as [rest' cds2] eqn:Hsm.
    cbn [fst] in *.
    assert (Hrest : rest' = fst (stateMachine now windowMs lastPrice rest cds1))
      by now rewrite Hsm.
    destruct (id_eqb k1 k) eqn:E1; destruct (id_eqb k2 k) eqn:E2.
    + rewrite id_eqb_sym in E2.
      pose proof (id_eqb_trans _ _ _ E1 E2). congruence.
    + inversion G1; subst e0.
      apply (@Head rest cds k1 k2 e1 e2 e1' e2' oe cds1 k); auto.
      * rewrite <- Hrest. exact G1'.
      * rewrite <- Hrest.
        destruct oe; simpl in G2'; [rewrite E2 in G2'|]; exact G2'.
    + inversion G2; subst e0.
      apply (@Head rest cds k2 k1 e2 e1 e2' e1' oe cds1 k); auto.
      * rewrite <- Hrest. exact G2'.
      * rewrite <- Hrest.
        destruct oe; simpl in G1'; [rewrite E1 in G1'|]; exact G1'.
    + apply (IH cds1 k1 k2 e1 e2 e1' e2'); auto; rewrite Hsm; cbn [fst].
      * destruct oe; simpl in G1'; [rewrite E1 in G1'|]; exact G1'.
      * destruct oe; simpl in G2'; [rewrite E2 in G2'|]; exact G2'.
Qed.

End OneCall.

Lemma purge_keeps_cooldown (now b c : Z) (cds : list (Z * Z)) :
  now <= c ->
  JSMap.get Z.eqb b cds = Some c ->
  JSMap.get Z.eqb b (purgeCooldowns now cds) = Some c.
Proof.
  intro Hc. unfold purgeCooldowns.
  induction cds as [|[k t] r IH]; simpl; [discriminate|].
  destruct (b =? k) eqn:E.
  - intro H. inversion H; subst t.
    rewrite (Zgtb_false Hc). simpl. now rewrite E.
  - intro H. destruct (negb (now >? t)); simpl; [rewrite E|]; auto.
Qed.

Lemma after_cooldowns g c :
  failCooldowns (after g c)
  = let cds := snd (stateMachine (tick_now c) (windowMinutes g * 60 * 1000)
                      (tick_lastPrice c) (detectedAt g c) (failCooldowns g)) in
    if JS.gtb (tick_random c) 0.95 then purgeCooldowns (tick_now c) cds else cds.
Proof.
  unfold after, process, detectedAt.
  destruct (stateMachine _ _ _ _ _) as [evs' cds]. reflexivity.
Qed.

Lemma after_keeps_cooldown g c (b cd : Z) :
  tick_now c <= cd ->
  JSMap.get Z.eqb b (failCooldowns g) = Some cd ->
  JSMap.get Z.eqb b (failCooldowns (after g c)) = Some cd.
Proof.
  intros Hc Hget. rewrite after_cooldowns. cbv zeta.
  pose proof (@stateMachine_keeps_cooldown (tick_now c)
                (windowMinutes g * 60 * 1000) (tick_lastPrice c) b cd Hc
                (detectedAt g c) (failCooldowns g) Hget) as H.
  destruct (JS.gtb (tick_random c) 0.95); [|exact H].
  now apply purge_keeps_cooldown.
Qed.

(** In a call made while the bucket is in cooldown, no event of the bucket
    goes to FAIL. *)
Lemma cooled_no_fail g c (cd : Z) key p :
  JSMap.uniq id_eqb (events g) ->
  JSMap.get Z.eqb (bucketOf p) (failCooldowns g) = Some cd ->
  tick_now c <= cd ->
  ~ failsIn g c key p.
Proof.
  intros Hu Hget Hc (e & e' & G & S & P & G' & F).
  rewrite after_events in G'. subst p.
  apply (@stateMachine_cooled (tick_now c) (windowMinutes g * 60 * 1000)
           (tick_lastPrice c) cd (detectedAt g c) (failCooldowns g) key e e');
    auto using detectedAt_uniq.
Qed.

(** A transition to FAIL leaves the cooldown of the bucket armed for
    300000 ms. *)
Lemma failsIn_arms g c key p :
  JSMap.uniq id_eqb (events g) ->
  failsIn g c key p ->
  JSMap.get Z.eqb (bucketOf p) (failCooldowns (after g c))
  = Some (tick_now c + 300000).
Proof.
  intros Hu (e & e' & G & S & P & G' & F).
  rewrite after_events in G'. subst p. rewrite after_cooldowns. cbv zeta.
  pose proof (@stateMachine_fail_arms (tick_now c) (windowMinutes g * 60 * 1000)
                (tick_lastPrice c) (detectedAt g c) (failCooldowns g) key e e'
                (detectedAt_uniq g c Hu) G S G' F) as H.
  destruct (JS.gtb (tick_random c) 0.95); [|exact H].
  apply purge_keeps_cooldown; [lia|exact H].
Qed.

Lemma afterAll_keeps_cooldown (b cd : Z) :
  forall cs g,
    Forall (fun c => tick_now c <= cd) cs ->
    JSMap.uniq id_eqb (events g) ->
    JSMap.get Z.eqb b (failCooldowns g) = Some cd ->
    JSMap.uniq id_eqb (events (afterAll g cs))
    /\ JSMap.get Z.eqb b (failCooldowns (afterAll g cs)) = Some cd.
Proof.
  unfold afterAll.
  induction cs as [|c r IH]; intros g Hall Hu Hget; simpl.
  - auto.
  - inversion Hall; subst. apply IH; auto.
    + now apply after_uniq.
    + now apply after_keeps_cooldown.
Qed.

End Cooldown.

(** C6.  On a reachable engine, let the event under [k1], at price [P1],
    go to FAIL during a call of [process] at time [t].  No event under
    another key at a price [P2] of the same 10-unit bucket goes to FAIL in
    that call, and no event at such a price goes to FAIL in any later call,
    as long as the calls up to and including it are made at times at most
    [t + 300000]. *)
Theorem fail_cooldown_blocks_bucket :
  forall (g : EventEngine.Engine) (c1 : Tick) (k1 : Side * Q) (P1 : Q)
         (k2 : Side * Q) (P2 : Q),
    reachable g ->
    failsIn g c1 k1 P1 ->
    EventEngine.bucketOf P2 = EventEngine.bucketOf P1 ->
    (EventEngine.id_eqb k1 k2 = false -> ~ failsIn g c1 k2 P2)
    /\ (forall (later : list Tick) (c2 : Tick),
           Forall (fun c => (tick_now c <= tick_now c1 + 300000)%Z)
             (later ++ [c2]) ->
           ~ failsIn (afterAll (after g c1) later) c2 k2 P2).
Proof.
  intros g c1 k1 P1 k2 P2 Hr Hfail Hbk.
  pose proof (reachable_uniq Hr) as Hu. split.
  - intros Hne (e2 & e2' & G2 & S2 & Pr2 & G2' & F2).
    destruct Hfail as (e1 & e1' & G1 & S1 & Pr1 & G1' & F1).
    rewrite after_events in G1', G2'. subst P1 P2.
    eapply (@stateMachine_one_fail (tick_now c1)
              (EventEngine.windowMinutes g * 60 * 1000) (tick_lastPrice c1)
              (detectedAt g c1) (EventEngine.failCooldowns g) k1 k2 e1 e2 e1' e2');
      eauto using detectedAt_uniq.
  - intros later c2 Hall.
    apply Forall_app in Hall. destruct Hall as [Hlater Hc2].
    inversion Hc2; subst.
    pose proof (failsIn_arms Hu Hfail) as Harm. rewrite <- Hbk in Harm.
    destruct (@afterAll_keeps_cooldown (EventEngine.bucketOf P2)
                (tick_now c1 + 300000) later (after g c1) Hlater
                (after_uniq g c1 Hu) Harm) as [Hu' Hcd].
    eapply cooled_no_fail; eassumption.
Qed.

Lemma fail_cooldown_blocks_bucket_witness :
  failsIn Samples.engine1 Samples.lateBreach (bid, 50000%Q) 50000
  /\ ~ failsIn Samples.engine1 Samples.lateBreach (bid, 50005%Q) 50005
  /\ ~ failsIn (afterAll (after Samples.engine1 Samples.lateBreach) [])
         Samples.quietTick (bid, 50005%Q) 50005.
Proof.
  assert (F : failsIn Samples.engine1 Samples.lateBreach (bid, 50000%Q) 50000).
  { do 2 eexists. split; [vm_compute; reflexivity|].
    split; [discriminate|]. split; [reflexivity|].
    split; [vm_compute; reflexivity|reflexivity]. }
  split; [exact F|].
  destruct (@fail_cooldown_blocks_bucket Samples.engine1 Samples.lateBreach
              (bid, 50000%Q) 50000 (bid, 50005%Q) 50005
              (reach_process Samples.firstTick reach_new) F)
    as [Same Later].
  - reflexivity.
  - split.
    + apply Same. reflexivity.
    + apply (Later [] Samples.quietTick).
      repeat constructor; simpl; lia.
Defined.

(** ** The value area above the first tick *)

Section ValueArea.
Local Open Scope Q_scope.
Import Analytics.

(** *** Sums of volumes *)




(** *** The volume map of candles that trade at or above one tick *)

Lemma or_num_get_eq (o : option Q) : JS.or_num o 0 == match o with Some v => v | None => 0 end.
Proof.
  destruct o as [v|]; simpl; [|reflexivity].
  destruct (Qeq_bool v 0) eqn:E; [|reflexivity].
  apply Qeq_bool_iff in E. now rewrite E.
Qed.















(** *** The levels have distinct prices, so their order is strict *)








(** *** Sums over a range of indices *)







(** *** The loop accumulates the volume between its two indices *)







End ValueArea.

(* ===================================================================== *)
(** * Further properties of [analyzeDOM] *)
(* ===================================================================== *)

Section DomFacts.
Local Open Scope Q_scope.
Import DomAnalytics.

Lemma enrichLevel_fields side prevLevels tradeMap cumulative level :
  let e := snd (enrichLevel side prevLevels tradeMap cumulative level) in
  EnrichedLevel.price e = OrderBookLevel.price level
  /\ EnrichedLevel.qty e = OrderBookLevel.qty level
  /\ EnrichedLevel.total e = OrderBookLevel.total level
  /\ EnrichedLevel.depthRatio e = OrderBookLevel.depthRatio level
  /\ EnrichedLevel.type e = side
  /\ EnrichedLevel.cumulativeQty e = cumulative + OrderBookLevel.qty level
  /\ fst (enrichLevel side prevLevels tradeMap cumulative level)
     = cumulative + OrderBookLevel.qty level
  /\ EnrichedLevel.tradeVol e
     = JS.or_num (JSMap.get Qeq_bool (OrderBookLevel.price level) tradeMap) 0.
Proof.
  unfold enrichLevel.
  destruct (JSMap.get Qeq_bool (OrderBookLevel.price level) prevLevels);
    cbn; repeat split; reflexivity.
Qed.

Lemma enrichLevels_map side prevLevels tradeMap :
  forall newLevels cumulative,
    map (fun e => (EnrichedLevel.price e, EnrichedLevel.qty e,
                   EnrichedLevel.total e, EnrichedLevel.depthRatio e,
                   EnrichedLevel.type e))
      (enrichLevels side prevLevels tradeMap cumulative newLevels)
    = map (fun l => (OrderBookLevel.price l, OrderBookLevel.qty l,
                     OrderBookLevel.total l, OrderBookLevel.depthRatio l,
                     side))
        newLevels.
Proof.
  induction newLevels as [|l r IH]; intro cumulative; simpl; [reflexivity|].
  destruct (enrichLevel_fields side prevLevels tradeMap cumulative l)
    as (H1 & H2 & H3 & H4 & H5 & _).
  destruct (enrichLevel side prevLevels tradeMap cumulative l) as [c e].
  simpl in *. rewrite IH. congruence.
Qed.

Lemma enrichLevels_cumulative side prevLevels tradeMap :
  forall newLevels cumulative i,
    nth_error
      (map EnrichedLevel.cumulativeQty
         (enrichLevels side prevLevels tradeMap cumulative newLevels)) i
    = option_map
        (fun _ =>
           fold_left Qplus (map OrderBookLevel.qty (firstn (S i) newLevels))
             cumulative)
        (nth_error newLevels i).
Proof.
  induction newLevels as [|l r IH]; intros cumulative i.
  - destruct i; reflexivity.
  - cbn [enrichLevels].
    destruct (enrichLevel_fields side prevLevels tradeMap cumulative l)
      as (_ & _ & _ & _ & _ & H6 & H7 & _).
    destruct (enrichLevel side prevLevels tradeMap cumulative l) as [c e].
    simpl in H6, H7. subst c.
    destruct i as [|i].
    + simpl. now rewrite H6.
    + cbn [map nth_error]. rewrite IH. reflexivity.
Qed.

(** X1.  [analyzeDOM] returns one enriched level per level of the snapshot, in
    the same order, with the price, quantity, total and depth ratio of the
    raw level unchanged and the side it was called for; the cumulative
    quantity of the i-th level is the running sum of the quantities of the
    levels 0 to i. *)
Theorem analyzeDOM_keeps_levels_and_running_total :
  forall (newLevels : list OrderBookLevel.t)
         (prevLevels : list (Q * EnrichedLevel.t))
         (recentTrades : list Trade.t) (side : Side),
    map (fun e => (EnrichedLevel.price e, EnrichedLevel.qty e,
                   EnrichedLevel.total e, EnrichedLevel.depthRatio e,
                   EnrichedLevel.type e))
      (analyzeDOM newLevels prevLevels recentTrades side)
    = map (fun l => (OrderBookLevel.price l, OrderBookLevel.qty l,
                     OrderBookLevel.total l, OrderBookLevel.depthRatio l,
                     side))
        newLevels
    /\ forall i : nat,
         nth_error
           (map EnrichedLevel.cumulativeQty
              (analyzeDOM newLevels prevLevels recentTrades side)) i
         = option_map
             (fun _ =>
                JSNum.sum (map OrderBookLevel.qty (firstn (S i) newLevels)))
             (nth_error newLevels i).
Proof.
  intros. unfold analyzeDOM, JSNum.sum. split.
  - apply enrichLevels_map.
  - intro i. apply enrichLevels_cumulative.
Qed.

Lemma enrichLevel_spoof side prevLevels tradeMap cumulative level :
  let e := snd (enrichLevel side prevLevels tradeMap cumulative level) in
  EnrichedLevel.isSpoof e = true ->
  EnrichedLevel.isIceberg e = false
  /\ EnrichedLevel.tradeVol e == 0
  /\ EnrichedLevel.absorption e = 0
  /\ exists pv,
       JSMap.get Qeq_bool (OrderBookLevel.price level) prevLevels = Some pv
       /\ 5000 < (EnrichedLevel.qty pv - OrderBookLevel.qty level)
                 * OrderBookLevel.price level.
Proof.
  unfold enrichLevel.
  destruct (JSMap.get Qeq_bool (OrderBookLevel.price level) prevLevels)
    as [pv|]; cbn; [|discriminate].
  intro H. apply andb_prop in H. destruct H as [Hv He].
  set (ex := JS.or_num _ 0) in *.
  assert (Hz : ex == 0) by now apply Qeq_bool_iff.
  assert (Hg : JS.gtb ex 0 = false).
  { unfold JS.gtb, JS.ltb. apply negb_false_iff. apply Qle_bool_iff.
    rewrite Hz. apply Qle_refl. }
  rewrite Hg. cbn. repeat split; auto.
  exists pv. split; [reflexivity|].
  unfold JS.gtb, JS.ltb, SPOOF_PULL_THRESHOLD in Hv.
  apply negb_true_iff in Hv.
  apply Qnot_le_lt. intro Hle. apply Qle_bool_iff in Hle. congruence.
Qed.

Lemma enrichLevels_In side prevLevels tradeMap :
  forall newLevels cumulative e,
    In e (enrichLevels side prevLevels tradeMap cumulative newLevels) ->
    exists c level,
      In level newLevels
      /\ e = snd (enrichLevel side prevLevels tradeMap c level).
Proof.
  induction newLevels as [|l r IH]; intros cumulative e H; [destruct H|].
  cbn [enrichLevels] in H.
  destruct (enrichLevel side prevLevels tradeMap cumulative l) as [c e0] eqn:E.
  destruct H as [H|H].
  - exists cumulative, l. split; [now left|]. now rewrite E.
  - destruct (IH _ _ H) as (c' & level & Hin & He).
    exists c', level. split; [now right|exact He].
Qed.

(** X2.  A level flagged as a spoof is never flagged as an iceberg: the pull
    needs a previous entry, more than 5000 of value removed and no trade
    at the price, while an iceberg needs a trade. *)
Theorem analyzeDOM_spoof_excludes_iceberg :
  forall (newLevels : list OrderBookLevel.t)
         (prevLevels : list (Q * EnrichedLevel.t))
         (recentTrades : list Trade.t) (side : Side) (e : EnrichedLevel.t),
    In e (analyzeDOM newLevels prevLevels recentTrades side) ->
    EnrichedLevel.isSpoof e = true ->
    EnrichedLevel.isIceberg e = false
    /\ EnrichedLevel.tradeVol e == 0
    /\ EnrichedLevel.absorption e = 0
    /\ exists pv,
         JSMap.get Qeq_bool (EnrichedLevel.price e) prevLevels = Some pv
         /\ 5000 < (EnrichedLevel.qty pv - EnrichedLevel.qty e)
                   * EnrichedLevel.price e.
Proof.
  intros newLevels prevLevels recentTrades side e Hin Hs.
  unfold analyzeDOM in Hin.
  apply enrichLevels_In in Hin. destruct Hin as (c & level & _ & He).
  subst e.
  destruct (enrichLevel_fields side prevLevels
              (aggregateTrades side recentTrades) c level)
    as (H1 & H2 & _).
  cbv zeta in H1, H2. rewrite H1, H2.
  now apply enrichLevel_spoof.
Qed.

Lemma analyzeDOM_spoof_excludes_iceberg_witness :
  EnrichedLevel.isIceberg Samples.pulledLevel = false
  /\ EnrichedLevel.tradeVol Samples.pulledLevel == 0
  /\ EnrichedLevel.absorption Samples.pulledLevel = 0
  /\ exists pv,
       JSMap.get Qeq_bool (EnrichedLevel.price Samples.pulledLevel)
         Samples.bigSnapshot = Some pv
       /\ 5000 < (EnrichedLevel.qty pv - EnrichedLevel.qty Samples.pulledLevel)
                 * EnrichedLevel.price Samples.pulledLevel.
Proof.
  apply (analyzeDOM_spoof_excludes_iceberg Samples.newSnapshot
           Samples.bigSnapshot [] bid).
  - left. reflexivity.
  - reflexivity.
Defined.

(** *** The executed volume of a level *)

Lemma or_num_0 (x : option Q) (v : Q) :
  match x with Some w => w == v | None => v == 0 end ->
  JS.or_num x 0 == v.
Proof.
  destruct x as [w|]; simpl; intro H.
  - destruct (Qeq_bool w 0) eqn:E; [|exact H].
    apply Qeq_bool_iff in E. now rewrite <- H, E.
  - now symmetry.
Qed.

Lemma Qeqb_sym (a b : Q) : Qeq_bool a b = Qeq_bool b a.
Proof.
  destruct (Qeq_bool a b) eqn:E, (Qeq_bool b a) eqn:F; try reflexivity.
  - apply Qeq_bool_sym in E. congruence.
  - apply Qeq_bool_sym in F. congruence.
Qed.

Lemma Qeq_bool_congr (a b c : Q) :
  Qeq_bool a b = true -> Qeq_bool a c = Qeq_bool b c.
Proof.
  intro H. apply (keqb_congr Qeq_bool Qeqb_sym Qeq_bool_trans). exact H.
Qed.

Lemma addTrade_get side (p : Q) (m : list (Q * Q)) (t : Trade.t) :
  JS.or_num (JSMap.get Qeq_bool p (addTrade side m t)) 0
  == JS.or_num (JSMap.get Qeq_bool p m) 0
     + (if hits side p t then Trade.qty t else 0).
Proof.
  unfold addTrade, hits.
  destruct ((side_eqb side bid && Trade.isBuyerMaker t)
            || (side_eqb side ask && negb (Trade.isBuyerMaker t))) eqn:S;
    cbn [andb].
  - destruct (Qeq_bool p (Trade.price t)) eqn:E.
    + rewrite (get_congr Qeq_bool Qeqb_sym Qeq_bool_trans _ _
                 (JSMap.set Qeq_bool (Trade.price t)
                    (JS.or_num (JSMap.get Qeq_bool (Trade.price t) m) 0
                     + Trade.qty t) m) E).
      rewrite (get_set_same Qeq_bool Qeq_bool_refl).
      rewrite (get_congr Qeq_bool Qeqb_sym Qeq_bool_trans _ _ m E).
      apply or_num_0. reflexivity.
    + rewrite (get_set_other Qeq_bool Qeqb_sym Qeq_bool_trans); [|exact E].
      ring.
  - ring.
Qed.

Lemma aggregateTrades_get side (p : Q) :
  forall (trades : list Trade.t) (m : list (Q * Q)),
    JS.or_num (JSMap.get Qeq_bool p (fold_left (addTrade side) trades m)) 0
    == JS.or_num (JSMap.get Qeq_bool p m) 0 + hitVolume side p trades.
Proof.
  induction trades as [|t r IH]; intro m.
  - unfold hitVolume. simpl. ring.
  - cbn [fold_left]. rewrite IH, addTrade_get.
    unfold hitVolume. cbn [filter].
    destruct (hits side p t); cbn [map fold_right]; ring.
Qed.

(** X3.  The trade volume reported on a level is the total quantity of the
    recent trades at its price that hit its side: sells (buyer is maker)
    for a bid, buys for an ask. *)
Theorem analyzeDOM_tradeVol_sums_hits :
  forall (newLevels : list OrderBookLevel.t)
         (prevLevels : list (Q * EnrichedLevel.t))
         (recentTrades : list Trade.t) (side : Side) (e : EnrichedLevel.t),
    In e (analyzeDOM newLevels prevLevels recentTrades side) ->
    EnrichedLevel.tradeVol e
    == hitVolume side (EnrichedLevel.price e) recentTrades.
Proof.
  intros newLevels prevLevels recentTrades side e Hin.
  unfold analyzeDOM in Hin.
  apply enrichLevels_In in Hin. destruct Hin as (c & level & _ & He).
  subst e.
  destruct (enrichLevel_fields side prevLevels
              (aggregateTrades side recentTrades) c level)
    as (H1 & _ & _ & _ & _ & _ & _ & H8).
  cbv zeta in H1, H8. rewrite H1, H8.
  unfold aggregateTrades. rewrite aggregateTrades_get. simpl. ring.
Qed.

Lemma analyzeDOM_tradeVol_sums_hits_witness :
  EnrichedLevel.tradeVol Samples.hitLevel
  == hitVolume bid (EnrichedLevel.price Samples.hitLevel) Samples.threeTrades.
Proof.
  apply (analyzeDOM_tradeVol_sums_hits Samples.newSnapshot
           Samples.prevSnapshot Samples.threeTrades bid).
  left. reflexivity.
Defined.

End DomFacts.
(* ===================================================================== *)
(** * Further properties of the event engine *)
(* ===================================================================== *)

Section EngineShapes.
Import EventEngine.
Local Open Scope Z_scope.

(** *** What each stage of the state machine assigns *)

Lemma toHolding_shape age e :
  toHolding age e = e
  \/ (toHolding age e = set_state HOLDING e
      /\ (PersistentEvent.state e = STACK \/ PersistentEvent.state e = ABSORPTION)).
Proof.
  unfold toHolding.
  destruct (state_eqb (PersistentEvent.state e) STACK) eqn:S1;
    destruct (state_eqb (PersistentEvent.state e) ABSORPTION) eqn:S2;
    destruct (age >? 120000); destruct (PersistentEvent.confirmations e >? 10);
    cbn; auto;
    right; (split; [reflexivity|]);
    try (left; now apply state_eqb_eq); right; now apply state_eqb_eq.
Qed.

Lemma toWeakening_shape e :
  toWeakening e = e
  \/ (toWeakening e = set_state WEAKENING e /\ PersistentEvent.state e = HOLDING).
Proof.
  unfold toWeakening.
  destruct (PersistentEvent.isActive e); cbn [andb]; auto.
  destruct (state_eqb (PersistentEvent.state e) HOLDING) eqn:S; cbn [andb]; auto.
  destruct (JS.ltb _ _); auto.
  right. split; [reflexivity|now apply state_eqb_eq].
Qed.

Lemma breach_shape now age e cds :
  fst (breach now age e cds) = set_isFailed true (set_state BROKEN e)
  \/ exists conf remDrop,
       (70 <= conf)%Q /\ (conf <= 100)%Q
       /\ fst (breach now age e cds)
          = set_remDropRatio remDrop
              (set_failConfidence conf
                 (set_failTime now
                    (set_isFailed true (set_type T_FAIL (set_state FAIL e))))).
Proof.
  unfold breach.
  destruct (isSignificant (PersistentEvent.state e) && (age >? 60000)
            && (now >? JS.or_int _ 0))%bool; [|now left].
  destruct (JS.geb _ 70) eqn:G; [|now left].
  right. eexists. eexists. split; [|split; [|reflexivity]].
  - unfold JS.geb in G. now apply Qle_bool_iff in G.
  - unfold calculateFailConfidence, JS.Math_min. apply Q.le_min_l.
Qed.

Lemma toFail_shape now age lastPrice e cds :
  fst (toFail now age lastPrice e cds) = e
  \/ (PersistentEvent.isFailed e = false
      /\ PersistentEvent.state e <> BROKEN
      /\ fst (toFail now age lastPrice e cds) = fst (breach now age e cds)).
Proof.
  unfold toFail.
  destruct (isBreached e lastPrice); cbn [andb]; [|now left].
  destruct (PersistentEvent.isFailed e); cbn [andb negb]; [now left|].
  destruct (state_eqb (PersistentEvent.state e) BROKEN) eqn:S; cbn [negb];
    [now left|].
  right. repeat split; auto. now apply state_eqb_neq.
Qed.

Lemma retest_shape justUpdated age lastPrice e :
  retest justUpdated age lastPrice e = e
  \/ retest justUpdated age lastPrice e = set_isRetest true e.
Proof.
  unfold retest.
  destruct (negb justUpdated && negb (PersistentEvent.isFailed e)
            && (age >? 60000))%bool; [|now left].
  destruct (JS.xltb _ _); auto.
Qed.

Lemma decay_shape age windowMs e :
  (PersistentEvent.state e = FAIL /\ decay age windowMs e = e)
  \/ (PersistentEvent.state e <> FAIL
      /\ decay age windowMs e
         = set_strength
             (JS.Math_max 10
                (PersistentEvent.strength e
                 * (1 - inject_Z age / inject_Z windowMs))%Q) e).
Proof.
  unfold decay.
  destruct (state_eqb (PersistentEvent.state e) FAIL) eqn:S; cbn [negb].
  - left. split; [now apply state_eqb_eq|reflexivity].
  - right. split; [now apply state_eqb_neq|reflexivity].
Qed.

(** An entry that survives the loop body went through the five stages,
    and was not due for removal. *)
Lemma stepEvent_Some now windowMs lastPrice e cds e' :
  fst (stepEvent now windowMs lastPrice e cds) = Some e' ->
  let age := now - PersistentEvent.firstDetected e in
  let justUpdated := now - PersistentEvent.lastConfirmed e <? 500 in
  ((PersistentEvent.state e <> FAIL /\ age <= windowMs)
   \/ (PersistentEvent.state e = FAIL
       /\ now - JS.or_int (PersistentEvent.failTime e) 0 <= 120000))
  /\ e' = decay age windowMs
            (retest justUpdated age lastPrice
               (fst (toFail now age lastPrice
                       (toWeakening (toHolding age (set_isActive justUpdated e)))
                       cds))).
Proof.
  intros H age justUpdated. unfold stepEvent in H.
  fold age in H. fold justUpdated in H.
  destruct (state_eqb (PersistentEvent.state e) FAIL) eqn:S.
  - cbn [negb andb] in H. rewrite andb_false_r in H.
    destruct (now - JS.or_int (PersistentEvent.failTime e) 0 >? 120000) eqn:X;
      [discriminate|].
    destruct (toFail now age lastPrice _ cds) as [e4 cds'] eqn:TF.
    cbn in H. inversion H; subst e'. split; [|reflexivity].
    right. split; [now apply state_eqb_eq|]. rewrite Z.gtb_ltb in X.
    apply Z.ltb_ge in X. exact X.
  - cbn [negb andb] in H. rewrite andb_true_r in H.
    destruct (age >? windowMs) eqn:X; [discriminate|].
    destruct (toFail now age lastPrice _ cds) as [e4 cds'] eqn:TF.
    cbn in H. inversion H; subst e'. split; [|reflexivity].
    left. split; [now apply state_eqb_neq|]. rewrite Z.gtb_ltb in X.
    apply Z.ltb_ge in X. exact X.
Qed.

(** *** Lifting a property of the events through one call *)


Lemma get_In {K V : Type} (keqb : K -> K -> bool) (k : K) (v : V)
    (m : list (K * V)) :
  JSMap.get keqb k m = Some v -> In v (JSMap.values m).
Proof.
  induction m as [|[k0 v0] r IH]; simpl; [discriminate|].
  destruct (keqb k k0).
  - intro H. inversion H. now left.
  - intro H. right. now apply IH.
Qed.

Section Lift.
Variables (now : Z) (lastPrice : Q).
Variable P : PersistentEvent.t -> Prop.
Hypothesis P_reinforce :
  forall detectedType lvl e,
    P e ->
    (state_eqb (PersistentEvent.state e) FAIL
     || state_eqb (PersistentEvent.state e) BROKEN)%bool = false ->
    P (reinforce detectedType now lvl e).
Hypothesis P_new :
  forall side detectedType detectionStrength lvl,
    detect lvl = Some (detectedType, detectionStrength) ->
    match side with
    | bid => JS.ltb lastPrice (EnrichedLevel.price lvl)
    | ask => JS.gtb lastPrice (EnrichedLevel.price lvl)
    end = false ->
    P (newEvent (side, EnrichedLevel.price lvl) detectedType detectionStrength
         side now lvl).

Lemma processLevel_lift side evs lvl :
  Forall P (JSMap.values evs) ->
  Forall P (JSMap.values (processLevel side now lastPrice evs lvl)).
Proof.
  intro H. unfold processLevel.
  destruct (detect lvl) as [[ty st]|] eqn:D; [|exact H].
  destruct (JSMap.get id_eqb (side, EnrichedLevel.price lvl) evs) as [ex|] eqn:G.
  - destruct (_ || _)%bool eqn:S; [exact H|].
    apply set_Forall; [exact H|].
    apply P_reinforce; [|exact S].
    eapply get_Forall; eassumption.
  - destruct (match side with bid => _ | ask => _ end) eqn:B; [exact H|].
    apply set_Forall; [exact H|]. now apply P_new.
Qed.

Lemma processLevels_lift side :
  forall levels evs,
    Forall P (JSMap.values evs) ->
    Forall P (JSMap.values (processLevels levels side now lastPrice evs)).
Proof.
  unfold processLevels.
  induction levels as [|l r IH]; intros evs H; simpl; [exact H|].
  apply IH. now apply processLevel_lift.
Qed.

Lemma detected_lift g bids asks :
  Forall P (JSMap.values (events g)) ->
  Forall P (JSMap.values (detected g bids asks lastPrice now)).
Proof.
  intro H. unfold detected. now apply processLevels_lift, processLevels_lift.
Qed.

Variable windowMs : Z.
Variable Q' : PersistentEvent.t -> Prop.
Hypothesis Q_step :
  forall e cds e',
    P e -> fst (stepEvent now windowMs lastPrice e cds) = Some e' -> Q' e'.

Lemma stateMachine_lift :
  forall entries cds,
    Forall P (JSMap.values entries) ->
    Forall Q' (JSMap.values (fst (stateMachine now windowMs lastPrice entries cds))).
Proof.
  induction entries as [|[key e] r IH]; intros cds H; cbn [stateMachine].
  - constructor.
  - destruct (stepEvent now windowMs lastPrice e cds) as [oe cds1] eqn:SE.
    specialize (IH cds1).
    destruct (stateMachine now windowMs lastPrice r cds1) as [rest' cds2].
    simpl in H. inversion H as [|x l Hx Hl]; subst.
    specialize (IH Hl). simpl in IH.
    destruct oe as [e'|]; simpl; [|exact IH].
    constructor; [|exact IH].
    eapply Q_step; [exact Hx|]. rewrite SE. reflexivity.
Qed.

End Lift.

Lemma returned_In g c e :
  In e (returned g c) ->
  In e (JSMap.values (events (after g c))) /\ PersistentEvent.state e <> BROKEN.
Proof.
  unfold returned, after, process.
  destruct (stateMachine _ _ _ _ _) as [evs' cds]. cbn [fst snd events].
  intro H. apply filter_In in H. destruct H as [H1 H2]. split; [exact H1|].
  apply negb_true_iff in H2. now apply state_eqb_neq.
Qed.

(** *** The record of a failed zone *)

Lemma reinforce_shape detectedType now lvl e :
  let e' := reinforce detectedType now lvl e in
  PersistentEvent.firstDetected e' = PersistentEvent.firstDetected e
  /\ PersistentEvent.price e' = PersistentEvent.price e
  /\ PersistentEvent.side e' = PersistentEvent.side e
  /\ PersistentEvent.isFailed e' = PersistentEvent.isFailed e
  /\ PersistentEvent.lastConfirmed e' = now
  /\ (PersistentEvent.strength e' <= 100)%Q
  /\ ((PersistentEvent.state e' = PersistentEvent.state e
       /\ PersistentEvent.type e' = PersistentEvent.type e)
      \/ (PersistentEvent.state e' = STACK /\ PersistentEvent.type e' = T_ICE)).
Proof.
  unfold reinforce.
  repeat match goal with
         | |- context [if ?b then _ else _] => destruct b
         end; cbn; repeat split; auto; apply Q.le_min_l.
Qed.

Lemma reinforce_failRecord detectedType now lvl e :
  failRecord e ->
  (state_eqb (PersistentEvent.state e) FAIL
   || state_eqb (PersistentEvent.state e) BROKEN)%bool = false ->
  failRecord (reinforce detectedType now lvl e).
Proof.
  intros (H1 & H2 & H3) S. apply orb_false_iff in S. destruct S as [S1 S2].
  apply state_eqb_neq in S1, S2.
  destruct (reinforce_shape detectedType now lvl e)
    as (_ & _ & _ & _ & _ & _ & [[Hs Ht]|[Hs Ht]]);
    unfold failRecord; rewrite Hs, Ht; repeat split; try congruence;
    intro X; try discriminate; try (now apply H1 in X); contradiction.
Qed.

Lemma detect_type lvl ty st :
  detect lvl = Some (ty, st) ->
  ty <> T_FAIL /\ (60 <= st)%Q /\ (st <= 90)%Q.
Proof.
  unfold detect.
  repeat match goal with
         | |- context [if ?b then _ else _] => destruct b
         end; intro H; inversion H; subst;
    (split; [discriminate|split; unfold Qle; simpl; lia]).
Qed.

Lemma newEvent_failRecord id ty st side now lvl :
  ty <> T_FAIL -> failRecord (newEvent id ty st side now lvl).
Proof.
  intro H. unfold failRecord, newEvent. cbn.
  repeat split; try contradiction;
    destruct (type_eqb ty T_ABSORPTION || type_eqb ty T_ICE)%bool; discriminate.
Qed.

Lemma stepEvent_failRecord now windowMs lastPrice e cds e' :
  failRecord e ->
  fst (stepEvent now windowMs lastPrice e cds) = Some e' ->
  failRecord e'.
Proof.
  intros He H. apply stepEvent_Some in H. destruct H as [_ H]. subst e'.
  set (age := now - PersistentEvent.firstDetected e).
  set (ju := now - PersistentEvent.lastConfirmed e <? 500).
  assert (H1 : failRecord (set_isActive ju e)) by exact He.
  assert (H2 : failRecord (toHolding age (set_isActive ju e))).
  { destruct (toHolding_shape age (set_isActive ju e)) as [E|[E S]];
      rewrite E; [exact H1|].
    destruct H1 as (A & B & C). unfold failRecord. cbn.
    repeat split; try discriminate.
    intro T. apply A in T. cbn in S, T. destruct S; congruence. }
  set (e2 := toHolding age (set_isActive ju e)) in *.
  assert (H3 : failRecord (toWeakening e2)).
  { destruct (toWeakening_shape e2) as [E|[E S]]; rewrite E; [exact H2|].
    destruct H2 as (A & B & C). unfold failRecord. cbn.
    repeat split; try discriminate.
    intro T. apply A in T. congruence. }
  set (e3 := toWeakening e2) in *.
  assert (H4 : failRecord (fst (toFail now age lastPrice e3 cds))).
  { destruct (toFail_shape now age lastPrice e3 cds) as [E|(F & B & E)];
      rewrite E; [exact H3|].
    destruct (breach_shape now age e3 cds) as [E'|(conf & rd & G1 & G2 & E')];
      rewrite E'; unfold failRecord; cbn.
    - repeat split; try discriminate.
      intro T. destruct H3 as (A & _ & C). apply A in T.
      destruct (C T) as (_ & F' & _). congruence.
    - repeat split; auto; discriminate. }
  set (e4 := fst (toFail now age lastPrice e3 cds)) in *.
  assert (H5 : failRecord (retest ju age lastPrice e4)).
  { destruct (retest_shape ju age lastPrice e4) as [E|E]; rewrite E;
      exact H4. }
  set (e5 := retest ju age lastPrice e4) in *.
  destruct (decay_shape age windowMs e5) as [[S E]|[S E]]; rewrite E; exact H5.
Qed.

Lemma after_failRecord g c :
  Forall failRecord (JSMap.values (events g)) ->
  Forall failRecord (JSMap.values (events (after g c))).
Proof.
  intro H. rewrite after_events.
  apply stateMachine_lift with (P := failRecord).
  - intros e cds e'. apply stepEvent_failRecord.
  - apply detected_lift; [| |exact H].
    + intros. now apply reinforce_failRecord.
    + intros side ty st lvl D _. apply newEvent_failRecord.
      now apply detect_type in D.
Qed.

Lemma reachable_failRecord g :
  reachable g -> Forall failRecord (JSMap.values (events g)).
Proof.
  induction 1 as [|w g Hg IH|g c Hg IH].
  - constructor.
  - exact IH.
  - now apply after_failRecord.
Qed.

Lemma sameCore_refl e : sameCore e e.
Proof. unfold sameCore. repeat split. Qed.

Lemma sameCore_trans e1 e2 e3 : sameCore e1 e2 -> sameCore e2 e3 -> sameCore e1 e3.
Proof. unfold sameCore. intuition congruence. Qed.

Lemma stages_sameCore now age windowMs lastPrice ju e cds :
  sameCore e
    (decay age windowMs
       (retest ju age lastPrice
          (fst (toFail now age lastPrice
                  (toWeakening (toHolding age (set_isActive ju e))) cds))))
  /\ PersistentEvent.isActive
       (decay age windowMs
          (retest ju age lastPrice
             (fst (toFail now age lastPrice
                     (toWeakening (toHolding age (set_isActive ju e))) cds))))
     = ju.
Proof.
  assert (A1 : sameCore e (set_isActive ju e)
               /\ PersistentEvent.isActive (set_isActive ju e) = ju)
    by (unfold sameCore; cbn; repeat split).
  set (e1 := set_isActive ju e) in *.
  assert (A2 : sameCore e1 (toHolding age e1)
               /\ PersistentEvent.isActive (toHolding age e1)
                  = PersistentEvent.isActive e1).
  { destruct (toHolding_shape age e1) as [E|[E _]]; rewrite E;
      unfold sameCore; cbn; repeat split. }
  set (e2 := toHolding age e1) in *.
  assert (A3 : sameCore e2 (toWeakening e2)
               /\ PersistentEvent.isActive (toWeakening e2)
                  = PersistentEvent.isActive e2).
  { destruct (toWeakening_shape e2) as [E|[E _]]; rewrite E;
      unfold sameCore; cbn; repeat split. }
  set (e3 := toWeakening e2) in *.
  assert (A4 : sameCore e3 (fst (toFail now age lastPrice e3 cds))
               /\ PersistentEvent.isActive (fst (toFail now age lastPrice e3 cds))
                  = PersistentEvent.isActive e3).
  { destruct (toFail_shape now age lastPrice e3 cds) as [E|(_ & _ & E)];
      rewrite E; [unfold sameCore; repeat split|].
    destruct (breach_shape now age e3 cds) as [E'|(conf & rd & _ & _ & E')];
      rewrite E'; unfold sameCore; cbn; repeat split. }
  set (e4 := fst (toFail now age lastPrice e3 cds)) in *.
  assert (A5 : sameCore e4 (retest ju age lastPrice e4)
               /\ PersistentEvent.isActive (retest ju age lastPrice e4)
                  = PersistentEvent.isActive e4).
  { destruct (retest_shape ju age lastPrice e4) as [E|E]; rewrite E;
      unfold sameCore; cbn; repeat split. }
  set (e5 := retest ju age lastPrice e4) in *.
  assert (A6 : sameCore e5 (decay age windowMs e5)
               /\ PersistentEvent.isActive (decay age windowMs e5)
                  = PersistentEvent.isActive e5).
  { destruct (decay_shape age windowMs e5) as [[_ E]|[_ E]]; rewrite E;
      unfold sameCore; cbn; repeat split. }
  destruct A1 as [B1 C1], A2 as [B2 C2], A3 as [B3 C3], A4 as [B4 C4],
    A5 as [B5 C5], A6 as [B6 C6].
  split; [|congruence].
  eauto using sameCore_trans.
Qed.

(** A zone in FAIL or BROKEN only goes through the retest and the decay
    stages, which leave its state alone. *)
Lemma stages_terminal now age windowMs lastPrice ju e cds :
  failRecord e ->
  PersistentEvent.state e = FAIL \/ PersistentEvent.state e = BROKEN ->
  let e' :=
    decay age windowMs
      (retest ju age lastPrice
         (fst (toFail now age lastPrice
                 (toWeakening (toHolding age (set_isActive ju e))) cds))) in
  PersistentEvent.state e' = PersistentEvent.state e
  /\ PersistentEvent.failTime e' = PersistentEvent.failTime e
  /\ PersistentEvent.failConfidence e' = PersistentEvent.failConfidence e
  /\ PersistentEvent.type e' = PersistentEvent.type e.
Proof.
  intros (A & B & C) S.
  assert (F : PersistentEvent.isFailed e = true).
  { destruct S as [S|S]; [now destruct (C S) as (_ & F & _)|now apply B]. }
  set (e1 := set_isActive ju e).
  assert (E2 : toHolding age e1 = e1).
  { destruct (toHolding_shape age e1) as [E|[_ S']]; [exact E|].
    cbn in S'. destruct S, S'; congruence. }
  rewrite E2.
  assert (E3 : toWeakening e1 = e1).
  { destruct (toWeakening_shape e1) as [E|[_ S']]; [exact E|].
    cbn in S'. destruct S; congruence. }
  rewrite E3.
  assert (E4 : fst (toFail now age lastPrice e1 cds) = e1).
  { destruct (toFail_shape now age lastPrice e1 cds) as [E|(F' & _)];
      [exact E|]. cbn in F'. congruence. }
  rewrite E4. cbv zeta.
  destruct (retest_shape ju age lastPrice e1) as [E5|E5]; rewrite E5;
    match goal with
    | |- context [decay age windowMs ?x] =>
        destruct (decay_shape age windowMs x) as [[_ E6]|[_ E6]]; rewrite E6
    end; cbn; repeat split.
Qed.

(** A zone that enters FAIL during the call has the time of the call as
    its failure time. *)
Lemma stages_new_fail now age windowMs lastPrice ju e cds :
  PersistentEvent.state e <> FAIL ->
  let e' :=
    decay age windowMs
      (retest ju age lastPrice
         (fst (toFail now age lastPrice
                 (toWeakening (toHolding age (set_isActive ju e))) cds))) in
  PersistentEvent.state e' = FAIL ->
  PersistentEvent.failTime e' = Some now.
Proof.
  intros S e' S'. subst e'.
  set (e1 := set_isActive ju e) in *.
  set (e2 := toHolding age e1) in *.
  set (e3 := toWeakening e2) in *.
  set (e4 := fst (toFail now age lastPrice e3 cds)) in *.
  set (e5 := retest ju age lastPrice e4) in *.
  destruct (decay_facts age windowMs e5) as [_ D].
  destruct (retest_facts ju age lastPrice e4) as [_ R].
  assert (S4 : PersistentEvent.state e4 = FAIL).
  { rewrite <- R. fold e5. rewrite <- D. exact S'. }
  assert (T : PersistentEvent.failTime e4 = Some now).
  { subst e4.
    destruct (toFail_shape now age lastPrice e3 cds) as [E|(_ & _ & E)].
    - exfalso. rewrite E in S4. subst e3.
      destruct (toWeakening_shape e2) as [E3|[E3 _]]; rewrite E3 in S4;
        [|discriminate].
      subst e2.
      destruct (toHolding_shape age e1) as [E2|[E2 _]]; rewrite E2 in S4;
        [|discriminate].
      apply S. exact S4.
    - rewrite E in *.
      destruct (breach_shape now age e3 cds) as [E'|(conf & rd & _ & _ & E')];
        rewrite E' in *; [discriminate|reflexivity]. }
  destruct (retest_shape ju age lastPrice e4) as [E5|E5];
    destruct (decay_shape age windowMs e5) as [[_ E6]|[_ E6]];
    rewrite E6; subst e5; rewrite E5; cbn; exact T.
Qed.

End EngineShapes.

Section EngineTheorems.
Import EventEngine.
Local Open Scope Z_scope.

(** X4.  Every event [process] returns is out of BROKEN, and one in FAIL has
    the type FAIL, the failed flag, a confidence between 70 and 100, a
    failure time and a pull ratio; the type FAIL is only found on events in
    FAIL. *)
Theorem process_returns_well_formed_fails :
  forall (g : Engine) (c : Tick) (e : PersistentEvent.t),
    reachable g ->
    In e (returned g c) ->
    PersistentEvent.state e <> BROKEN /\ failRecord e.
Proof.
  intros g c e Hg Hin. apply returned_In in Hin. destruct Hin as [Hin Hb].
  split; [exact Hb|].
  assert (H := reachable_failRecord (reach_process c Hg)).
  rewrite Forall_forall in H. now apply H.
Qed.

Lemma process_returns_well_formed_fails_witness :
  PersistentEvent.state Samples.failedIceberg <> BROKEN
  /\ failRecord Samples.failedIceberg.
Proof.
  apply (process_returns_well_formed_fails (g := Samples.engine1)
           Samples.lateBreach).
  - exact (reach_process Samples.firstTick reach_new).
  - vm_compute. left. reflexivity.
Defined.

(** *** Failed and broken zones are terminal *)

Lemma processLevel_terminal side now lastPrice evs lvl key e :
  JSMap.get id_eqb key evs = Some e ->
  PersistentEvent.state e = FAIL \/ PersistentEvent.state e = BROKEN ->
  JSMap.get id_eqb key (processLevel side now lastPrice evs lvl) = Some e.
Proof.
  intros G S. unfold processLevel.
  destruct (detect lvl) as [[ty st]|]; [|exact G].
  set (id := (side, EnrichedLevel.price lvl)).
  destruct (id_eqb key id) eqn:K.
  - rewrite <- (get_congr id_eqb id_eqb_sym id_eqb_trans _ _ evs K), G.
    assert (X : (state_eqb (PersistentEvent.state e) FAIL
                 || state_eqb (PersistentEvent.state e) BROKEN)%bool = true).
    { destruct S as [S|S]; rewrite S; reflexivity. }
    rewrite X. exact G.
  - destruct (JSMap.get id_eqb id evs) as [ex|].
    + destruct (_ || _)%bool; [exact G|].
      rewrite (get_set_other id_eqb id_eqb_sym id_eqb_trans); auto.
    + destruct (match side with bid => _ | ask => _ end); [exact G|].
      rewrite (get_set_other id_eqb id_eqb_sym id_eqb_trans); auto.
Qed.

Lemma processLevels_terminal side now lastPrice key e :
  PersistentEvent.state e = FAIL \/ PersistentEvent.state e = BROKEN ->
  forall levels evs,
    JSMap.get id_eqb key evs = Some e ->
    JSMap.get id_eqb key (processLevels levels side now lastPrice evs) = Some e.
Proof.
  intro S. unfold processLevels.
  induction levels as [|l r IH]; intros evs G; simpl; [exact G|].
  apply IH. now apply processLevel_terminal.
Qed.

(** X5.  In a reachable engine, a zone in FAIL or BROKEN stays in that state
    for as long as it is kept, and is never reinforced: a later call of
    [process] leaves its confirmations, its volume, its time of last
    confirmation and its failure record as they are. *)
Theorem failed_zone_is_terminal :
  forall (g : Engine) (c : Tick) (key : Side * Q) (e e' : PersistentEvent.t),
    reachable g ->
    JSMap.get id_eqb key (events g) = Some e ->
    PersistentEvent.state e = FAIL \/ PersistentEvent.state e = BROKEN ->
    JSMap.get id_eqb key (events (after g c)) = Some e' ->
    PersistentEvent.state e' = PersistentEvent.state e
    /\ PersistentEvent.confirmations e' = PersistentEvent.confirmations e
    /\ PersistentEvent.volume e' = PersistentEvent.volume e
    /\ PersistentEvent.lastConfirmed e' = PersistentEvent.lastConfirmed e
    /\ PersistentEvent.failTime e' = PersistentEvent.failTime e
    /\ PersistentEvent.failConfidence e' = PersistentEvent.failConfidence e.
Proof.
  intros g c key e e' Hg G S G'.
  assert (Hr : failRecord e).
  { assert (H := reachable_failRecord Hg). rewrite Forall_forall in H.
    apply H. eapply get_In. exact G. }
  assert (D : JSMap.get id_eqb key (detectedAt g c) = Some e).
  { unfold detectedAt, detected.
    apply processLevels_terminal; [exact S|].
    apply processLevels_terminal; [exact S|exact G]. }
  rewrite after_events in G'.
  destruct (stateMachine_get (tick_now c) (windowMinutes g * 60 * 1000)
              (tick_lastPrice c) (fun _ => True) (fun _ _ _ => I)
              (detectedAt g c) (failCooldowns g) key
              (detectedAt_uniq g c (reachable_uniq Hg)) D I)
    as (cds0 & _ & E).
  rewrite E in G'. apply stepEvent_Some in G'. destruct G' as [_ G'].
  subst e'.
  match goal with
  | |- context [decay ?age ?w (retest ?ju _ ?lp (fst (toFail ?now _ _ _ ?cds)))] =>
      destruct (stages_terminal now age w lp ju cds Hr S) as (T1 & T2 & T3 & _);
      destruct (stages_sameCore now age w lp ju e cds) as [C _]
  end.
  unfold sameCore in C. cbv zeta in T1, T2, T3. intuition.
Qed.

Lemma failed_zone_is_terminal_witness :
  PersistentEvent.state Samples.stillFailed
  = PersistentEvent.state Samples.failedIceberg
  /\ PersistentEvent.confirmations Samples.stillFailed
     = PersistentEvent.confirmations Samples.failedIceberg
  /\ PersistentEvent.volume Samples.stillFailed
     = PersistentEvent.volume Samples.failedIceberg
  /\ PersistentEvent.lastConfirmed Samples.stillFailed
     = PersistentEvent.lastConfirmed Samples.failedIceberg
  /\ PersistentEvent.failTime Samples.stillFailed
     = PersistentEvent.failTime Samples.failedIceberg
  /\ PersistentEvent.failConfidence Samples.stillFailed
     = PersistentEvent.failConfidence Samples.failedIceberg.
Proof.
  apply (failed_zone_is_terminal
           (g := after Samples.engine1 Samples.lateBreach)
           Samples.reloadTick (bid, 50000%Q)).
  - exact (reach_process Samples.lateBreach
             (reach_process Samples.firstTick reach_new)).
  - vm_compute. reflexivity.
  - left. vm_compute. reflexivity.
  - vm_compute. reflexivity.
Defined.

(** *** No expired event is returned *)

Lemma or_int_failTime (t : Z) : JS.or_int (Some t) 0 = t.
Proof. unfold JS.or_int. destruct (t =? 0) eqn:E; [|reflexivity].
  apply Z.eqb_eq in E. now subst. Qed.

(** X6.  In a reachable engine, an event that [process] returns is within its
    life span at the time of the call: not older than the persistence
    window if it is not in FAIL, and failed at most 120 s ago if it is. *)
Theorem process_returns_no_expired_event :
  forall (g : Engine) (c : Tick) (e : PersistentEvent.t),
    reachable g ->
    In e (returned g c) ->
    (PersistentEvent.state e <> FAIL ->
     tick_now c - PersistentEvent.firstDetected e
     <= windowMinutes g * 60 * 1000)
    /\ (PersistentEvent.state e = FAIL ->
        exists t, PersistentEvent.failTime e = Some t
                  /\ tick_now c - t <= 120000).
Proof.
  intros g c e Hg Hin. apply returned_In in Hin. destruct Hin as [Hin _].
  rewrite after_events in Hin. revert e Hin. apply Forall_forall.
  apply stateMachine_lift with (P := failRecord).
  - intros e cds e' Hr H. apply stepEvent_Some in H.
    destruct H as [Hkeep H]. subst e'.
    match goal with
    | |- context [decay ?age ?w (retest ?ju _ ?lp (fst (toFail ?now _ _ _ ?cds)))] =>
        destruct (stages_sameCore now age w lp ju e cds) as [C _];
        assert (T := stages_terminal now age w lp ju cds Hr);
        assert (N := @stages_new_fail now age w lp ju e cds)
    end.
    cbv zeta in T, N.
    destruct C as (_ & _ & _ & C & _).
    destruct Hkeep as [[S A]|[S A]].
    + split.
      * intros _. rewrite C. exact A.
      * intro S'. exists (tick_now c). split; [now apply N|lia].
    + destruct (T (or_introl S)) as (T1 & T2 & _).
      split.
      * intro S'. congruence.
      * intros _. destruct Hr as (_ & _ & Hr). destruct (Hr S) as (_ & _ & _ & _ & F & _).
        destruct (PersistentEvent.failTime e) as [t|] eqn:FT; [|congruence].
        exists t. split; [exact T2|]. now rewrite or_int_failTime in A.
  - apply detected_lift; [| |exact (reachable_failRecord Hg)].
    + intros. now apply reinforce_failRecord.
    + intros side ty st lvl D _. apply newEvent_failRecord.
      now apply detect_type in D.
Qed.

Lemma process_returns_no_expired_event_witness :
  (PersistentEvent.state Samples.failedIceberg <> FAIL ->
   tick_now Samples.lateBreach
   - PersistentEvent.firstDetected Samples.failedIceberg
   <= windowMinutes Samples.engine1 * 60 * 1000)
  /\ (PersistentEvent.state Samples.failedIceberg = FAIL ->
      exists t, PersistentEvent.failTime Samples.failedIceberg = Some t
                /\ tick_now Samples.lateBreach - t <= 120000).
Proof.
  apply (process_returns_no_expired_event (g := Samples.engine1)
           Samples.lateBreach).
  - exact (reach_process Samples.firstTick reach_new).
  - vm_compute. left. reflexivity.
Defined.

(** *** The active flag *)

(** X7.  After a call of [process] at time [now], every event kept by the
    engine is flagged active exactly when it was confirmed less than 500 ms
    before [now]; so are the events the call returns. *)
Theorem process_active_means_confirmed_500ms :
  forall (g : Engine) (c : Tick),
    Forall (fun e => PersistentEvent.isActive e
                     = (tick_now c - PersistentEvent.lastConfirmed e <? 500))
      (JSMap.values (events (after g c)))
    /\ Forall (fun e => PersistentEvent.isActive e
                        = (tick_now c - PersistentEvent.lastConfirmed e <? 500))
         (returned g c).
Proof.
  intros g c.
  assert (H : Forall (fun e => PersistentEvent.isActive e
                     = (tick_now c - PersistentEvent.lastConfirmed e <? 500))
      (JSMap.values (events (after g c)))).
  { rewrite after_events.
    apply stateMachine_lift with (P := fun _ => True).
    - intros e cds e' _ H. apply stepEvent_Some in H. destruct H as [_ H].
      subst e'.
      match goal with
      | |- context [decay ?age ?w (retest ?ju _ ?lp (fst (toFail ?now _ _ _ ?cds)))] =>
          destruct (stages_sameCore now age w lp ju e cds) as [C A]
      end.
      destruct C as (_ & _ & _ & _ & C & _). rewrite A, C. reflexivity.
    - apply Forall_forall. auto. }
  split; [exact H|].
  apply Forall_forall. intros e Hin. apply returned_In in Hin.
  rewrite Forall_forall in H. now apply H.
Qed.

(** *** No event is created behind the price *)

Lemma processLevel_fresh side now lastPrice evs lvl key :
  (forall e, JSMap.get id_eqb key evs = Some e ->
             PersistentEvent.firstDetected e = now /\ notBehind lastPrice e) ->
  forall e, JSMap.get id_eqb key (processLevel side now lastPrice evs lvl) = Some e ->
            PersistentEvent.firstDetected e = now /\ notBehind lastPrice e.
Proof.
  intros Inv e. unfold processLevel.
  destruct (detect lvl) as [[ty st]|]; [|apply Inv].
  set (id := (side, EnrichedLevel.price lvl)).
  destruct (id_eqb key id) eqn:K.
  - rewrite (get_congr id_eqb id_eqb_sym id_eqb_trans _ _ _ K).
    destruct (JSMap.get id_eqb id evs) as [ex|] eqn:G.
    + destruct (_ || _)%bool.
      * rewrite <- (get_congr id_eqb id_eqb_sym id_eqb_trans _ _ _ K).
        apply Inv.
      * rewrite (get_set_same id_eqb id_eqb_refl). intro H. inversion H; subst e.
        rewrite <- (get_congr id_eqb id_eqb_sym id_eqb_trans _ _ _ K) in G.
        destruct (Inv _ G) as [F N].
        destruct (reinforce_shape ty now lvl ex) as (R1 & R2 & R3 & _).
        split; [congruence|]. unfold notBehind in *. rewrite R2, R3. exact N.
    + destruct (match side with bid => _ | ask => _ end) eqn:B.
      * rewrite <- (get_congr id_eqb id_eqb_sym id_eqb_trans _ _ _ K).
        apply Inv.
      * rewrite (get_set_same id_eqb id_eqb_refl). intro H. inversion H; subst e.
        split; [reflexivity|]. unfold notBehind, newEvent. cbn.
        destruct side; [now apply ltb_ge|now apply gtb_le].
  - destruct (JSMap.get id_eqb id evs) as [ex|].
    + destruct (_ || _)%bool; [apply Inv|].
      rewrite (get_set_other id_eqb id_eqb_sym id_eqb_trans); auto.
    + destruct (match side with bid => _ | ask => _ end); [apply Inv|].
      rewrite (get_set_other id_eqb id_eqb_sym id_eqb_trans); auto.
Qed.

Lemma processLevels_fresh side now lastPrice key :
  forall levels evs,
    (forall e, JSMap.get id_eqb key evs = Some e ->
               PersistentEvent.firstDetected e = now /\ notBehind lastPrice e) ->
    forall e,
      JSMap.get id_eqb key (processLevels levels side now lastPrice evs) = Some e ->
      PersistentEvent.firstDetected e = now /\ notBehind lastPrice e.
Proof.
  unfold processLevels.
  induction levels as [|l r IH]; intros evs Inv; simpl; [exact Inv|].
  apply IH. now apply processLevel_fresh.
Qed.

(** X8.  An event that a call of [process] adds to a reachable engine under a
    key it did not hold is first detected at the time of the call and is
    not behind the price: a bid rests at or below the last price, an ask at
    or above it. *)
Theorem process_creates_no_event_behind_price :
  forall (g : Engine) (c : Tick) (key : Side * Q) (e : PersistentEvent.t),
    reachable g ->
    JSMap.get id_eqb key (events g) = None ->
    JSMap.get id_eqb key (events (after g c)) = Some e ->
    PersistentEvent.firstDetected e = tick_now c
    /\ notBehind (tick_lastPrice c) e.
Proof.
  intros g c key e Hg G0 G1.
  rewrite after_events in G1.
  destruct (JSMap.get id_eqb key (detectedAt g c)) as [e0|] eqn:D.
  - assert (F : PersistentEvent.firstDetected e0 = tick_now c
                /\ notBehind (tick_lastPrice c) e0).
    { revert D. unfold detectedAt, detected.
      apply processLevels_fresh. apply processLevels_fresh.
      intros x Hx. congruence. }
    destruct (stateMachine_get (tick_now c) (windowMinutes g * 60 * 1000)
                (tick_lastPrice c) (fun _ => True) (fun _ _ _ => I)
                (detectedAt g c) (failCooldowns g) key
                (detectedAt_uniq g c (reachable_uniq Hg)) D I)
      as (cds0 & _ & E).
    rewrite E in G1. apply stepEvent_Some in G1. destruct G1 as [_ G1].
    subst e.
    match goal with
    | |- context [decay ?age ?w (retest ?ju _ ?lp (fst (toFail ?now _ _ _ ?cds)))] =>
        destruct (stages_sameCore now age w lp ju e0 cds) as [C _]
    end.
    destruct C as (_ & C1 & C2 & C3 & _). destruct F as [F N].
    split; [congruence|]. unfold notBehind in *. rewrite C1, C2. exact N.
  - rewrite stateMachine_get_None in G1; [discriminate|exact D].
Qed.

Lemma process_creates_no_event_behind_price_witness :
  PersistentEvent.firstDetected Samples.freshIceberg
  = tick_now Samples.firstTick
  /\ notBehind (tick_lastPrice Samples.firstTick) Samples.freshIceberg.
Proof.
  apply (process_creates_no_event_behind_price (g := new_EventEngine)
           Samples.firstTick (bid, 50000%Q)).
  - exact reach_new.
  - reflexivity.
  - vm_compute. reflexivity.
Defined.

(** *** The strength of an event *)

Lemma reachableAt_reachable T g : reachableAt T g -> reachable g.
Proof.
  induction 1; [apply reach_new|now apply reach_setWindow
                |now apply reach_process].
Qed.

Lemma stages_strength now age lastPrice ju e cds :
  PersistentEvent.strength
    (retest ju age lastPrice
       (fst (toFail now age lastPrice
               (toWeakening (toHolding age (set_isActive ju e))) cds)))
  = PersistentEvent.strength e.
Proof.
  set (e1 := set_isActive ju e).
  assert (A2 : PersistentEvent.strength (toHolding age e1)
               = PersistentEvent.strength e).
  { destruct (toHolding_shape age e1) as [E|[E _]]; rewrite E; reflexivity. }
  set (e2 := toHolding age e1) in *.
  assert (A3 : PersistentEvent.strength (toWeakening e2)
               = PersistentEvent.strength e).
  { destruct (toWeakening_shape e2) as [E|[E _]]; rewrite E; exact A2. }
  set (e3 := toWeakening e2) in *.
  assert (A4 : PersistentEvent.strength (fst (toFail now age lastPrice e3 cds))
               = PersistentEvent.strength e).
  { destruct (toFail_shape now age lastPrice e3 cds) as [E|(_ & _ & E)];
      rewrite E; [exact A3|].
    destruct (breach_shape now age e3 cds) as [E'|(conf & rd & _ & _ & E')];
      rewrite E'; exact A3. }
  set (e4 := fst (toFail now age lastPrice e3 cds)) in *.
  destruct (retest_shape ju age lastPrice e4) as [E|E]; rewrite E; exact A4.
Qed.

Lemma decayed_le (s : Q) (age windowMs : Z) :
  (10 <= s)%Q -> (s <= 100)%Q -> 0 <= age -> 0 < windowMs ->
  (s * (1 - inject_Z age / inject_Z windowMs) <= 100)%Q.
Proof.
  intros H1 H2 Ha Hw.
  assert (R : (0 <= inject_Z age / inject_Z windowMs)%Q).
  { apply Qle_shift_div_l.
    - replace 0%Q with (inject_Z 0) by reflexivity. now rewrite <- Zlt_Qlt.
    - rewrite Qmult_0_l. replace 0%Q with (inject_Z 0) by reflexivity.
      now rewrite <- Zle_Qle. }
  set (r := (inject_Z age / inject_Z windowMs)%Q) in *.
  nra.
Qed.

Lemma stepEvent_strength now windowMs lastPrice e cds e' :
  0 < windowMs ->
  (10 <= PersistentEvent.strength e)%Q /\ (PersistentEvent.strength e <= 100)%Q
  /\ PersistentEvent.firstDetected e <= now ->
  fst (stepEvent now windowMs lastPrice e cds) = Some e' ->
  (10 <= PersistentEvent.strength e')%Q /\ (PersistentEvent.strength e' <= 100)%Q
  /\ PersistentEvent.firstDetected e' <= now.
Proof.
  intros Hw (H1 & H2 & H3) H. apply stepEvent_Some in H. destruct H as [_ H].
  subst e'.
  match goal with
  | |- context [decay ?age ?w (retest ?ju _ ?lp (fst (toFail ?now _ _ _ ?cds)))] =>
      destruct (stages_sameCore now age w lp ju e cds) as [C _];
      assert (S := stages_strength now age lp ju e cds);
      destruct (decay_shape age w
                  (retest ju age lp
                     (fst (toFail now age lp
                             (toWeakening (toHolding age (set_isActive ju e)))
                             cds)))) as [[_ E]|[_ E]]
  end.
  - destruct C as (_ & _ & _ & C & _). rewrite E in *. rewrite S, C. auto.
  - destruct C as (_ & _ & _ & C & _). split; [|split; [|now rewrite C]].
    + rewrite E. cbn. apply Q.le_max_l.
    + rewrite E. cbn. rewrite S. apply Q.max_lub.
      * unfold Qle. simpl. lia.
      * apply decayed_le; auto. lia.
Qed.

Lemma reachableAt_strength T g :
  reachableAt T g ->
  Forall (fun e => (10 <= PersistentEvent.strength e)%Q
                   /\ (PersistentEvent.strength e <= 100)%Q
                   /\ PersistentEvent.firstDetected e <= T)
    (JSMap.values (events g)).
Proof.
  induction 1 as [T|T w g Hg IH|T g c Hg IH Hc].
  - constructor.
  - exact IH.
  - rewrite after_events.
    apply stateMachine_lift
      with (P := fun e => (10 <= PersistentEvent.strength e)%Q
                          /\ (PersistentEvent.strength e <= 100)%Q
                          /\ PersistentEvent.firstDetected e <= tick_now c).
    + intros e cds e' He. apply stepEvent_strength; [|exact He].
      assert (W := reachable_window (reachableAt_reachable Hg)). lia.
    + apply detected_lift.
      * intros ty lvl e (H1 & H2 & H3) _.
        destruct (reinforce_shape ty (tick_now c) lvl e)
          as (R1 & _ & _ & _ & _ & R6 & _).
        split; [|split; [exact R6|now rewrite R1]].
        unfold reinforce.
        repeat match goal with
               | |- context [if ?b then _ else _] => destruct b
               end; cbn; apply Q.min_glb; try (unfold Qle; simpl; lia); lra.
      * intros side ty st lvl D _. apply detect_type in D.
        destruct D as (_ & D1 & D2). unfold newEvent. cbn.
        split; [lra|split; [lra|lia]].
      * eapply Forall_impl; [|exact IH]. cbv beta. intros e (H1 & H2 & H3).
        repeat split; auto. lia.
Qed.

(** X9.  When the clock never runs backwards between the calls of [process],
    the strength of every event the engine holds stays between 10 and
    100. *)
Theorem strength_stays_between_10_and_100 :
  forall (T : Z) (g : Engine) (e : PersistentEvent.t),
    reachableAt T g ->
    In e (JSMap.values (events g)) ->
    (10 <= PersistentEvent.strength e)%Q
    /\ (PersistentEvent.strength e <= 100)%Q.
Proof.
  intros T g e Hg Hin. assert (H := reachableAt_strength Hg).
  rewrite Forall_forall in H. destruct (H e Hin) as (H1 & H2 & _). auto.
Qed.

Lemma strength_stays_between_10_and_100_witness :
  (10 <= PersistentEvent.strength Samples.freshIceberg)%Q
  /\ (PersistentEvent.strength Samples.freshIceberg <= 100)%Q.
Proof.
  apply (strength_stays_between_10_and_100 (T := tick_now Samples.firstTick)
           (g := Samples.engine1)).
  - apply at_process with (T := 0); [apply at_new|]. vm_compute. discriminate.
  - vm_compute. left. reflexivity.
Defined.

End EngineTheorems.
(* ===================================================================== *)
(** * Further properties of the smart grouping engine *)
(* ===================================================================== *)

Section SortedBy.
Context {A : Type} (cmp : A -> A -> Q) (R : A -> A -> Prop).
Hypothesis cmp_le : forall x y, Qle_bool (cmp x y) 0 = true -> R x y.
Hypothesis cmp_gt : forall x y, Qle_bool (cmp x y) 0 = false -> R y x.
Hypothesis R_trans : forall x y z, R x y -> R y z -> R x z.

Lemma insert_sorted (x : A) (l : list A) :
  StronglySorted R l -> StronglySorted R (JS.insert cmp x l).
Proof.
  induction 1 as [|y r Hr IH Hy]; simpl.
  - repeat constructor.
  - destruct (Qle_bool (cmp x y) 0) eqn:E.
    + constructor; [constructor; assumption|].
      constructor; [now apply cmp_le|].
      rewrite Forall_forall in *. intros z Hz.
      apply R_trans with y; [now apply cmp_le|auto].
    + constructor; [exact IH|].
      rewrite Forall_forall in *. intros z Hz.
      apply insert_In in Hz. destruct Hz as [->|Hz]; [now apply cmp_gt|auto].
Qed.

Lemma sort_sorted (l : list A) : StronglySorted R (JS.sort cmp l).
Proof.
  induction l as [|x r IH]; simpl; [constructor|now apply insert_sorted].
Qed.

End SortedBy.

Section Grouping.
Local Open Scope Q_scope.
Import SmartGrouping.

Lemma retain_In (threshold : Q) :
  forall (l processed : list SmartZone.t) (z : SmartZone.t),
    In z (fold_left (retain threshold) l processed) ->
    In z processed
    \/ exists z0, In z0 l /\ JS.ltb (SmartZone.noiseScore z0) threshold = true
                  /\ z = markSignificant z0.
Proof.
  induction l as [|x r IH]; intros processed z H; simpl in H; [now left|].
  apply IH in H. destruct H as [H|(z0 & H1 & H2 & H3)].
  - unfold retain in H. destruct (JS.ltb (SmartZone.noiseScore x) threshold) eqn:E.
    + apply in_app_or in H. destruct H as [H|[H|[]]]; [now left|].
      right. exists x. repeat split; auto. now left.
    + now left.
  - right. exists z0. repeat split; auto. now right.
Qed.

Lemma noiseThreshold_le_80 g noiseLevel : noiseThreshold g noiseLevel <= 80.
Proof.
  unfold noiseThreshold. destruct noiseLevel; try (unfold Qle; simpl; lia).
  destruct (JS.gtb (volatility g) 20); unfold Qle; simpl; lia.
Qed.

Lemma aggregateZones_In g rawMap groupSize timeWindow noiseLevel lastPrice now z :
  In z (aggregateZones g rawMap groupSize timeWindow noiseLevel lastPrice now) ->
  exists z0,
    In z0 (JSMap.values
             (fold_left (addRaw g groupSize now (now - timeWindow))
                (JSMap.values rawMap) []))
    /\ z = markSignificant
             (scoreZone groupSize lastPrice
                (calculateDynamicVolumeThreshold
                   (JSMap.values
                      (fold_left (addRaw g groupSize now (now - timeWindow))
                         (JSMap.values rawMap) [])))
                z0)
    /\ SmartZone.noiseScore z < noiseThreshold g noiseLevel.
Proof.
  unfold aggregateZones. intro H. apply sort_In in H.
  apply retain_In in H. destruct H as [[]|(z1 & H1 & H2 & H3)].
  apply in_map_iff in H1. destruct H1 as (z0 & E & H1).
  exists z0. subst z1 z. repeat split; auto.
  apply ltb_lt in H2. exact H2.
Qed.

Lemma scoreZone_noise groupSize lastPrice threshold zone :
  exists n,
    SmartZone.noiseScore (scoreZone groupSize lastPrice threshold zone)
    = Qmax 0 (Qmin 100 n).
Proof.
  unfold scoreZone.
  match goal with
  | |- context [let '(n4, impact) := ?p in _] => destruct p as [n4 impact]
  end.
  exists n4. reflexivity.
Qed.

(** X10.  [aggregateZones] returns its zones ordered from the highest
    [priceStart] to the lowest.  Each of them is marked significant, with
    a noise score between 0 and 100 that is under the threshold of the
    noise level, itself at most 80. *)
Theorem aggregateZones_returns_significant_zones_in_descending_order :
  forall (g : Engine) (rawMap : list (Q * ZoneRaw.t)) (groupSize : Q)
         (timeWindow : Z) (noiseLevel : NoiseFilterLevel) (lastPrice : Q)
         (now : Z),
    StronglySorted priceStart_ge
      (aggregateZones g rawMap groupSize timeWindow noiseLevel lastPrice now)
    /\ Forall (fun z => SmartZone.isSignificant z = true
                        /\ 0 <= SmartZone.noiseScore z
                        /\ SmartZone.noiseScore z <= 100
                        /\ SmartZone.noiseScore z < noiseThreshold g noiseLevel
                        /\ noiseThreshold g noiseLevel <= 80)
         (aggregateZones g rawMap groupSize timeWindow noiseLevel lastPrice now).
Proof.
  intros. split.
  - unfold aggregateZones. apply sort_sorted.
    + intros x y H. unfold byPriceStartDesc in H. apply Qle_bool_iff in H.
      unfold priceStart_ge. lra.
    + intros x y H. unfold byPriceStartDesc in H. unfold priceStart_ge.
      destruct (Qlt_le_dec (SmartZone.priceStart y) (SmartZone.priceStart x))
        as [L|L]; [|exact L].
      assert (X : Qle_bool (SmartZone.priceStart y - SmartZone.priceStart x) 0
                  = true); [|congruence].
      apply Qle_bool_iff. lra.
    + unfold priceStart_ge. intros x y z H1 H2. lra.
  - apply Forall_forall. intros z H.
    apply aggregateZones_In in H. destruct H as (z0 & _ & E & L).
    assert (N : 0 <= SmartZone.noiseScore z /\ SmartZone.noiseScore z <= 100).
    { subst z.
      destruct (scoreZone_noise groupSize lastPrice
                  (calculateDynamicVolumeThreshold
                     (JSMap.values
                        (fold_left (addRaw g groupSize now (now - timeWindow))
                           (JSMap.values rawMap) [])))
                  z0) as [n En].
      cbn [markSignificant SmartZone.noiseScore]. rewrite En. split.
      - apply Q.le_max_l.
      - apply Q.max_lub; [unfold Qle; simpl; lia|apply Q.le_min_l]. }
    destruct N as [N1 N2].
    split; [subst z; reflexivity|]. split; [exact N1|]. split; [exact N2|].
    split; [exact L|apply noiseThreshold_le_80].
Qed.

(** *** Stale entries *)

Lemma addRaw_stale g groupSize now validStart zones raw :
  (ZoneRaw.lastUpdate raw <? validStart)%Z = true ->
  addRaw g groupSize now validStart zones raw = zones.
Proof. intro H. unfold addRaw. now rewrite H. Qed.

Lemma addRaw_filter g groupSize now validStart :
  forall (raws : list ZoneRaw.t) (zones : list (Q * SmartZone.t)),
    fold_left (addRaw g groupSize now validStart)
      (filter (fun r => negb (ZoneRaw.lastUpdate r <? validStart)%Z) raws) zones
    = fold_left (addRaw g groupSize now validStart) raws zones.
Proof.
  induction raws as [|r rs IH]; intro zones; simpl; [reflexivity|].
  destruct (ZoneRaw.lastUpdate r <? validStart)%Z eqn:E; simpl.
  - rewrite IH. now rewrite addRaw_stale.
  - apply IH.
Qed.

Lemma values_filter {K V : Type} (p : V -> bool) (m : list (K * V)) :
  JSMap.values (filter (fun kv => p (snd kv)) m) = filter p (JSMap.values m).
Proof.
  unfold JSMap.values. induction m as [|[k v] r IH]; simpl; [reflexivity|].
  destruct (p v); simpl; now rewrite IH.
Qed.

(** X11.  Raw entries last updated before [now - timeWindow] play no part: the
    result is the one for the map without them. *)
Theorem aggregateZones_ignores_stale_entries :
  forall (g : Engine) (rawMap : list (Q * ZoneRaw.t)) (groupSize : Q)
         (timeWindow : Z) (noiseLevel : NoiseFilterLevel) (lastPrice : Q)
         (now : Z),
    aggregateZones g (filter (fresh now timeWindow) rawMap) groupSize
      timeWindow noiseLevel lastPrice now
    = aggregateZones g rawMap groupSize timeWindow noiseLevel lastPrice now.
Proof.
  intros. unfold aggregateZones, fresh.
  rewrite (values_filter
             (fun r => negb (ZoneRaw.lastUpdate r <? now - timeWindow)%Z)).
  now rewrite addRaw_filter.
Qed.

(** *** The price window of the volatility *)

Lemma updateVolatility_prices Math_sqrt p g :
  recentPrices (updateVolatility Math_sqrt p g)
  = if (20 <? length (recentPrices g ++ [p]))%nat
    then tl (recentPrices g ++ [p]) else recentPrices g ++ [p].
Proof.
  unfold updateVolatility.
  destruct (20 <? length (recentPrices g ++ [p]))%nat;
    match goal with
    | |- context [if ?b then _ else _] => destruct b
    end; reflexivity.
Qed.

Lemma updateVolatility_warm_up Math_sqrt p g :
  (length (recentPrices (updateVolatility Math_sqrt p g)) < 5)%nat ->
  volatility (updateVolatility Math_sqrt p g) = 0.
Proof.
  unfold updateVolatility.
  destruct (20 <? length (recentPrices g ++ [p]))%nat;
    match goal with
    | |- context [if ?b then _ else _] => destruct b eqn:E
    end; cbn; auto; intro H; apply Nat.ltb_ge in E; lia.
Qed.

Lemma tl_skipn {A : Type} (k : nat) (l : list A) :
  tl (skipn k l) = skipn (S k) l.
Proof.
  revert l. induction k as [|k IH]; intros [|x r]; simpl; auto.
Qed.

Lemma fed_app Math_sqrt prices p :
  fed Math_sqrt (prices ++ [p]) = updateVolatility Math_sqrt p (fed Math_sqrt prices).
Proof. unfold fed. now rewrite fold_left_app. Qed.

Lemma fed_prices Math_sqrt :
  forall prices,
    recentPrices (fed Math_sqrt prices) = JS.slice_last 20 prices.
Proof.
  induction prices as [|p prices IH] using rev_ind; [reflexivity|].
  rewrite fed_app, updateVolatility_prices, IH. unfold JS.slice_last.
  rewrite !length_app, length_skipn. simpl length.
  destruct (Nat.le_gt_cases (length prices) 19) as [L|L].
  - replace (length prices - 20)%nat with 0%nat by lia.
    replace (length prices + 1 - 20)%nat with 0%nat by lia.
    simpl skipn.
    destruct (20 <? length prices - 0 + 1)%nat eqn:E; [|reflexivity].
    apply Nat.ltb_lt in E. lia.
  - destruct (20 <? length prices - (length prices - 20) + 1)%nat eqn:E;
      [|apply Nat.ltb_ge in E; lia].
    replace (length prices + 1 - 20)%nat with (S (length prices - 20)) by lia.
    rewrite skipn_app.
    replace (S (length prices - 20) - length prices)%nat with 0%nat by lia.
    simpl (skipn 0 [p]). rewrite <- tl_skipn.
    destruct (skipn (length prices - 20) prices) as [|x r] eqn:S.
    + exfalso. assert (X := length_skipn (length prices - 20) prices).
      rewrite S in X. simpl in X. lia.
    + reflexivity.
Qed.

Lemma fed_window :
  forall (Math_sqrt : Q -> Q) (prices : list Q),
    recentPrices (fed Math_sqrt prices) = JS.slice_last 20 prices
    /\ (length (recentPrices (fed Math_sqrt prices)) <= 20)%nat
    /\ ((length prices < 5)%nat -> volatility (fed Math_sqrt prices) = 0).
Proof.
  intros Math_sqrt prices. split; [apply fed_prices|]. split.
  - rewrite fed_prices. unfold JS.slice_last. rewrite length_skipn. lia.
  - intro H. destruct prices as [|p prices] using rev_ind; [reflexivity|].
    rewrite fed_app. apply updateVolatility_warm_up.
    rewrite <- fed_app, fed_prices. unfold JS.slice_last.
    rewrite length_skipn. lia.
Qed.

(** X12.  Fed one price at a time, the engine remembers exactly the last 20
    prices, and its volatility is 0 while it holds fewer than 5. *)
Theorem updateVolatility_keeps_last_20_prices :
  forall (Math_sqrt : Q -> Q) (prices : list Q),
    recentPrices (fed Math_sqrt prices) = JS.slice_last 20 prices
    /\ (length (recentPrices (fed Math_sqrt prices)) <= 20)%nat
    /\ ((length prices < 5)%nat -> volatility (fed Math_sqrt prices) = 0).
Proof. exact fed_window. Qed.

(** X13.  The adaptive group size is never below the base group: it is the base
    group, or the larger of the base group and 10, 50 or 100.  It is the
    base group itself at zero volatility, so for an engine that was fed
    fewer than five prices. *)
Theorem getAdaptiveGroupSize_at_least_base :
  forall (Math_sqrt : Q -> Q) (prices : list Q) (g : Engine) (baseGroup : Q),
    baseGroup <= getAdaptiveGroupSize g baseGroup
    /\ (getAdaptiveGroupSize g baseGroup = baseGroup
        \/ getAdaptiveGroupSize g baseGroup = Qmax baseGroup 10
        \/ getAdaptiveGroupSize g baseGroup = Qmax baseGroup 50
        \/ getAdaptiveGroupSize g baseGroup = Qmax baseGroup 100)
    /\ (volatility g == 0 -> getAdaptiveGroupSize g baseGroup = baseGroup)
    /\ ((length prices < 5)%nat ->
        getAdaptiveGroupSize (fed Math_sqrt prices) baseGroup = baseGroup).
Proof.
  intros Math_sqrt prices g baseGroup.
  assert (Z : forall g', volatility g' == 0 ->
                         getAdaptiveGroupSize g' baseGroup = baseGroup).
  { intros g' H. unfold getAdaptiveGroupSize. apply eqb_eq in H.
    now rewrite H. }
  split; [|split; [|split; [apply Z|]]].
  - unfold getAdaptiveGroupSize, JS.Math_max.
    repeat match goal with
           | |- context [if ?b then _ else _] => destruct b
           end; try apply Q.le_max_l; apply Qle_refl.
  - unfold getAdaptiveGroupSize, JS.Math_max.
    repeat match goal with
           | |- context [if ?b then _ else _] => destruct b
           end; auto.
  - intro H. apply Z.
    destruct (fed_window Math_sqrt prices)
      as (_ & _ & W).
    rewrite (W H). reflexivity.
Qed.

End Grouping.
Section Zones.
Local Open Scope Q_scope.
Import SmartGrouping.

(** *** The zones cover the raw entries *)








End Zones.

(* ===================================================================== *)
(** * The raw delta map of the order-book delta view *)
(* ===================================================================== *)

Section DeltaMap.
Local Open Scope Q_scope.
Import OrderBookDelta.






End DeltaMap.
(* ===================================================================== *)
(** * Further properties of the auction context and its display *)
(* ===================================================================== *)

Section Confidence.
Local Open Scope Q_scope.
Import Analytics.

Lemma calculateAuctionContext_cases lastPrice profile vwap recentCandles :
  (length recentCandles < 5)%nat
  /\ calculateAuctionContext lastPrice profile vwap recentCandles = neutralContext
  \/ (5 <= length recentCandles)%nat
     /\ exists c,
          (c == 50 \/ c == 70 \/ c == 75 \/ c == 80)
          /\ AuctionContext.confidence
               (calculateAuctionContext lastPrice profile vwap recentCandles)
             = Qmin 100 (Qmax 0 c).
Proof.
  unfold calculateAuctionContext.
  destruct (length recentCandles <? 5)%nat eqn:L.
  { left. apply Nat.ltb_lt in L. auto. }
  apply Nat.ltb_ge in L. right. split; [exact L|].
  destruct (JS.at_ recentCandles (JS.len recentCandles - 1)) as [last|] eqn:A.
  2:{ exfalso. destruct (at_in_range recentCandles
                          (i := (JS.len recentCandles - 1)%Z)) as [x Hx];
        [unfold JS.len; lia|congruence]. }
  cbv zeta.
  match goal with
  | |- context [match ?m with BALANCED => _ | _ => _ end] => set (mode := m)
  end.
  destruct mode; cbn [auctionMode_eqb andb];
    repeat match goal with
           | |- context [if ?b then _ else _] => destruct b
           end;
    cbn [AuctionContext.confidence JS.Math_min JS.Math_max];
    eexists; (split; [|reflexivity]);
    first [ left; ring
          | right; left; ring
          | right; right; left; ring
          | right; right; right; ring ].
Qed.

(** X16.  The confidence of an auction context is 0 with fewer than five
    candles and 50, 70, 75 or 80 otherwise: it never exceeds 80. *)
Theorem calculateAuctionContext_confidence_at_most_80 :
  forall (lastPrice : Q) (profile : ProfileMetrics.t) (vwap : Q)
         (recentCandles : list Candle.t),
    let c := AuctionContext.confidence
               (calculateAuctionContext lastPrice profile vwap recentCandles) in
    (c == 0 \/ c == 50 \/ c == 70 \/ c == 75 \/ c == 80)
    /\ 0 <= c /\ c <= 80
    /\ JS.gtb c 80 = false.
Proof.
  intros lastPrice profile vwap recentCandles c.
  assert (H : c == 0 \/ c == 50 \/ c == 70 \/ c == 75 \/ c == 80).
  { subst c.
    destruct (calculateAuctionContext_cases lastPrice profile vwap recentCandles)
      as [[_ E]|[_ (x & Hx & E)]].
    - rewrite E. left. reflexivity.
    - rewrite E. right.
      destruct Hx as [Hx|[Hx|[Hx|Hx]]]; rewrite Hx;
        [left|right; left|right; right; left|right; right; right];
        reflexivity. }
  split; [exact H|].
  assert (B : 0 <= c /\ c <= 80).
  { destruct H as [H|[H|[H|[H|H]]]]; rewrite H; split;
      unfold Qle; simpl; lia. }
  destruct B as [B1 B2]. repeat split; auto. now apply gtb_le.
Qed.

End Confidence.

Section Stability.
Local Open Scope Z_scope.
Import ProfileChart.

Lemma auctionMode_eqb_eq (a b : AuctionMode) :
  Analytics.auctionMode_eqb a b = true <-> a = b.
Proof. destruct a, b; simpl; split; congruence. Qed.

Lemma applyStabilityRule_cases instantContext now r :
  JS.gtb (AuctionContext.confidence instantContext) 80 = false ->
  let r' := applyStabilityRule instantContext now r in
  (AuctionContext.mode (stableContext r') = AuctionContext.mode (stableContext r)
   /\ lastStateChange r' = lastStateChange r)
  \/ (AuctionContext.mode (stableContext r')
      <> AuctionContext.mode (stableContext r)
      /\ stableContext r' = instantContext
      /\ 2000 < now - lastStateChange r
      /\ lastStateChange r' = now).
Proof.
  intros C r'. subst r'. unfold applyStabilityRule. rewrite C, orb_false_r.
  destruct (Analytics.auctionMode_eqb (AuctionContext.mode instantContext)
              (AuctionContext.mode (stableContext r))) eqn:M; cbn [negb].
  - left. apply auctionMode_eqb_eq in M. cbn. auto.
  - destruct (now - lastStateChange r >? 2000) eqn:T; [|left; auto].
    right. cbn. repeat split; auto.
    + intro X. apply auctionMode_eqb_eq in X. congruence.
    + lia.
Qed.

Lemma calculateSessionLevels_returns candles :
  exists sl, SessionAnalytics.calculateSessionLevels candles = JS.Ok sl.
Proof.
  unfold SessionAnalytics.calculateSessionLevels.
  destruct candles as [|c0 r]; [eauto|].
  destruct (at_in_range (c0 :: r) (i := JS.len (c0 :: r) - 1)) as [x Hx].
  { unfold JS.len. simpl length. lia. }
  rewrite Hx. cbn [JS.deref JS.bind]. eauto.
Qed.

(** X17.  A render of the chart always goes through, and it changes the
    displayed auction mode only when more than 2000 ms have passed since
    the last change, which it then dates to the render: the confidence of
    the computed context never exceeds 80, so the high-confidence override
    of the stability rule does not apply.  Otherwise the mode and the date
    of its last change are kept. *)
Theorem render_mode_changes_after_2s_only :
  forall (candles : list Candle.t) (profile : ProfileMetrics.t) (now : Z)
         (r : Refs),
    exists r',
      render candles profile now r = JS.Ok r'
      /\ ((AuctionContext.mode (stableContext r')
           = AuctionContext.mode (stableContext r)
           /\ lastStateChange r' = lastStateChange r)
          \/ (AuctionContext.mode (stableContext r')
              <> AuctionContext.mode (stableContext r)
              /\ 2000 < now - lastStateChange r
              /\ lastStateChange r' = now)).
Proof.
  intros candles profile now r. unfold render.
  destruct (calculateSessionLevels_returns candles) as [sl E]. rewrite E.
  cbn [JS.bind].
  assert (L : exists lastPrice,
             (if (0 <? length candles)%nat
              then JS.bind (JS.deref (JS.at_ candles (JS.len candles - 1)))
                     (fun c => JS.Ok (Candle.close c))
              else JS.Ok 0%Q) = JS.Ok lastPrice).
  { destruct (0 <? length candles)%nat eqn:N; [|eauto].
    apply Nat.ltb_lt in N.
    destruct (at_in_range candles (i := JS.len candles - 1)) as [x Hx].
    { unfold JS.len. lia. }
    rewrite Hx. cbn. eauto. }
  destruct L as [lastPrice L]. rewrite L. cbn [JS.bind].
  eexists. split; [reflexivity|].
  match goal with
  | |- context [applyStabilityRule ?i now r] =>
      destruct (@applyStabilityRule_cases i now r) as [H|(H1 & _ & H2 & H3)]
  end.
  - apply calculateAuctionContext_confidence_at_most_80.
  - left. exact H.
  - right. auto.
Qed.

End Stability.
(* ===================================================================== *)
(** * Further properties of [enrichCandlesWithContext] *)
(* ===================================================================== *)

Section EnrichFacts.
Local Open Scope Q_scope.
Import Analytics.
Variable Math_sqrt : Q -> Q.

(** *** Fields the divergence pass leaves alone *)

Section Field.
Context {X : Type} (f : Candle.t -> X).
Hypothesis f_divergence :
  forall d c, f (Candle.with_divergence d c) = f c.

Lemma update_field (l : list Candle.t) (i : nat) (d : Divergence) :
  map f (JS.update l i (Candle.with_divergence d)) = map f l.
Proof.
  revert i. induction l as [|x r IH]; intros [|i]; simpl; try reflexivity.
  - now rewrite f_divergence.
  - now rewrite IH.
Qed.

Lemma divergenceAt_field (enriched : list Candle.t) (i : Z) :
  map f (divergenceAt enriched i) = map f enriched.
Proof.
  unfold divergenceAt.
  destruct (JS.at_ enriched i); [|reflexivity].
  destruct (JS.at_ enriched (i - 1)); [|reflexivity].
  destruct (JS.at_ enriched (i + 1)); [|reflexivity].
  repeat match goal with
         | |- context [if ?b then _ else _] => destruct b
         end;
    rewrite ?update_field; reflexivity.
Qed.

Lemma divergencePass_field (enriched : list Candle.t) :
  map f (divergencePass enriched) = map f enriched.
Proof.
  unfold divergencePass.
  generalize (JS.upto LOOKBACK (JS.len enriched - 2)). intro steps.
  revert enriched. induction steps as [|i r IH]; intro enriched; simpl.
  - reflexivity.
  - now rewrite IH, divergenceAt_field.
Qed.

End Field.

Lemma enrichPass_raw :
  forall (cs : list Candle.t) (a : Acc),
    map (fun c => (rawFields c, Candle.delta c)) (enrichPass Math_sqrt a cs)
    = map (fun c => (rawFields c,
                     Some (Candle.takerBuyVolume c
                           - (Candle.volume c - Candle.takerBuyVolume c))))
        cs.
Proof.
  induction cs as [|c r IH]; intro a; [reflexivity|].
  cbn [enrichPass]. destruct (enrichOne Math_sqrt a c) as [a' c'] eqn:E.
  cbn [map]. rewrite IH. f_equal.
  unfold enrichOne in E. inversion E; subst. reflexivity.
Qed.

(** X18.  [enrichCandlesWithContext] returns one candle per input candle, in
    order, with the timestamp, the prices, the volumes and the closed flag
    unchanged, and with [delta] set to the taker buy volume less the rest
    of the volume. *)
Theorem enrichCandlesWithContext_keeps_candles :
  forall candles : list Candle.t,
    map (fun c => (rawFields c, Candle.delta c))
      (enrichCandlesWithContext Math_sqrt candles)
    = map (fun c => (rawFields c,
                     Some (Candle.takerBuyVolume c
                           - (Candle.volume c - Candle.takerBuyVolume c))))
        candles.
Proof.
  intro candles. unfold enrichCandlesWithContext.
  rewrite divergencePass_field; [apply enrichPass_raw|].
  intros d c. reflexivity.
Qed.

(** *** Where the divergence marks go *)

Lemma update_nth {A : Type} (f : A -> A) :
  forall (l : list A) (i k : nat),
    nth_error (JS.update l i f) k
    = if (k =? i)%nat then option_map f (nth_error l k) else nth_error l k.
Proof.
  induction l as [|x r IH]; intros [|i] [|k]; simpl; try reflexivity.
  - now destruct (k =? i)%nat.
  - apply IH.
Qed.

Lemma at_map {A B : Type} (f : A -> B) (l : list A) (i : Z) :
  JS.at_ (map f l) i = option_map f (JS.at_ l i).
Proof.
  unfold JS.at_. destruct (i <? 0)%Z; [reflexivity|]. apply nth_error_map.
Qed.

Lemma divergenceAt_nth (l : list Candle.t) (i : Z) (k : nat) (c' : Candle.t) :
  nth_error (divergenceAt l i) k = Some c' ->
  exists c,
    nth_error l k = Some c
    /\ (Candle.divergence c' = Candle.divergence c
        \/ (Z.of_nat k = i /\ markedAt l i c')).
Proof.
  unfold divergenceAt.
  destruct (JS.at_ l i) as [curr|] eqn:Ai; [|eauto].
  destruct (JS.at_ l (i - 1)) as [before|] eqn:Ab; [|eauto].
  destruct (JS.at_ l (i + 1)) as [after|] eqn:Aa; [|eauto].
  assert (R := at_Some _ _ Ai).
  set (isPriceHigh := JS.gtb (Candle.high curr) (Candle.high before)
                      && JS.gtb (Candle.high curr) (Candle.high after)).
  set (isPriceLow := JS.ltb (Candle.low curr) (Candle.low before)
                     && JS.ltb (Candle.low curr) (Candle.low after)).
  assert (PH : isPriceHigh = true ->
               isPivot (fun v w => w < v) (map Candle.high l) i).
  { intro H. apply andb_prop in H. destruct H as [H1 H2].
    apply gtb_gt in H1, H2.
    exists (Candle.high curr), (Candle.high before), (Candle.high after).
    rewrite !at_map, Ai, Ab, Aa. repeat split; auto. }
  assert (PL : isPriceLow = true ->
               isPivot (fun v w => v < w) (map Candle.low l) i).
  { intro H. apply andb_prop in H. destruct H as [H1 H2].
    apply ltb_lt in H1, H2.
    exists (Candle.low curr), (Candle.low before), (Candle.low after).
    rewrite !at_map, Ai, Ab, Aa. repeat split; auto. }
  clearbody isPriceHigh isPriceLow.
  match goal with
  | |- context [if (isPriceHigh && ?x) then _ else _] => generalize x
  end.
  match goal with
  | |- context [if (isPriceLow && ?x) then _ else _] => generalize x
  end.
  intros bl bh.
  destruct (isPriceHigh && bh) eqn:BH; destruct (isPriceLow && bl) eqn:BL;
    rewrite ?update_nth;
    destruct (k =? Z.to_nat i)%nat eqn:K;
    try (intro H; exists c'; split; [exact H|now left]);
    apply Nat.eqb_eq in K;
    destruct (nth_error l k) as [c|] eqn:N; try discriminate;
    cbn [option_map]; intro H; inversion H; subst c'; exists c;
    (split; [reflexivity|]); right; (split; [lia|]);
    apply andb_prop in BH || apply andb_prop in BL.
  - right. split; [reflexivity|]. apply PL. apply andb_prop in BL. tauto.
  - left. split; [reflexivity|]. apply PH. tauto.
  - right. split; [reflexivity|]. apply PL. tauto.
Qed.

Lemma divergenceFold_nth :
  forall (steps : list Z) (l : list Candle.t) (k : nat) (c' : Candle.t),
    nth_error (fold_left divergenceAt steps l) k = Some c' ->
    exists c,
      nth_error l k = Some c
      /\ (Candle.divergence c' = Candle.divergence c
          \/ (In (Z.of_nat k) steps /\ markedAt l (Z.of_nat k) c')).
Proof.
  induction steps as [|i r IH]; intros l k c' H; simpl in H.
  - exists c'. auto.
  - apply IH in H. destruct H as (c1 & H1 & D1).
    apply divergenceAt_nth in H1. destruct H1 as (c & H0 & D0).
    exists c. split; [exact H0|].
    assert (Mh : map Candle.high (divergenceAt l i) = map Candle.high l)
      by (apply divergenceAt_field; reflexivity).
    assert (Ml : map Candle.low (divergenceAt l i) = map Candle.low l)
      by (apply divergenceAt_field; reflexivity).
    destruct D1 as [D1|[In1 M1]].
    + destruct D0 as [D0|[K M0]].
      * left. congruence.
      * right. split; [now left|]. subst i.
        unfold markedAt in *. rewrite D1.
        destruct M0 as [[A B]|[A B]]; [left|right]; split; auto.
    + right. split; [now right|].
      unfold markedAt in *. rewrite Mh, Ml in M1. exact M1.
Qed.

Lemma upto_In (lo hi t : Z) : In t (JS.upto lo hi) -> (lo <= t <= hi)%Z.
Proof.
  unfold JS.upto. intro H. apply in_map_iff in H. destruct H as (n & E & H).
  apply in_seq in H. lia.
Qed.

Lemma enrichPass_divergence :
  forall (cs : list Candle.t) (a : Acc) (c : Candle.t),
    In c (enrichPass Math_sqrt a cs) -> Candle.divergence c = Some None.
Proof.
  induction cs as [|x r IH]; intros a c H; [destruct H|].
  cbn [enrichPass] in H. destruct (enrichOne Math_sqrt a x) as [a' c'] eqn:E.
  destruct H as [H|H]; [|eauto].
  subst c'. unfold enrichOne in E. inversion E; subst. reflexivity.
Qed.

Lemma map_fst_raw (f : Candle.t -> Q)
    (g : Z * Q * Q * Q * Q * Q * Q * option bool -> Q) (l l' : list Candle.t)
    (d : Candle.t -> option Q) (d' : Candle.t -> option Q) :
  (forall c, f c = g (rawFields c)) ->
  map (fun c => (rawFields c, d c)) l = map (fun c => (rawFields c, d' c)) l' ->
  map f l = map f l'.
Proof.
  intros Hf H.
  assert (E : map (fun p => g (fst p)) (map (fun c => (rawFields c, d c)) l)
              = map (fun p => g (fst p)) (map (fun c => (rawFields c, d' c)) l'))
    by now rewrite H.
  rewrite !map_map in E. cbn [fst] in E.
  rewrite (map_ext f (fun x => g (rawFields x)) Hf l).
  rewrite (map_ext f (fun x => g (rawFields x)) Hf l').
  exact E.
Qed.

(** X19.  A candle comes out with a divergence that is null, bearish or
    bullish.  A bearish mark only sits on a candle whose high exceeds the
    highs of both its neighbours, a bullish mark on one whose low is under
    both neighbours' lows; the first three candles and the last one are
    never marked. *)
Theorem enrichCandlesWithContext_marks_pivots_only :
  forall (candles : list Candle.t) (k : nat) (c : Candle.t),
    nth_error (enrichCandlesWithContext Math_sqrt candles) k = Some c ->
    Candle.divergence c = Some None
    \/ ((3 <= k)%nat /\ (k + 2 <= length candles)%nat
        /\ ((Candle.divergence c = Some (Some bearish)
             /\ isPivot (fun v w => w < v) (map Candle.high candles)
                  (Z.of_nat k))
            \/ (Candle.divergence c = Some (Some bullish)
                /\ isPivot (fun v w => v < w) (map Candle.low candles)
                     (Z.of_nat k)))).
Proof.
  intros candles k c H. unfold enrichCandlesWithContext, divergencePass in H.
  apply divergenceFold_nth in H. destruct H as (c0 & H0 & D).
  assert (D0 : Candle.divergence c0 = Some None).
  { eapply enrichPass_divergence. eapply nth_error_In. exact H0. }
  destruct D as [D|[Hin M]]; [left; congruence|].
  right. apply upto_In in Hin. unfold LOOKBACK, JS.len in Hin.
  assert (L : length (enrichPass Math_sqrt acc0 candles) = length candles).
  { assert (E := enrichPass_raw candles acc0).
    apply (f_equal (@length _)) in E. now rewrite !length_map in E. }
  rewrite L in Hin. split; [lia|]. split; [lia|].
  assert (Mh : map Candle.high (enrichPass Math_sqrt acc0 candles)
               = map Candle.high candles).
  { eapply (map_fst_raw Candle.high
              (fun r => match r with (_, _, h, _, _, _, _, _) => h end));
      [reflexivity|apply enrichPass_raw]. }
  assert (Ml : map Candle.low (enrichPass Math_sqrt acc0 candles)
               = map Candle.low candles).
  { eapply (map_fst_raw Candle.low
              (fun r => match r with (_, _, _, l, _, _, _, _) => l end));
      [reflexivity|apply enrichPass_raw]. }
  unfold markedAt in M. rewrite Mh, Ml in M. exact M.
Qed.

End EnrichFacts.

Lemma enrichCandlesWithContext_marks_pivots_only_witness :
  Candle.divergence Samples.divergentCandle = Some None
  \/ ((3 <= 4)%nat /\ (4 + 2 <= length Samples.divergentCandles)%nat
      /\ ((Candle.divergence Samples.divergentCandle = Some (Some bearish)
           /\ isPivot (fun v w => w < v)%Q
                (map Candle.high Samples.divergentCandles) (Z.of_nat 4))
          \/ (Candle.divergence Samples.divergentCandle = Some (Some bullish)
              /\ isPivot (fun v w => v < w)%Q
                   (map Candle.low Samples.divergentCandles) (Z.of_nat 4)))).
Proof.
  apply (enrichCandlesWithContext_marks_pivots_only (fun x => x)
           Samples.divergentCandles 4).
  vm_compute. reflexivity.
Defined.
(* ===================================================================== *)
(** * Further properties of [calculateProfile] *)
(* ===================================================================== *)

Section ProfileFacts.
Local Open Scope Q_scope.
Import Analytics.

(** What [calculateProfile] returns for a non-empty array. *)
Lemma calculateProfile_Ok first rest tickSize m :
  calculateProfile (first :: rest) tickSize = JS.Ok m ->
  let a :=
    fold_left (addCandle tickSize) (first :: rest)
      (mkProfAcc [] (Candle.high first) (Candle.low first) 0) in
  ProfileMetrics.levels m
  = JS.sort byPrice (map (toLevel tickSize) (volumeMap a))
  /\ ProfileMetrics.poc m = fst (pocScan (ProfileMetrics.levels m))
  /\ ProfileMetrics.totalVolume m = totalVolume a
  /\ ProfileMetrics.sessionHigh m = sessionHigh a
  /\ ProfileMetrics.sessionLow m = sessionLow a.
Proof.
  intros H a. unfold calculateProfile in H. fold a in H.
  set (levels := JS.sort byPrice (map (toLevel tickSize) (volumeMap a))) in *.
  destruct (pocScan levels) as [poc maxVol] eqn:Hscan.
  destruct (va_loop _ levels _ _) as [s| |]; cbn in H; try discriminate.
  inversion H; subst m.
  cbn [ProfileMetrics.levels ProfileMetrics.poc ProfileMetrics.totalVolume
       ProfileMetrics.sessionHigh ProfileMetrics.sessionLow].
  rewrite Hscan. repeat split.
Qed.

Lemma pocScan_max (levels : list ProfileLevel.t) :
  forall s,
    snd s <= snd (fold_left pocStep levels s)
    /\ forall l, In l levels ->
                 ProfileLevel.volume l <= snd (fold_left pocStep levels s).
Proof.
  induction levels as [|x r IH]; intro s; simpl.
  - split; [apply Qle_refl|]. intros l [].
  - destruct (IH (pocStep s x)) as [H1 H2].
    assert (S : snd s <= snd (pocStep s x)
                /\ ProfileLevel.volume x <= snd (pocStep s x)).
    { unfold pocStep.
      destruct (JS.gtb (ProfileLevel.volume x) (snd s)) eqn:E; cbn.
      - apply gtb_gt in E. split; [now apply Qlt_le_weak|apply Qle_refl].
      - apply gtb_le in E. split; [apply Qle_refl|exact E]. }
    destruct S as [S1 S2]. split.
    + eapply Qle_trans; eassumption.
    + intros l [<-|Hl]; [eapply Qle_trans; eassumption|auto].
Qed.

(** X20.  The point of control is the price of a level that no level exceeds in
    volume; only when no level has a volume above -1 is it left at 0. *)
Theorem calculateProfile_poc_has_largest_volume :
  forall (candles : list Candle.t) (tickSize : Q) (m : ProfileMetrics.t),
    calculateProfile candles tickSize = JS.Ok m ->
    (exists l,
        In l (ProfileMetrics.levels m)
        /\ ProfileMetrics.poc m = ProfileLevel.price l
        /\ forall l', In l' (ProfileMetrics.levels m) ->
                      ProfileLevel.volume l' <= ProfileLevel.volume l)
    \/ (ProfileMetrics.poc m = 0
        /\ forall l', In l' (ProfileMetrics.levels m) ->
                      ProfileLevel.volume l' <= -1).
Proof.
  intros candles tickSize m H. destruct candles as [|first rest].
  - inversion H; subst m. right. split; [reflexivity|]. intros l' [].
  - apply calculateProfile_Ok in H. destruct H as (_ & P & _).
    rewrite P. unfold pocScan.
    destruct (pocScan_from (ProfileMetrics.levels m) (0, -1))
      as [[E A]|(l & Hl & E)].
    + right. rewrite E. split; [reflexivity|exact A].
    + left. exists l. rewrite E. split; [exact Hl|]. split; [reflexivity|].
      intros l' Hl'.
      destruct (pocScan_max (ProfileMetrics.levels m) (0, -1)) as [_ M].
      specialize (M l' Hl'). rewrite E in M. exact M.
Qed.

Lemma calculateProfile_poc_has_largest_volume_witness :
  exists m,
    calculateProfile Samples.tieCandles 1 = JS.Ok m
    /\ ((exists l,
            In l (ProfileMetrics.levels m)
            /\ ProfileMetrics.poc m = ProfileLevel.price l
            /\ forall l', In l' (ProfileMetrics.levels m) ->
                          ProfileLevel.volume l' <= ProfileLevel.volume l)
        \/ (ProfileMetrics.poc m = 0
            /\ forall l', In l' (ProfileMetrics.levels m) ->
                          ProfileLevel.volume l' <= -1)).
Proof.
  eexists. split; [vm_compute; reflexivity|].
  apply (calculateProfile_poc_has_largest_volume Samples.tieCandles 1).
  vm_compute. reflexivity.
Defined.




End ProfileFacts.

(* ===================================================================== *)
(** * The cumulative delta, candle by candle *)
(* ===================================================================== *)


(* ===================================================================== *)
(** * The session state: [determineCVDState] and [calculateSessionLevels] *)
(* ===================================================================== *)

Section SessionFacts.
Local Open Scope Q_scope.
Import SessionAnalytics.

Lemma at_slice_last {A : Type} (n : nat) (l : list A) (i : Z) :
  (0 <= i)%Z -> (n <= length l)%nat ->
  JS.at_ (JS.slice_last n l) i = nth_error l (length l - n + Z.to_nat i).
Proof.
  intros Hi Hn. unfold JS.at_, JS.slice_last.
  destruct (i <? 0)%Z eqn:E; [apply Z.ltb_lt in E; lia|].
  apply nth_error_skipn.
Qed.

Lemma slice_last_length {A : Type} (n : nat) (l : list A) :
  (n <= length l)%nat -> length (JS.slice_last n l) = n.
Proof. intro H. unfold JS.slice_last. rewrite length_skipn. lia. Qed.

Lemma nth_error_in_range {A : Type} (l : list A) (i : nat) :
  (i < length l)%nat -> exists x, nth_error l i = Some x.
Proof.
  intro H. destruct (nth_error l i) eqn:E; [eauto|].
  apply nth_error_None in E. lia.
Qed.

Lemma abs_ge_pos (x c : Q) : 0 < x -> c <= Qabs x -> c <= x.
Proof. intros H1 H2. rewrite Qabs_pos in H2; [exact H2|lra]. Qed.

Lemma abs_ge_neg (x c : Q) : x <= 0 -> c <= Qabs x -> x <= - c.
Proof. intros H1 H2. rewrite Qabs_neg in H2; [lra|exact H1]. Qed.

(** X23.  [determineCVDState] returns a state for every candle array, and never
    ACCUMULATION.  With fewer than ten candles the state is NEUTRAL.  It
    reports EXPANSION_UP only when, over the last ten candles, the cvd rose
    by at least 1000 and the close rose, and EXPANSION_DOWN only when the
    cvd fell by at least 1000 and the close fell. *)
Theorem determineCVDState_never_accumulation :
  forall candles : list Candle.t,
    exists s,
      determineCVDState candles = JS.Ok s
      /\ s <> CVD_ACCUMULATION
      /\ ((length candles < 10)%nat -> s = CVD_NEUTRAL)
      /\ (s = CVD_EXPANSION_UP \/ s = CVD_EXPANSION_DOWN ->
          exists first last,
            nth_error candles (length candles - 10) = Some first
            /\ nth_error candles (length candles - 1) = Some last
            /\ (s = CVD_EXPANSION_UP ->
                Candle.close first < Candle.close last
                /\ 1000 <= cvdOf last - cvdOf first)
            /\ (s = CVD_EXPANSION_DOWN ->
                Candle.close last < Candle.close first
                /\ cvdOf last - cvdOf first <= - (1000))).
Proof.
  intro candles. unfold determineCVDState.
  destruct (length candles <? 10)%nat eqn:L.
  { exists CVD_NEUTRAL. repeat split; try discriminate.
    intros [H|H]; discriminate. }
  apply Nat.ltb_ge in L.
  assert (Len : length (JS.slice_last 10 candles) = 10%nat)
    by now apply slice_last_length.
  destruct (nth_error_in_range candles (i := length candles - 10))
    as [first F]; [lia|].
  destruct (nth_error_in_range candles (i := length candles - 1))
    as [last La]; [lia|].
  assert (A0 : JS.at_ (JS.slice_last 10 candles) 0 = Some first).
  { rewrite at_slice_last by lia. simpl Z.to_nat. now rewrite Nat.add_0_r. }
  assert (A9 : JS.at_ (JS.slice_last 10 candles)
                 (JS.len (JS.slice_last 10 candles) - 1) = Some last).
  { unfold JS.len. rewrite Len, at_slice_last by lia.
    replace (length candles - 10 + Z.to_nat (Z.of_nat 10 - 1))%nat
      with (length candles - 1)%nat by lia.
    exact La. }
  rewrite !at_map. unfold JS.len at 1. rewrite length_map. fold (JS.len (JS.slice_last 10 candles)).
  rewrite A0, A9. cbn [option_map JS.deref JS.bind].
  destruct (JS.ltb (JS.Math_abs (cvdOf last - cvdOf first)) 1000) eqn:S.
  - destruct (JS.ltb _ 2000);
      eexists; (split; [reflexivity|]); repeat split; try discriminate;
      try lia; intros [H|H]; discriminate.
  - apply ltb_ge in S. unfold JS.Math_abs in S.
    destruct (JS.gtb (cvdOf last - cvdOf first) 0) eqn:G.
    + apply gtb_gt in G.
      destruct (JS.gtb (Candle.close last - Candle.close first) 0) eqn:P;
        eexists; (split; [reflexivity|]); repeat split; try discriminate;
        try lia; try (intros [H|H]; discriminate).
      intros _. exists first, last. apply gtb_gt in P.
      repeat split; auto; try discriminate; try lra.
      now apply abs_ge_pos.
    + apply gtb_le in G.
      destruct (JS.ltb (Candle.close last - Candle.close first) 0) eqn:P;
        eexists; (split; [reflexivity|]); repeat split; try discriminate;
        try lia; try (intros [H|H]; discriminate).
      intros _. exists first, last. apply ltb_lt in P.
      repeat split; auto; try discriminate; try lra.
      now apply abs_ge_neg.
Qed.

(** *** [calculateSessionLevels] *)

Lemma addLevels_first (c0 : Candle.t) :
  scanned (Candle.timestamp c0) [c0]
    (addLevels (Candle.timestamp c0) levels0 c0).
Proof.
  unfold addLevels.
  assert (E : (Candle.timestamp c0 <? Candle.timestamp c0 + ibDuration)%Z
              = true) by (unfold ibDuration; apply Z.ltb_lt; lia).
  rewrite E. unfold levels0.
  exists (Candle.high c0), (Candle.low c0), (Candle.high c0), (Candle.low c0).
  cbn [sessionHigh sessionLow ibHigh ibLow ibEstablished JSNum.xmax JSNum.xmin].
  assert (B : forall c, In c [c0] ->
                Candle.high c <= Candle.high c0 /\ Candle.low c0 <= Candle.low c).
  { intros c [<-|[]]. split; apply Qle_refl. }
  split; [reflexivity|]. split; [reflexivity|]. split; [reflexivity|].
  split; [reflexivity|]. split; [exact B|].
  split; [exists c0; split; [now left|reflexivity]|].
  split; [exists c0; split; [now left|reflexivity]|].
  split; [intros c Hc _; now apply B|].
  split; [apply Qle_refl|]. split; [apply Qle_refl|].
  split; [discriminate|]. intros (c & [<-|[]] & H). lia.
Qed.

Lemma addLevels_step (start : Z) (seen : list Candle.t) (a : Levels)
    (c : Candle.t) :
  scanned start seen a -> scanned start (c :: seen) (addLevels start a c).
Proof.
  intros (hi & lo & ihi & ilo & Hh & Hl & Hih & Hil & Hb & Hah & Hal & Hib
          & Hi1 & Hi2 & He).
  unfold addLevels. rewrite Hh, Hl, Hih, Hil. cbn [JSNum.xmax JSNum.xmin].
  unfold JS.Math_max, JS.Math_min.
  assert (Bh : forall x, In x (c :: seen) ->
                         Candle.high x <= Qmax hi (Candle.high c)
                         /\ Qmin lo (Candle.low c) <= Candle.low x).
  { intros x [<-|Hx].
    - split; [apply Q.le_max_r|apply Q.le_min_r].
    - destruct (Hb x Hx) as [B1 B2]. split.
      + eapply Qle_trans; [exact B1|apply Q.le_max_l].
      + eapply Qle_trans; [apply Q.le_min_l|exact B2]. }
  assert (Ah : exists x, In x (c :: seen) /\ Qmax hi (Candle.high c) == Candle.high x).
  { destruct (Q.max_spec hi (Candle.high c)) as [[_ E]|[_ E]].
    - exists c. split; [now left|exact E].
    - destruct Hah as (x & Hx & Ex). exists x. split; [now right|].
      now rewrite E. }
  assert (Al : exists x, In x (c :: seen) /\ Qmin lo (Candle.low c) == Candle.low x).
  { destruct (Q.min_spec lo (Candle.low c)) as [[_ E]|[_ E]].
    - destruct Hal as (x & Hx & Ex). exists x. split; [now right|].
      now rewrite E.
    - exists c. split; [now left|exact E]. }
  destruct (Candle.timestamp c <? start + ibDuration)%Z eqn:T.
  - apply Z.ltb_lt in T.
    assert (Ib : forall x, In x (c :: seen) ->
                   (Candle.timestamp x < start + ibDuration)%Z ->
                   Candle.high x <= Qmax ihi (Candle.high c)
                   /\ Qmin ilo (Candle.low c) <= Candle.low x).
    { intros x [<-|Hx] Tx; [split; [apply Q.le_max_r|apply Q.le_min_r]|].
      destruct (Hib x Hx Tx) as [B1 B2]. split.
      - eapply Qle_trans; [exact B1|apply Q.le_max_l].
      - eapply Qle_trans; [apply Q.le_min_l|exact B2]. }
    assert (E : ibEstablished a = true <->
                exists x, In x (c :: seen)
                          /\ (start + ibDuration <= Candle.timestamp x)%Z).
    { rewrite He. split.
      - intros (x & Hx & Tx). exists x. split; [now right|exact Tx].
      - intros (x & [<-|Hx] & Tx); [lia|]. eauto. }
    exists (Qmax hi (Candle.high c)), (Qmin lo (Candle.low c)),
      (Qmax ihi (Candle.high c)), (Qmin ilo (Candle.low c)).
    cbn [sessionHigh sessionLow ibHigh ibLow ibEstablished].
    split; [reflexivity|]. split; [reflexivity|]. split; [reflexivity|].
    split; [reflexivity|]. split; [exact Bh|]. split; [exact Ah|].
    split; [exact Al|]. split; [exact Ib|]. split; [|split; [|exact E]].
    + apply Q.max_lub; [|apply Q.le_max_r].
      eapply Qle_trans; [exact Hi1|apply Q.le_max_l].
    + apply Q.min_glb; [|apply Q.le_min_r].
      eapply Qle_trans; [apply Q.le_min_l|exact Hi2].
  - apply Z.ltb_ge in T.
    assert (Ib : forall x, In x (c :: seen) ->
                   (Candle.timestamp x < start + ibDuration)%Z ->
                   Candle.high x <= ihi /\ ilo <= Candle.low x).
    { intros x [<-|Hx] Tx; [lia|]. now apply Hib. }
    exists (Qmax hi (Candle.high c)), (Qmin lo (Candle.low c)), ihi, ilo.
    cbn [sessionHigh sessionLow ibHigh ibLow ibEstablished].
    split; [reflexivity|]. split; [reflexivity|]. split; [reflexivity|].
    split; [reflexivity|]. split; [exact Bh|]. split; [exact Ah|].
    split; [exact Al|]. split; [exact Ib|]. split; [|split].
    + eapply Qle_trans; [exact Hi1|apply Q.le_max_l].
    + eapply Qle_trans; [apply Q.le_min_l|exact Hi2].
    + split; [|reflexivity]. intros _. exists c. split; [now left|exact T].
Qed.

Lemma addLevels_fold (start : Z) :
  forall (rest seen : list Candle.t) (a : Levels),
    scanned start seen a ->
    scanned start (rev rest ++ seen) (fold_left (addLevels start) rest a).
Proof.
  induction rest as [|c r IH]; intros seen a H; [exact H|].
  cbn [fold_left rev]. rewrite <- app_assoc. cbn [app].
  apply IH. now apply addLevels_step.
Qed.

Lemma scanned_ext (start : Z) (seen seen' : list Candle.t) (a : Levels) :
  (forall c, In c seen <-> In c seen') ->
  scanned start seen a -> scanned start seen' a.
Proof.
  intros E (hi & lo & ihi & ilo & Hh & Hl & Hih & Hil & Hb & Hah & Hal & Hib
            & Hi1 & Hi2 & He).
  exists hi, lo, ihi, ilo.
  split; [exact Hh|]. split; [exact Hl|]. split; [exact Hih|].
  split; [exact Hil|].
  split; [intros c Hc; apply Hb; now apply E|].
  split; [destruct Hah as (x & Hx & Ex); exists x; split;
          [now apply E|exact Ex]|].
  split; [destruct Hal as (x & Hx & Ex); exists x; split;
          [now apply E|exact Ex]|].
  split; [intros c Hc Tc; apply Hib; [now apply E|exact Tc]|].
  split; [exact Hi1|]. split; [exact Hi2|].
  rewrite He. split; intros (x & Hx & Tx); exists x; (split; [now apply E|exact Tx]).
Qed.

(** X24.  For a non-empty array, [calculateSessionLevels] returns a finite
    session range that bounds every candle and is attained on both
    sides.  The initial balance is reported only once a candle starts an
    hour or more after the first one; it is then the range of the candles
    of the first hour, inside the session range. *)
Theorem calculateSessionLevels_ranges :
  forall (first : Candle.t) (rest : list Candle.t),
    let candles := first :: rest in
    let start := Candle.timestamp first in
    exists sl hi lo,
      calculateSessionLevels candles = JS.Ok sl
      /\ SessionLevels.sessionHigh sl = JS.Fin hi
      /\ SessionLevels.sessionLow sl = JS.Fin lo
      /\ (forall c, In c candles -> Candle.high c <= hi /\ lo <= Candle.low c)
      /\ (exists c, In c candles /\ hi == Candle.high c)
      /\ (exists c, In c candles /\ lo == Candle.low c)
      /\ ((forall c, In c candles ->
                     (Candle.timestamp c < start + 3600000)%Z) ->
          SessionLevels.ibHigh sl = None /\ SessionLevels.ibLow sl = None)
      /\ ((exists c, In c candles
                     /\ (start + 3600000 <= Candle.timestamp c)%Z) ->
          exists ihi ilo,
            SessionLevels.ibHigh sl = Some (JS.Fin ihi)
            /\ SessionLevels.ibLow sl = Some (JS.Fin ilo)
            /\ ihi <= hi /\ lo <= ilo
            /\ forall c, In c candles ->
                         (Candle.timestamp c < start + 3600000)%Z ->
                         Candle.high c <= ihi /\ ilo <= Candle.low c).
Proof.
  intros first rest candles start.
  unfold calculateSessionLevels. subst candles. cbv zeta.
  destruct (at_in_range (first :: rest) (i := JS.len (first :: rest) - 1))
    as [last Hlast].
  { unfold JS.len. simpl length. lia. }
  rewrite Hlast. cbn [JS.deref JS.bind fold_left].
  assert (S : scanned start (first :: rest)
                (fold_left (addLevels start) rest
                   (addLevels start levels0 first))).
  { apply scanned_ext with (seen := rev rest ++ [first]).
    - intro c. rewrite in_app_iff, <- in_rev. simpl. tauto.
    - apply addLevels_fold. apply addLevels_first. }
  fold start.
  destruct S as (hi & lo & ihi & ilo & Hh & Hl & Hih & Hil & Hb & Hah & Hal
                 & Hib & Hi1 & Hi2 & He).
  eexists. exists hi, lo. split; [reflexivity|].
  cbn [SessionLevels.sessionHigh SessionLevels.sessionLow SessionLevels.ibHigh
       SessionLevels.ibLow].
  unfold ibDuration in *. change (60 * 60 * 1000)%Z with 3600000%Z in *.
  split; [exact Hh|]. split; [exact Hl|]. split; [exact Hb|].
  split; [exact Hah|]. split; [exact Hal|]. split.
  - intro H.
    destruct (ibEstablished _) eqn:E; [|split; reflexivity].
    exfalso. destruct He as [He _]. destruct (He eq_refl) as (x & Hx & Tx).
    specialize (H x Hx). lia.
  - intro X. apply He in X. rewrite X, Hih, Hil.
    exists ihi, ilo. repeat split; auto; now apply Hib.
Qed.

End SessionFacts.
(* ===================================================================== *)
(** * The screener: [calculateRSI] and [calculateScreenerMetrics] *)
(* ===================================================================== *)

Section ScreenerFacts.
Local Open Scope Q_scope.
Import Screener.

Lemma rsiStep_ok (candles : list Candle.t) (gl : Q * Q) (i : Z) :
  (1 <= i < JS.len candles)%Z ->
  0 <= fst gl -> 0 <= snd gl ->
  exists gl', rsiStep candles gl i = JS.Ok gl'
              /\ 0 <= fst gl' /\ 0 <= snd gl'.
Proof.
  intros Hi Hg Hl. unfold rsiStep.
  destruct (at_in_range candles (i := i)) as [ci Hci]; [lia|].
  destruct (at_in_range candles (i := (i - 1)%Z)) as [cp Hcp]; [lia|].
  rewrite Hci, Hcp. cbn [JS.deref JS.bind].
  destruct (JS.geb (Candle.close ci - Candle.close cp) 0) eqn:E.
  - apply geb_ge in E. eexists. split; [reflexivity|]. cbn [fst snd].
    split; lra.
  - eexists. split; [reflexivity|]. cbn [fst snd]. split; [lra|].
    unfold JS.Math_abs.
    assert (0 <= Qabs (Candle.close ci - Candle.close cp))
      by apply Qabs_nonneg.
    lra.
Qed.

Lemma rsiLoop_ok (candles : list Candle.t) :
  forall (steps : list Z) (gl : Q * Q),
    Forall (fun i => (1 <= i < JS.len candles)%Z) steps ->
    0 <= fst gl -> 0 <= snd gl ->
    exists gl', JSNum.for_each (rsiStep candles) steps gl = JS.Ok gl'
                /\ 0 <= fst gl' /\ 0 <= snd gl'.
Proof.
  induction steps as [|i r IH]; intros gl Hs Hg Hl.
  - exists gl. auto.
  - inversion Hs as [|x l Hi Hr]; subst.
    destruct (rsiStep_ok candles gl Hi Hg Hl) as (gl1 & E & G1 & L1).
    cbn [JSNum.for_each]. rewrite E. cbn [JS.bind]. now apply IH.
Qed.

Lemma upto_Forall (lo hi : Z) :
  Forall (fun i => (lo <= i <= hi)%Z) (JS.upto lo hi).
Proof. apply Forall_forall. intros t H. now apply upto_In. Qed.

Lemma rsi_value (avgGain avgLoss : Q) :
  0 <= avgGain -> 0 < avgLoss ->
  0 <= 100 - 100 / (1 + avgGain / avgLoss)
  /\ 100 - 100 / (1 + avgGain / avgLoss) <= 100.
Proof.
  intros Hg Hl.
  assert (R : 0 <= avgGain / avgLoss).
  { apply Qle_shift_div_l; [exact Hl|]. lra. }
  set (rs := avgGain / avgLoss) in *.
  assert (P : 0 < 1 + rs) by lra.
  assert (D1 : 100 / (1 + rs) <= 100).
  { apply Qle_shift_div_r; [exact P|]. nra. }
  assert (D2 : 0 <= 100 / (1 + rs)).
  { apply Qle_shift_div_l; [exact P|]. lra. }
  split; lra.
Qed.

(** For a positive period, the RSI is a number between 0 and 100 for
    every candle array: no index of the loop leaves the array. *)
Lemma calculateRSI_range (candles : list Candle.t) (period : Z) :
  (1 <= period)%Z ->
  exists rsi,
    calculateRSI candles period = JS.Ok rsi /\ 0 <= rsi /\ rsi <= 100.
Proof.
  intro Hp. unfold calculateRSI.
  destruct (JS.len candles <? period + 1)%Z eqn:L.
  { exists 50. repeat split; unfold Qle; simpl; lia. }
  apply Z.ltb_ge in L.
  destruct (@rsiLoop_ok candles
              (JS.upto (JS.len candles - period) (JS.len candles - 1)) (0, 0))
    as (gl & E & G & Lo).
  { eapply Forall_impl; [|apply upto_Forall]. cbv beta. intros i Hi. lia. }
  { apply Qle_refl. }
  { apply Qle_refl. }
  rewrite E. cbn [JS.bind].
  assert (Pq : 0 < inject_Z period).
  { replace 0 with (inject_Z 0) by reflexivity. rewrite <- Zlt_Qlt. lia. }
  destruct (JS.eqb (snd gl / inject_Z period) 0) eqn:Z.
  { exists 100. repeat split; unfold Qle; simpl; lia. }
  assert (NZ : ~ snd gl / inject_Z period == 0).
  { intro X. apply eqb_eq in X. congruence. }
  assert (A : 0 <= snd gl / inject_Z period).
  { apply Qle_shift_div_l; [exact Pq|]. lra. }
  assert (Ag : 0 <= fst gl / inject_Z period).
  { apply Qle_shift_div_l; [exact Pq|]. lra. }
  eexists. split; [reflexivity|]. apply rsi_value; [exact Ag|].
  apply Qle_lteq in A. destruct A as [A|A]; [exact A|].
  exfalso. apply NZ. now symmetry.
Qed.

Lemma contextOf_ok (rsi : Q) (last : Candle.t) (recent : list Candle.t) :
  recent <> [] -> exists ctx, contextOf rsi last recent = JS.Ok ctx.
Proof.
  intro H. destruct recent as [|r0 rest]; [contradiction|].
  unfold contextOf. cbn [JS.at_ Z.ltb Z.compare Z.to_nat nth_error JS.deref JS.bind].
  repeat match goal with
         | |- context [if ?b then _ else _] => destruct b
         end; eauto.
Qed.

(** X25.  [calculateScreenerMetrics] throws on an empty candle array, reading
    the close of a candle that is not there.  On any other array it
    returns an ACTIVE row priced at the close of the last candle, with a
    trend strength between 0 and 100 and no signal; with at most 20
    candles the context tag is IN_BALANCE. *)
Theorem calculateScreenerMetrics_returns_unless_empty :
  forall (symbol : string) (candles : list Candle.t) (chg24h : Q),
    (candles = [] ->
     calculateScreenerMetrics symbol candles chg24h = JS.TypeError)
    /\ (candles <> [] ->
        exists row last,
          calculateScreenerMetrics symbol candles chg24h = JS.Ok row
          /\ nth_error candles (length candles - 1) = Some last
          /\ ScreenerRow.price row = Candle.close last
          /\ ScreenerRow.symbol row = symbol
          /\ ScreenerRow.status row = ACTIVE
          /\ ScreenerRow.ofSignal row = SIG_NONE
          /\ 0 <= ScreenerRow.trendStrength row
          /\ ScreenerRow.trendStrength row <= 100
          /\ ((length candles <= 20)%nat ->
              ScreenerRow.contextTag row = IN_BALANCE)).
Proof.
  intros symbol candles chg24h. split.
  - intros ->. reflexivity.
  - intro Hne. unfold calculateScreenerMetrics.
    destruct (@calculateRSI_range candles 14) as (rsi & E & R0 & R1); [lia|].
    rewrite E. cbn [JS.bind].
    assert (Hlen : (0 < length candles)%nat).
    { destruct candles; [contradiction|simpl; lia]. }
    destruct (at_in_range candles (i := (JS.len candles - 1)%Z)) as [last Hl].
    { unfold JS.len. lia. }
    rewrite Hl. cbn [JS.deref JS.bind].
    assert (N : nth_error candles (length candles - 1) = Some last).
    { unfold JS.at_, JS.len in Hl.
      destruct (Z.of_nat (length candles) - 1 <? 0)%Z; [discriminate|].
      replace (Z.to_nat (Z.of_nat (length candles) - 1))
        with (length candles - 1)%nat in Hl by lia.
      exact Hl. }
    assert (T : 0 <= JS.Math_abs (rsi - 50) * 2
                /\ JS.Math_abs (rsi - 50) * 2 <= 100).
    { unfold JS.Math_abs.
      assert (0 <= Qabs (rsi - 50)) by apply Qabs_nonneg.
      assert (Qabs (rsi - 50) <= 50) by (apply Qabs_Qle_condition; lra).
      lra. }
    destruct (20 <? length candles)%nat eqn:L.
    + destruct (@contextOf_ok rsi last (JS.slice_last 20 candles)) as [ctx C].
      { apply Nat.ltb_lt in L. intro X.
        apply (f_equal (@length _)) in X.
        rewrite slice_last_length in X by lia. discriminate. }
      rewrite C. cbn [JS.bind]. eexists. exists last.
      split; [reflexivity|]. cbn. repeat split; auto; try apply T.
      intro X. apply Nat.ltb_lt in L. lia.
    + cbn [JS.bind]. eexists. exists last.
      split; [reflexivity|]. cbn. repeat split; auto; apply T.
Qed.

End ScreenerFacts.
(* ===================================================================== *)
(** * [findOrderBlocks] *)
(* ===================================================================== *)

Section OrderBlockFacts.
Local Open Scope Q_scope.
Import Screener.

Lemma for_each_ok {A S : Type} (f : S -> A -> JS.result S) (P : S -> Prop)
    (D : A -> Prop) :
  (forall s x, D x -> P s -> exists s', f s x = JS.Ok s' /\ P s') ->
  forall (l : list A) (s : S),
    Forall D l -> P s ->
    exists s', JSNum.for_each f l s = JS.Ok s' /\ P s'.
Proof.
  intro Hf. induction l as [|x r IH]; intros s Hl Hs.
  - exists s. auto.
  - inversion Hl as [|y l' Hx Hr]; subst.
    destruct (Hf s x Hx Hs) as (s1 & E & P1).
    cbn [JSNum.for_each]. rewrite E. cbn [JS.bind]. now apply IH.
Qed.

Lemma at_In {A : Type} (l : list A) (i : Z) (x : A) :
  JS.at_ l i = Some x -> In x l.
Proof.
  unfold JS.at_. destruct (i <? 0)%Z; [discriminate|]. apply nth_error_In.
Qed.

Lemma Forall_snoc {A : Type} (P : A -> Prop) (l : list A) (x : A) :
  Forall P l -> P x -> Forall P (l ++ [x]).
Proof. intros H1 H2. apply Forall_app. split; [exact H1|now constructor]. Qed.

Lemma blocksAt_ok (candles : list Candle.t) (blocks : list OrderBlock.t)
    (i : Z) :
  (0 <= i /\ i + 1 < JS.len candles)%Z ->
  Forall (freshBlock candles) blocks ->
  exists blocks',
    blocksAt candles blocks i = JS.Ok blocks'
    /\ Forall (freshBlock candles) blocks'.
Proof.
  intros Hi Hb. unfold blocksAt.
  destruct (at_in_range candles (i := i)) as [current Hc]; [lia|].
  destruct (at_in_range candles (i := (i + 1)%Z)) as [next Hn]; [lia|].
  rewrite Hc, Hn. cbn [JS.deref JS.bind].
  assert (Hin : In current candles) by (eapply at_In; exact Hc).
  set (bull := fun (e : bool) =>
         OrderBlock.mk (bullish, Candle.timestamp current) bullish
           (Candle.high current) (Candle.low current)
           (Candle.timestamp current) false (if e then 80 else 50) FRESH).
  set (bear := fun (e : bool) =>
         OrderBlock.mk (bearish, Candle.timestamp current) bearish
           (Candle.high current) (Candle.low current)
           (Candle.timestamp current) false (if e then 80 else 50) FRESH).
  assert (Fbull : JS.ltb (Candle.close current) (Candle.open current) = true ->
                  forall e, freshBlock candles (bull e)).
  { intros R e. apply ltb_lt in R. split; [reflexivity|].
    exists current. cbn. repeat split; auto. destruct e; auto. }
  assert (Fbear : JS.gtb (Candle.close current) (Candle.open current) = true ->
                  forall e, freshBlock candles (bear e)).
  { intros G e. apply gtb_gt in G. split; [reflexivity|].
    exists current. cbn. repeat split; auto. destruct e; auto. }
  destruct (JS.ltb (Candle.close current) (Candle.open current)) eqn:R;
    destruct (JS.gtb (Candle.close current) (Candle.open current)) eqn:G;
    cbn [JS.bind];
    repeat match goal with
           | |- context [if (?a || ?b)%bool then _ else _] =>
               destruct (a || b)%bool; cbn [JS.bind]
           end;
    eexists; (split; [reflexivity|]);
    repeat (apply Forall_snoc); auto;
    try (apply (Fbull eq_refl)); try (apply (Fbear eq_refl)).
Qed.

Lemma touch_core (ob : OrderBlock.t) (c : Candle.t) :
  blockCore (touch ob c) = blockCore ob
  /\ (OrderBlock.status (touch ob c) = OrderBlock.status ob
      \/ OrderBlock.status (touch ob c) = TESTED).
Proof.
  unfold touch. destruct (OrderBlock.type ob);
    match goal with
    | |- context [if ?b then _ else _] => destruct b
    end; cbn; auto.
Qed.

Lemma breaks_core (ob ob' : OrderBlock.t) (c : Candle.t) :
  blockCore ob' = blockCore ob -> breaks ob' c = breaks ob c.
Proof.
  unfold blockCore, breaks. intro H. inversion H as [[H1 H2 H3 H4 H5 H6 H7]].
  now rewrite H2, H3, H4.
Qed.

Lemma scanLater_spec :
  forall (later : list Candle.t) (ob ob' : OrderBlock.t),
    scanLater ob later = (ob', false) ->
    blockCore ob' = blockCore ob
    /\ (OrderBlock.status ob' = OrderBlock.status ob
        \/ OrderBlock.status ob' = TESTED)
    /\ forall c, In c later -> breaks ob c = false.
Proof.
  induction later as [|c r IH]; intros ob ob' H; cbn [scanLater] in H.
  - inversion H; subst. repeat split; auto. intros c [].
  - destruct (touch_core ob c) as [C S].
    destruct (breaks (touch ob c) c) eqn:B; [discriminate|].
    apply IH in H. destruct H as (C' & S' & A).
    split; [congruence|]. split.
    + destruct S' as [S'|S']; [|now right]. rewrite S'. exact S.
    + intros x [<-|Hx].
      * rewrite <- (breaks_core c C). exact B.
      * rewrite <- (breaks_core x C). now apply A.
Qed.

Lemma refine_spec (candles : list Candle.t) (ob ob' : OrderBlock.t) :
  refine candles ob = Some ob' ->
  blockCore ob' = blockCore ob
  /\ (OrderBlock.status ob' = OrderBlock.status ob
      \/ OrderBlock.status ob' = TESTED)
  /\ unbroken candles ob'.
Proof.
  unfold refine.
  destruct (JS.findIndex _ candles =? -1)%Z eqn:X; [discriminate|].
  destruct (scanLater ob _) as [ob1 broken] eqn:SL.
  destruct broken; [discriminate|]. intro H. inversion H; subst ob1.
  apply scanLater_spec in SL. destruct SL as (C & S & A).
  split; [exact C|]. split; [exact S|].
  assert (St : OrderBlock.start ob' = OrderBlock.start ob).
  { unfold blockCore in C. now inversion C. }
  unfold unbroken. rewrite St. split.
  - apply Z.eqb_neq in X. exact X.
  - intros c Hc. rewrite (breaks_core c C). now apply A.
Qed.

Lemma refineAll_In (candles : list Candle.t) :
  forall (blocks : list OrderBlock.t) (ob' : OrderBlock.t),
    In ob' (refineAll candles blocks) ->
    exists ob, In ob blocks /\ refine candles ob = Some ob'.
Proof.
  induction blocks as [|b r IH]; intros ob' H; [destruct H|].
  cbn [refineAll] in H. destruct (refine candles b) as [b'|] eqn:R.
  - destruct H as [<-|H]; [exists b; split; [now left|exact R]|].
    destruct (IH _ H) as (ob & Hin & E). exists ob. split; [now right|exact E].
  - destruct (IH _ H) as (ob & Hin & E). exists ob. split; [now right|exact E].
Qed.

Lemma In_skipn {A : Type} (n : nat) (l : list A) (x : A) :
  In x (skipn n l) -> In x l.
Proof.
  intro H. rewrite <- (firstn_skipn n l). apply in_or_app. now right.
Qed.

Lemma cutFrom_core (candles : list Candle.t) (ob ob' : OrderBlock.t) :
  blockCore ob' = blockCore ob -> cutFrom candles ob -> cutFrom candles ob'.
Proof.
  unfold blockCore, cutFrom. intros C (c & H).
  inversion C as [[C1 C2 C3 C4 C5 C6 C7]].
  exists c. rewrite C1, C2, C3, C4, C5, C6, C7. exact H.
Qed.

(** X26.  [findOrderBlocks] returns for every candle array, and returns at most
    ten blocks, none for fewer than 20 candles.  Each block was cut from a
    candle of the array (a red one for a bullish block, a green one for a
    bearish block), has a strength of 80 or 50, is FRESH or TESTED, never
    FAILING, and is unbroken: no candle after the first one with its
    timestamp closes under the bottom of a bullish block or over the top
    of a bearish one. *)
Theorem findOrderBlocks_returns_unbroken_blocks :
  forall candles : list Candle.t,
    exists blocks,
      findOrderBlocks candles = JS.Ok blocks
      /\ (length blocks <= 10)%nat
      /\ ((length candles < 20)%nat -> blocks = [])
      /\ Forall (fun ob => (OrderBlock.status ob = FRESH
                            \/ OrderBlock.status ob = TESTED)
                           /\ cutFrom candles ob
                           /\ unbroken candles ob)
           blocks.
Proof.
  intro candles. unfold findOrderBlocks.
  destruct (length candles <? 20)%nat eqn:L.
  { exists []. repeat split; auto. simpl. lia. }
  apply Nat.ltb_ge in L.
  destruct (@for_each_ok _ _ (blocksAt candles) (Forall (freshBlock candles))
              (fun i => (0 <= i /\ i + 1 < JS.len candles)%Z)
              (fun s x Dx Ps => @blocksAt_ok candles s x Dx Ps)
              (JS.upto lookback (JS.len candles - 6)) [])
    as (blocks & E & F).
  { eapply Forall_impl; [|apply upto_Forall]. cbv beta. unfold lookback.
    intros i Hi. lia. }
  { constructor. }
  rewrite E. cbn [JS.bind]. eexists. split; [reflexivity|].
  split; [unfold JS.slice_last; rewrite length_skipn; lia|].
  split; [intro X; lia|].
  apply Forall_forall. intros ob' Hin.
  unfold JS.slice_last in Hin. apply In_skipn in Hin.
  apply refineAll_In in Hin. destruct Hin as (ob & Hob & R).
  apply refine_spec in R. destruct R as (C & S & U).
  rewrite Forall_forall in F. destruct (F ob Hob) as [Fs Fc].
  split; [|split; [now apply (cutFrom_core C)|exact U]].
  destruct S as [S|S]; [left; congruence|now right].
Qed.

End OrderBlockFacts.
(* ===================================================================== *)
(** * The analytics loop of the order-flow dashboard *)
(* ===================================================================== *)

Section Loop2.
Local Open Scope Q_scope.
Import DomAnalytics OrderFlowDashboard.

Lemma snapshotMap_get (p : Q) :
  forall (enriched : list EnrichedLevel.t) (m0 : list (Q * EnrichedLevel.t)),
    match JSMap.get Qeq_bool p
            (fold_left
               (fun m l => JSMap.set Qeq_bool (EnrichedLevel.price l) l m)
               enriched m0) with
    | Some pv =>
        (In pv enriched /\ Qeq_bool p (EnrichedLevel.price pv) = true)
        \/ JSMap.get Qeq_bool p m0 = Some pv
    | None =>
        JSMap.get Qeq_bool p m0 = None
        /\ forall x, In x enriched -> Qeq_bool p (EnrichedLevel.price x) = false
    end.
Proof.
  induction enriched as [|l r IH]; intro m0; cbn [fold_left].
  - destruct (JSMap.get Qeq_bool p m0); [now right|]. split; [reflexivity|].
    intros x [].
  - specialize (IH (JSMap.set Qeq_bool (EnrichedLevel.price l) l m0)).
    destruct (Qeq_bool p (EnrichedLevel.price l)) eqn:E.
    + rewrite (get_congr Qeq_bool Qeqb_sym Qeq_bool_trans _ _
                 (JSMap.set Qeq_bool (EnrichedLevel.price l) l m0) E) in IH.
      rewrite (get_set_same Qeq_bool Qeq_bool_refl) in IH.
      destruct (JSMap.get Qeq_bool p _) as [pv|].
      * destruct IH as [[H1 H2]|H]; [left; split; [now right|exact H2]|].
        inversion H; subst pv. left. split; [now left|exact E].
      * destruct IH as [H _]. discriminate.
    + rewrite (get_set_other Qeq_bool Qeqb_sym Qeq_bool_trans) in IH
        by exact E.
      destruct (JSMap.get Qeq_bool p _) as [pv|].
      * destruct IH as [[H1 H2]|H]; [left; split; [now right|exact H2]|].
        now right.
      * destruct IH as [H A]. split; [exact H|].
        intros x [<-|Hx]; [exact E|auto].
Qed.

(** X27.  From one run of the analytics loop to the next, the previous state is
    rebuilt from the enriched levels of the run.  A level of the next
    snapshot whose price was in them comes out one snapshot older than the
    entry it replaces, with a delta of the quantity change plus the traded
    volume; a level at a price that was not there starts at age 0 with its
    whole quantity as delta, and is not a spoof. *)
Theorem analyzeDOM_age_counts_snapshots :
  forall (prevEnriched : list EnrichedLevel.t)
         (newLevels : list OrderBookLevel.t) (recentTrades : list Trade.t)
         (side : Side) (e : EnrichedLevel.t),
    In e (analyzeDOM newLevels (snapshotMap prevEnriched) recentTrades side) ->
    ((forall pv, In pv prevEnriched ->
                 ~ EnrichedLevel.price pv == EnrichedLevel.price e)
     /\ EnrichedLevel.age e = 0%Z
     /\ EnrichedLevel.deltaQty e = EnrichedLevel.qty e
     /\ EnrichedLevel.isSpoof e = false)
    \/ (exists pv,
           In pv prevEnriched
           /\ EnrichedLevel.price pv == EnrichedLevel.price e
           /\ EnrichedLevel.age e = (EnrichedLevel.age pv + 1)%Z
           /\ EnrichedLevel.deltaQty e
              = EnrichedLevel.qty e - EnrichedLevel.qty pv
                + EnrichedLevel.tradeVol e).
Proof.
  intros prevEnriched newLevels recentTrades side e Hin.
  unfold analyzeDOM in Hin. apply enrichLevels_In in Hin.
  destruct Hin as (c & level & _ & He). subst e.
  assert (G := snapshotMap_get (OrderBookLevel.price level) prevEnriched []).
  fold (snapshotMap prevEnriched) in G.
  unfold enrichLevel.
  destruct (JSMap.get Qeq_bool (OrderBookLevel.price level)
              (snapshotMap prevEnriched)) as [pv|].
  - right. destruct G as [[H1 H2]|H]; [|discriminate].
    exists pv. cbn. split; [exact H1|]. split; [|split; reflexivity].
    apply Qeq_bool_iff in H2. now symmetry.
  - left. destruct G as [_ A]. cbn. repeat split.
    intros pv Hpv X. specialize (A pv Hpv).
    assert (Qeq_bool (OrderBookLevel.price level) (EnrichedLevel.price pv) = true)
      by (apply Qeq_bool_iff; now symmetry).
    congruence.
Qed.

Lemma analyzeDOM_age_counts_snapshots_witness :
  ((forall pv, In pv Samples.prevEnriched ->
               ~ EnrichedLevel.price pv == EnrichedLevel.price Samples.agedLevel)
   /\ EnrichedLevel.age Samples.agedLevel = 0%Z
   /\ EnrichedLevel.deltaQty Samples.agedLevel
      = EnrichedLevel.qty Samples.agedLevel
   /\ EnrichedLevel.isSpoof Samples.agedLevel = false)
  \/ (exists pv,
         In pv Samples.prevEnriched
         /\ EnrichedLevel.price pv == EnrichedLevel.price Samples.agedLevel
         /\ EnrichedLevel.age Samples.agedLevel = (EnrichedLevel.age pv + 1)%Z
         /\ EnrichedLevel.deltaQty Samples.agedLevel
            = EnrichedLevel.qty Samples.agedLevel - EnrichedLevel.qty pv
              + EnrichedLevel.tradeVol Samples.agedLevel).
Proof.
  apply (analyzeDOM_age_counts_snapshots Samples.prevEnriched
           Samples.newSnapshot [] bid).
  left. reflexivity.
Defined.

End Loop2.

(* ===================================================================== *)
(** * The rows of the screener *)
(* ===================================================================== *)

Section Rows.
Local Open Scope Q_scope.
Import ScreenerUtils.

Lemma detectSignal_cases (priceChg volZ delta trend : Q) :
  detectSignal priceChg volZ delta trend = (SIG_NONE, 0)
  \/ detectSignal priceChg volZ delta trend = (SIG_ABSORPTION, 85)
  \/ detectSignal priceChg volZ delta trend = (SIG_AGG_BUY, 90)
  \/ detectSignal priceChg volZ delta trend = (SIG_AGG_SELL, 90)
  \/ detectSignal priceChg volZ delta trend = (SIG_SQUEEZE, 75)
  \/ detectSignal priceChg volZ delta trend = (SIG_VACUUM, 60).
Proof.
  unfold detectSignal.
  repeat match goal with
         | |- context [if ?b then _ else _] => destruct b
         end; auto 10.
Qed.

Lemma min_cap (x c : Q) : 0 <= x -> 0 <= c -> 0 <= Qmin x c /\ Qmin x c <= c.
Proof.
  intros Hx Hc. split; [apply Q.min_glb; assumption|apply Q.le_min_r].
Qed.

Lemma calculateAttentionScore_range (volZ priceChg fundingRate deltaZ : Q)
    (hasSignal : bool) :
  0 <= calculateAttentionScore volZ priceChg fundingRate deltaZ hasSignal
  /\ calculateAttentionScore volZ priceChg fundingRate deltaZ hasSignal <= 100
  /\ (hasSignal = false ->
      calculateAttentionScore volZ priceChg fundingRate deltaZ hasSignal <= 80)
  /\ (hasSignal = true ->
      20 <= calculateAttentionScore volZ priceChg fundingRate deltaZ hasSignal).
Proof.
  unfold calculateAttentionScore, JS.Math_min, JS.Math_max, JS.Math_abs.
  assert (A1 : 0 <= Qabs volZ * 10)
    by (assert (0 <= Qabs volZ) by apply Qabs_nonneg; lra).
  assert (A2 : 0 <= Qabs priceChg * 5)
    by (assert (0 <= Qabs priceChg) by apply Qabs_nonneg; lra).
  assert (A3 : 0 <= Qmax 0 ((Qabs fundingRate - 0.01) * 1000))
    by apply Q.le_max_l.
  destruct (min_cap (c := 40) A1) as [B1 C1]; [lra|].
  destruct (min_cap (c := 20) A2) as [B2 C2]; [lra|].
  destruct (min_cap (c := 20) A3) as [B3 C3]; [lra|].
  set (a := Qmin (Qabs volZ * 10) 40) in *.
  set (b := Qmin (Qabs priceChg * 5) 20) in *.
  set (c := Qmin (Qmax 0 ((Qabs fundingRate - 0.01) * 1000)) 20) in *.
  destruct hasSignal.
  - assert (E : Qmin (0 + a + b + c + 20) 100 == 0 + a + b + c + 20)
      by (apply Q.min_l; lra).
    rewrite E. repeat split; try lra; try discriminate.
  - assert (E : Qmin (0 + a + b + c) 100 == 0 + a + b + c)
      by (apply Q.min_l; lra).
    rewrite E. repeat split; try lra; try discriminate.
Qed.

(** X28.  A row comes out of [enrichRowData] with an attention score between 0
    and 100 and a signal confidence between 0 and 90; the signal is never
    ICEBERG, and without a signal the confidence is 0, the duration is 0
    and the attention is at most 80.  A warming-up row is capped at an
    attention of 40 and a confidence of 50, an initializing row has both
    at 0.  The symbol, the price and the status are those of the row. *)
Theorem enrichRowData_scores_in_range :
  forall (row : ScreenerRow.t) (now : Z) (random : nat -> Q)
         (signalStartMap : list (string * (SignalType * Z))),
    let row' := fst (App.enrichRowData row now random signalStartMap) in
    ScreenerRow.symbol row' = ScreenerRow.symbol row
    /\ ScreenerRow.price row' = ScreenerRow.price row
    /\ ScreenerRow.status row' = ScreenerRow.status row
    /\ 0 <= ScreenerRow.attentionScore row'
    /\ ScreenerRow.attentionScore row' <= 100
    /\ 0 <= ScreenerRow.signalConfidence row'
    /\ ScreenerRow.signalConfidence row' <= 90
    /\ ScreenerRow.ofSignal row' <> SIG_ICEBERG
    /\ (ScreenerRow.ofSignal row' = SIG_NONE ->
        ScreenerRow.signalConfidence row' == 0
        /\ ScreenerRow.activeDuration row' = 0%Z
        /\ ScreenerRow.attentionScore row' <= 80)
    /\ (ScreenerRow.status row = WARMING_UP ->
        ScreenerRow.attentionScore row' <= 40
        /\ ScreenerRow.signalConfidence row' <= 50)
    /\ (ScreenerRow.status row = INITIALIZING ->
        ScreenerRow.attentionScore row' == 0
        /\ ScreenerRow.signalConfidence row' == 0)
    /\ (ScreenerRow.vol24h row == 0 -> ScreenerRow.volZScore row' = 0)
    /\ (ScreenerRow.sparkline row <> [] ->
        ScreenerRow.sparkline row' = ScreenerRow.sparkline row)
    /\ (ScreenerRow.sparkline row = [] ->
        length (ScreenerRow.sparkline row') = 20%nat
        /\ last (ScreenerRow.sparkline row') 0 = ScreenerRow.price row).
Proof.
  intros row now random signalStartMap row'. subst row'.
  unfold App.enrichRowData.
  assert (Zv : ScreenerRow.vol24h row == 0 ->
               calculateZScore (ScreenerRow.tfVolume row)
                 (ScreenerRow.vol24h row / 1440)
                 (ScreenerRow.vol24h row / 1440 * 0.5) = 0).
  { intro V. unfold calculateZScore.
    assert (E : JS.eqb (ScreenerRow.vol24h row / 1440 * 0.5) 0 = true)
      by (apply eqb_eq; rewrite V; reflexivity).
    now rewrite E. }
  set (volZ := calculateZScore _ _ _) in *.
  set (delta1m := _ * random 0%nat * 5).
  assert (R := fun b => calculateAttentionScore_range volZ
                          (ScreenerRow.tfChange row)
                          (ScreenerRow.fundingRate row) 0 b).
  set (att := calculateAttentionScore volZ (ScreenerRow.tfChange row)
                (ScreenerRow.fundingRate row) 0) in *.
  destruct (detectSignal (ScreenerRow.tfChange row) volZ delta1m
              (ScreenerRow.trendStrength row)) as [type confidence] eqn:D.
  assert (F : type <> SIG_ICEBERG
              /\ 0 <= confidence /\ confidence <= 90
              /\ (type = SIG_NONE -> confidence = 0)).
  { destruct (detectSignal_cases (ScreenerRow.tfChange row) volZ delta1m
                (ScreenerRow.trendStrength row)) as [E|[E|[E|[E|[E|E]]]]];
      rewrite E in D; inversion D; subst;
      repeat split; try discriminate; try reflexivity;
      unfold Qle; simpl; lia. }
  destruct F as (F1 & F2 & F3 & F4).
  set (isNone := match type with SIG_NONE => true | _ => false end).
  assert (N : isNone = true <-> type = SIG_NONE)
    by (subst isNone; destruct type; split; congruence).
  match goal with
  | |- context [let '(duration, m') := ?p in _] =>
      assert (Dz : isNone = true -> fst p = 0%Z);
      [|destruct p as [duration m']]
  end.
  { intro X. rewrite X. cbn [negb].
    destruct (JSMap.get String.eqb (ScreenerRow.symbol row) signalStartMap);
      reflexivity. }
  cbn [fst] in Dz.
  destruct (R (negb isNone)) as (R1 & R2 & R3 & R4).
  match goal with
  | |- context [let '(a', c') := ?p in _] =>
      assert (S : 0 <= fst p /\ fst p <= 100
                  /\ 0 <= snd p /\ snd p <= 90
                  /\ (type = SIG_NONE -> snd p == 0 /\ fst p <= 80)
                  /\ (ScreenerRow.status row = WARMING_UP ->
                      fst p <= 40 /\ snd p <= 50)
                  /\ (ScreenerRow.status row = INITIALIZING ->
                      fst p == 0 /\ snd p == 0));
      [|destruct p as [a' c']]
  end.
  { assert (X : type = SIG_NONE -> confidence == 0 /\ att (negb isNone) <= 80).
    { intro T. split; [now rewrite (F4 T)|]. apply R3.
      apply N in T. now rewrite T. }
    unfold JS.Math_min.
    destruct (ScreenerRow.status row); cbn [fst snd];
      repeat split; try discriminate; try lra; try (now apply X);
      try apply Q.le_min_r; try (apply Q.min_glb; lra);
      try (eapply Qle_trans; [apply Q.le_min_l|lra]);
      try (unfold Qle; simpl; lia);
      match goal with
      | H : type = SIG_NONE |- _ => destruct (X H) as [X1 X2]
      end.
    - rewrite X1. apply Q.min_l. lra.
    - eapply Qle_trans; [apply Q.le_min_l|exact X2]. }
  cbn [fst snd] in S.
  destruct S as (S1 & S2 & S3 & S4 & S5 & S6 & S7).
  cbn [fst ScreenerRow.symbol ScreenerRow.price ScreenerRow.status
       ScreenerRow.attentionScore ScreenerRow.signalConfidence
       ScreenerRow.ofSignal ScreenerRow.activeDuration ScreenerRow.volZScore
       ScreenerRow.sparkline].
  split; [reflexivity|]. split; [reflexivity|]. split; [reflexivity|].
  split; [exact S1|]. split; [exact S2|]. split; [exact S3|].
  split; [exact S4|]. split; [exact F1|].
  split; [|split; [exact S6|split; [exact S7|split; [exact Zv|split]]]].
  - intro T. destruct (S5 T) as [T1 T2]. split; [exact T1|].
    split; [|exact T2].
    apply N in T. rewrite T. cbn [negb andb]. now apply Dz.
  - intro X. destruct (ScreenerRow.sparkline row); [contradiction|reflexivity].
  - intro X. rewrite X. cbn [length Nat.ltb Nat.leb]. split; reflexivity.
Qed.

End Rows.
(* ===================================================================== *)
(** * The session filter and the candle feed *)
(* ===================================================================== *)

Section SessionFilter.
Local Open Scope Z_scope.
Import SessionAnalytics.





End SessionFilter.

Section Feed.
Local Open Scope Z_scope.
Import App.





End Feed.
